(** * CDRNNBayes: the variational-Bayes network-construction core

    A shallow embedding of [cdr/cdrnnbayes.py] (class [CDRNNBayes]): the
    parameter builders, the output model, the objective and the
    train / predict drivers.

    Numbers.  The program computes in floating point; the properties
    below are about which formula the program evaluates, so scalars are
    idealised as exact rationals in canonical form ([Qc]), where
    equality is Leibniz equality and comparisons compute.  Primitives
    of the numeric backend that are not rational (square root, the
    positivity constraint and its inverse, log-densities and KL
    divergences) are section variables.

    Graph and session.  Graph construction and graph execution are
    folded into one pass: a builder is given the run-time environment
    (the shared [use_MAP_mode] flag, the current value of every
    [tf.Variable], the noise of every [sample]) and returns the values
    its tensors take in that run.  With no stored variable a
    [tf.Variable] evaluates to its initial value, which is the state
    "at construction". *)

From Stdlib Require Import ZArith QArith Qcanon Qcabs List String Ascii Bool Lia.
From Stdlib Require Import Sorted Permutation.
Import ListNotations.

Local Open Scope Z_scope.

(** ** Python exceptions and fallible computations *)

Inductive exn : Set :=
| ValueError
| IndexError
| TypeError
| ZeroDivisionError
| AssertionError
| AttributeError.

Inductive result (A : Type) : Type :=
| Ok (a : A)
| Raise (e : exn).

Arguments Ok {A} a.
Arguments Raise {A} e.

Definition bind {A B : Type} (r : result A) (k : A -> result B) : result B :=
  match r with
  | Ok a => k a
  | Raise e => Raise e
  end.

Notation "x <- r ;; k" := (bind r (fun x => k))
  (at level 61, r at next level, right associativity).

(** ** Rational scalars *)

Definition qc (n : Z) (d : positive) : Qc := Q2Qc (n # d).

Definition Qcltb (x y : Qc) : bool :=
  match (x ?= y)%Qc with Lt => true | _ => false end.

Definition Qceqb (x y : Qc) : bool :=
  match (x ?= y)%Qc with Eq => true | _ => false end.

(** [float(n)] for a Python int. *)
Definition of_int (n : Z) : Qc := Q2Qc (inject_Z n).

(** [int(x)] for a Python float: truncation towards zero. *)
Definition py_int (x : Qc) : Z := Z.quot (Qnum x) (Zpos (Qden x)).

(** [a / b] on Python numbers. *)
Definition py_div (a b : Qc) : result Qc :=
  if Qceqb b 0%Qc then Raise ZeroDivisionError else Ok (a / b)%Qc.

(** Truthiness of an optional number: [None] and [0] are false. *)
Definition truthy (x : option Qc) : bool :=
  match x with
  | Some v => negb (Qceqb v 0%Qc)
  | None => false
  end.

(** ** Python lists *)

(** [xs.index(x)]: position of the first element equal to [x]. *)
Fixpoint py_list_index (xs : list string) (x : string) : result Z :=
  match xs with
  | [] => Raise ValueError
  | y :: ys =>
      if String.eqb y x then Ok 0
      else i <- py_list_index ys x ;; Ok (i + 1)
  end.

(** [xs[i]], negative indices counting from the end. *)
Definition py_getitem {A : Type} (xs : list A) (i : Z) : result A :=
  let n := Z.of_nat (List.length xs) in
  let j := if i <? 0 then i + n else i in
  if (j <? 0) || (n <=? j) then Raise IndexError
  else match nth_error xs (Z.to_nat j) with
       | Some a => Ok a
       | None => Raise IndexError
       end.

(** [xs[-n:]] for [n >= 1]: the last [n] elements (all when [n] exceeds
    the length). *)
Definition py_last {A : Type} (n : nat) (xs : list A) : list A :=
  skipn (List.length xs - n) xs.

(** [zip(xs, ys)]. *)
Definition py_zip {A B : Type} (xs : list A) (ys : list B) : list (A * B) :=
  combine xs ys.

(** [str.lower()] on ASCII. *)
Definition lower_ascii (c : ascii) : ascii :=
  let n := nat_of_ascii c in
  if (Nat.leb 65 n && Nat.leb n 90)%bool then ascii_of_nat (n + 32) else c.

Fixpoint lower (s : string) : string :=
  match s with
  | EmptyString => EmptyString
  | String c s' => String (lower_ascii c) (lower s')
  end.

(** ** Tensors: a shape and the entries in row-major order *)

Record tensor : Type := mkTensor {
  shape : list Z;
  data : list Qc
}.

Definition numel (sh : list Z) : Z := fold_right Z.mul 1 sh.

(** [tf.fill]: a negative dimension is rejected when the graph is built. *)
Definition tf_fill (sh : list Z) (v : Qc) : result tensor :=
  if existsb (fun d => d <? 0) sh then Raise ValueError
  else Ok (mkTensor sh (repeat v (Z.to_nat (numel sh)))).

Definition tf_zeros (sh : list Z) : result tensor := tf_fill sh 0%Qc.
Definition tf_ones (sh : list Z) : result tensor := tf_fill sh 1%Qc.

(** A Python float or a scalar constant used as a tensor. *)
Definition scalar (v : Qc) : tensor := mkTensor [] [v].

(** The value of a scalar tensor. *)
Definition item (t : tensor) : Qc := hd 0%Qc (data t).

Definition tmap (f : Qc -> Qc) (t : tensor) : tensor :=
  mkTensor (shape t) (map f (data t)).

(** [t * c], [t + c] for a scalar [c]. *)
Definition tmul_scalar (t : tensor) (c : Qc) : tensor := tmap (fun x => x * c)%Qc t.
Definition tadd_scalar (t : tensor) (c : Qc) : tensor := tmap (fun x => x + c)%Qc t.

(** The leading dimension of a tensor, when it has one. *)
Definition leading_dim (t : tensor) : option Z := hd_error (shape t).

(** [tf.reduce_sum] over all entries. *)
Definition reduce_sum (xs : list Qc) : Qc := fold_right Qcplus 0%Qc xs.

(** ** Normal distributions *)

Record normal : Type := Normal {
  loc : tensor;
  scale : tensor;
  dist_name : string
}.

(** [Normal.mean()] is the location parameter. *)
Definition mean (d : normal) : tensor := loc d.

(** Entry [i] of [loc + scale * z], [z] the standard-normal draw. *)
Fixpoint sample_entries (z : nat -> Qc) (i : nat) (ls ss : list Qc) : list Qc :=
  match ls, ss with
  | l :: ls', s :: ss' => (l + s * z i)%Qc :: sample_entries z (S i) ls' ss'
  | _, _ => []
  end.

(** [Normal.sample()]: location plus scale times standard-normal noise. *)
Definition sample (noise : string -> nat -> Qc) (d : normal) : tensor :=
  mkTensor (shape (loc d)) (sample_entries (noise (dist_name d)) 0 (data (loc d)) (data (scale d))).

(** One entry of [kl_penalties]: the node [q.kl_divergence(p)]. *)
Record kl_node : Type := KL {
  kl_q : normal;
  kl_p : normal
}.

(** ** Configuration of a [CDRNNBayes] instance

    The initialization keyword arguments, together with the attributes
    the base class derives from the training data. *)

(** A prior scale is a number or the name of an initialization
    heuristic. *)
Inductive py_sd : Type :=
| PyNum (x : Qc)
| PyStr (s : string).

Record config : Type := mkConfig {
  standardize_response : bool;
  asymmetric_error : bool;
  intercept_init : option Qc;
  intercept_prior_sd : option Qc;
  y_sd_prior_sd : option Qc;
  prior_sd_scaling_coefficient : Qc;
  y_sd_prior_sd_scaling_coefficient : Qc;
  y_skewness_prior_sd : Qc;
  y_tailweight_prior_sd : Qc;
  y_tailweight_prior_loc : Qc;
  posterior_to_prior_sd_ratio : Qc;
  ranef_to_fixef_prior_sd_ratio : Qc;
  weight_prior_sd : py_sd;
  bias_prior_sd : py_sd;
  declare_priors_fixef : bool;
  declare_priors_ranef : bool;
  loss_filter_n_sds : option Qc;
  ema_decay : option Qc;
  scale_loss_with_data : bool;
  optim_name : option string;
  (* derived by the base class *)
  y_train_mean : Qc;
  y_train_sd : Qc;
  epsilon : Qc;
  rangf : list string;
  rangf_n_levels : list Z;
  impulse_names : list string;
  n_layers_rnn : Z;
  n_units_rnn : list Z;
  n_units_hidden_state : Z;
  n_units_t_delta_embedding : Z;
  y_sd_trainable : bool;
  y_sd_init : Qc;
  y_sd_init_unconstrained : Qc;
  minibatch_scale : Qc
}.

(** The attributes [_initialize_metadata] sets (lines 54-89), and
    [intercept_init_tf], the constant the base class makes of the
    resolved [intercept_init]. *)
Record metadata : Type := mkMetadata {
  intercept_init_tf : Qc;
  intercept_prior_sd_tf : Qc;
  intercept_posterior_sd_init : Qc;
  intercept_ranef_prior_sd_tf : Qc;
  intercept_ranef_posterior_sd_init : Qc;
  y_sd_prior_sd_tf : Qc;
  y_sd_posterior_sd_init : Qc;
  y_skewness_prior_sd_tf : Qc;
  y_skewness_posterior_sd_init : Qc;
  y_tailweight_prior_loc_tf : Qc;
  y_tailweight_posterior_loc_init : Qc;
  y_tailweight_prior_sd_tf : Qc;
  y_tailweight_posterior_sd_init : Qc
}.

Definition _initialize_metadata (cfg : config) : metadata :=
  let intercept_init :=
    match intercept_init cfg with
    | Some v => v
    | None => if standardize_response cfg then 0%Qc else y_train_mean cfg
    end in
  let intercept_prior_sd :=
    match intercept_prior_sd cfg with
    | Some v => v
    | None =>
        if standardize_response cfg then prior_sd_scaling_coefficient cfg
        else (y_train_sd cfg * prior_sd_scaling_coefficient cfg)%Qc
    end in
  let y_sd_prior_sd :=
    match y_sd_prior_sd cfg with
    | Some v => v
    | None =>
        if standardize_response cfg then y_sd_prior_sd_scaling_coefficient cfg
        else (y_train_sd cfg * y_sd_prior_sd_scaling_coefficient cfg)%Qc
    end in
  let intercept_prior_sd_tf := intercept_prior_sd in
  let intercept_posterior_sd_init :=
    (intercept_prior_sd_tf * posterior_to_prior_sd_ratio cfg)%Qc in
  let intercept_ranef_prior_sd_tf :=
    (intercept_prior_sd_tf * ranef_to_fixef_prior_sd_ratio cfg)%Qc in
  let intercept_ranef_posterior_sd_init :=
    (intercept_posterior_sd_init * ranef_to_fixef_prior_sd_ratio cfg)%Qc in
  let y_sd_prior_sd_tf := y_sd_prior_sd in
  let y_sd_posterior_sd_init := (y_sd_prior_sd_tf * posterior_to_prior_sd_ratio cfg)%Qc in
  let y_skewness_prior_sd_tf := y_skewness_prior_sd cfg in
  let y_skewness_posterior_sd_init :=
    (y_skewness_prior_sd_tf * posterior_to_prior_sd_ratio cfg)%Qc in
  let y_tailweight_prior_sd_tf := y_tailweight_prior_sd cfg in
  let y_tailweight_posterior_sd_init :=
    (y_tailweight_prior_sd_tf * posterior_to_prior_sd_ratio cfg)%Qc in
  {| intercept_init_tf := intercept_init;
     intercept_prior_sd_tf := intercept_prior_sd_tf;
     intercept_posterior_sd_init := intercept_posterior_sd_init;
     intercept_ranef_prior_sd_tf := intercept_ranef_prior_sd_tf;
     intercept_ranef_posterior_sd_init := intercept_ranef_posterior_sd_init;
     y_sd_prior_sd_tf := y_sd_prior_sd_tf;
     y_sd_posterior_sd_init := y_sd_posterior_sd_init;
     y_skewness_prior_sd_tf := y_skewness_prior_sd_tf;
     y_skewness_posterior_sd_init := y_skewness_posterior_sd_init;
     y_tailweight_prior_loc_tf := 1%Qc;
     y_tailweight_posterior_loc_init := 1%Qc;
     y_tailweight_prior_sd_tf := y_tailweight_prior_sd_tf;
     y_tailweight_posterior_sd_init := y_tailweight_posterior_sd_init |}.

(** ** The session: what one execution of the graph reads *)

Record session : Type := mkSession {
  training : bool;
  use_MAP_mode_feed : option bool;
  variables : string -> option tensor;
  noise : string -> nat -> Qc
}.

(** [tf.placeholder_with_default(tf.logical_not(self.training))]
    (line 122): the fed value, else the negation of [training]. *)
Definition use_MAP_mode (s : session) : bool :=
  match use_MAP_mode_feed s with
  | Some b => b
  | None => negb (training s)
  end.

(** A [tf.Variable] evaluates to its stored value, or to its initial
    value when the session holds none. *)
Definition tf_Variable (s : session) (initial_value : tensor) (name : string) : tensor :=
  match variables s name with
  | Some v => v
  | None => initial_value
  end.

(** A session in which no variable has been assigned yet. *)
Definition at_construction (s : session) : Prop :=
  forall name, variables s name = None.

(** [tf.cond(pred, true_fn, false_fn)]. *)
Definition tf_cond {A : Type} (pred : bool) (true_fn false_fn : A) : A :=
  if pred then true_fn else false_fn.

(** What a builder constructs for one parameter.  The Python function
    returns [value] and [summary]; the other fields are its locals. *)
Record latent : Type := mkLatent {
  q_loc : tensor;
  q_scale : tensor;
  q_dist : normal;
  value : tensor;
  summary : tensor;
  prior_dist : option normal
}.

(** ** The parameter builders *)

Section Network.

(** [self.constraint_fn], [self.constraint_fn_inv] (set by the base
    class from the [constraint] keyword), [math.sqrt] on non-negative
    floats, and the name sanitizer [sn] of [cdr.util]. *)
Variables constraint_fn constraint_fn_inv : Qc -> Qc.
Variable sqrt_fn : Qc -> Qc.
Variable sn : string -> string.

(** [math.sqrt]: a negative argument is a math domain error. *)
Definition math_sqrt (x : Qc) : result Qc :=
  if Qcltb x 0%Qc then Raise ValueError else Ok (sqrt_fn x).

(** The block that opens every builder but [initialize_intercept]:
    a heuristic name is resolved to a number.  A string that names no
    heuristic is left as it is and fails in the product with
    [posterior_to_prior_sd_ratio] that follows. *)
Definition resolve_sd_prior (sd_prior : py_sd) (units : Z) : result Qc :=
  match sd_prior with
  | PyStr s =>
      if (String.eqb (lower s) "xavier" || String.eqb (lower s) "glorot")%bool then
        q <- py_div (qc 2 1) (of_int (units + 1)) ;; math_sqrt q
      else if String.eqb (lower s) "he" then
        q <- py_div (qc 2 1) (of_int units) ;; math_sqrt q
      else Raise TypeError
  | PyNum x => Ok x
  end.

(** [self.rangf_n_levels[self.rangf.index(ran_gf)] - 1]. *)
Definition ranef_n_levels (cfg : config) (ran_gf : string) : result Z :=
  i <- py_list_index (rangf cfg) ran_gf ;;
  n <- py_getitem (rangf_n_levels cfg) i ;;
  Ok (n - 1).

(** The block that closes every branch of every builder: the
    posterior [Normal] over the two variables, the mode-selected
    value, the summary, and the KL node when the prior is declared. *)
Definition posterior (cfg : config) (s : session) (q_loc q_scale : tensor)
    (name : string) (declare_prior : bool) (prior : normal)
    (kl_penalties : list kl_node) : latent * list kl_node :=
  let q_dist :=
    Normal q_loc (tadd_scalar (tmap constraint_fn q_scale) (epsilon cfg)) name in
  let value := tf_cond (use_MAP_mode s) (mean q_dist) (sample (noise s) q_dist) in
  let summary := mean q_dist in
  if declare_prior then
    (mkLatent q_loc q_scale q_dist value summary (Some prior),
     kl_penalties ++ [KL q_dist prior])
  else
    (mkLatent q_loc q_scale q_dist value summary None, kl_penalties).

Definition initialize_intercept (cfg : config) (s : session)
    (ran_gf : option string) (kl_penalties : list kl_node)
    : result (latent * list kl_node) :=
  let md := _initialize_metadata cfg in
  match ran_gf with
  | None =>
      let intercept_q_loc :=
        tf_Variable s (scalar (intercept_init_tf md)) "intercept_q_loc" in
      let intercept_q_scale :=
        tf_Variable s (scalar (constraint_fn_inv (intercept_posterior_sd_init md)))
          "intercept_q_scale" in
      Ok (posterior cfg s intercept_q_loc intercept_q_scale "intercept_q"
            (declare_priors_fixef cfg)
            (Normal (scalar (intercept_init_tf md)) (scalar (intercept_prior_sd_tf md))
               "intercept")
            kl_penalties)
  | Some gf =>
      rangf_n_levels <- ranef_n_levels cfg gf ;;
      zeros <- tf_zeros [rangf_n_levels] ;;
      let intercept_q_loc :=
        tf_Variable s zeros ("intercept_q_loc_by_" ++ sn gf) in
      ones <- tf_ones [rangf_n_levels] ;;
      let intercept_q_scale :=
        tf_Variable s
          (tmul_scalar ones
             (constraint_fn_inv
                (intercept_ranef_posterior_sd_init md
                 * ranef_to_fixef_prior_sd_ratio cfg)%Qc))
          ("intercept_q_scale_by_" ++ sn gf) in
      Ok (posterior cfg s intercept_q_loc intercept_q_scale
            ("intercept_q_by_" ++ sn gf)
            (declare_priors_ranef cfg)
            (Normal (scalar 0%Qc)
               (scalar (intercept_prior_sd_tf md * ranef_to_fixef_prior_sd_ratio cfg)%Qc)
               ("intercept_by_" ++ sn gf))
            kl_penalties)
  end.

Definition initialize_coefficient (cfg : config) (s : session)
    (ran_gf : option string) (kl_penalties : list kl_node)
    : result (latent * list kl_node) :=
  let units := Z.of_nat (List.length (impulse_names cfg)) + 1 in
  coefficient_sd_prior <- resolve_sd_prior (weight_prior_sd cfg) units ;;
  let coefficient_sd_posterior :=
    (coefficient_sd_prior * posterior_to_prior_sd_ratio cfg)%Qc in
  match ran_gf with
  | None =>
      zeros <- tf_zeros [1; units] ;;
      let coefficient_q_loc := tf_Variable s zeros "coefficient_q_loc" in
      ones <- tf_ones [1; units] ;;
      let coefficient_q_scale :=
        tf_Variable s (tmul_scalar ones (constraint_fn_inv coefficient_sd_posterior))
          "coefficient_q_scale" in
      Ok (posterior cfg s coefficient_q_loc coefficient_q_scale "coefficient_q"
            (declare_priors_fixef cfg)
            (Normal (scalar 0%Qc) (scalar coefficient_sd_prior) "coefficient")
            kl_penalties)
  | Some gf =>
      rangf_n_levels <- ranef_n_levels cfg gf ;;
      zeros <- tf_zeros [rangf_n_levels; units] ;;
      let coefficient_q_loc :=
        tf_Variable s zeros ("coefficient_q_loc_by_" ++ sn gf) in
      ones <- tf_ones [rangf_n_levels; units] ;;
      let coefficient_q_scale :=
        tf_Variable s
          (tmul_scalar ones
             (constraint_fn_inv
                (coefficient_sd_posterior * ranef_to_fixef_prior_sd_ratio cfg)%Qc))
          ("coefficient_q_scale_by_" ++ sn gf) in
      Ok (posterior cfg s coefficient_q_loc coefficient_q_scale
            ("coefficient_q_by_" ++ sn gf)
            (declare_priors_ranef cfg)
            (Normal (scalar 0%Qc)
               (scalar (coefficient_sd_prior * ranef_to_fixef_prior_sd_ratio cfg)%Qc)
               ("coefficient_by_" ++ sn gf))
            kl_penalties)
  end.

Definition initialize_rnn_h (cfg : config) (s : session) (l : Z)
    (ran_gf : option string) (kl_penalties : list kl_node)
    : result (latent * list kl_node) :=
  units <- py_getitem (n_units_rnn cfg) l ;;
  rnn_h_sd_prior <- resolve_sd_prior (bias_prior_sd cfg) units ;;
  let rnn_h_sd_posterior := (rnn_h_sd_prior * posterior_to_prior_sd_ratio cfg)%Qc in
  match ran_gf with
  | None =>
      zeros <- tf_zeros [1; units] ;;
      let rnn_h_q_loc := tf_Variable s zeros "rnn_h_q_loc" in
      ones <- tf_ones [1; units] ;;
      let rnn_h_q_scale :=
        tf_Variable s (tmul_scalar ones (constraint_fn_inv rnn_h_sd_posterior))
          "rnn_h_q_scale" in
      Ok (posterior cfg s rnn_h_q_loc rnn_h_q_scale "rnn_h_q"
            (declare_priors_fixef cfg)
            (Normal (scalar 0%Qc) (scalar rnn_h_sd_prior) "rnn_h")
            kl_penalties)
  | Some gf =>
      rangf_n_levels <- ranef_n_levels cfg gf ;;
      zeros <- tf_zeros [rangf_n_levels; units] ;;
      let rnn_h_q_loc := tf_Variable s zeros ("rnn_h_q_loc_by_" ++ sn gf) in
      ones <- tf_ones [rangf_n_levels; units] ;;
      let rnn_h_q_scale :=
        tf_Variable s
          (tmul_scalar ones
             (constraint_fn_inv
                (rnn_h_sd_posterior * ranef_to_fixef_prior_sd_ratio cfg)%Qc))
          ("rnn_h_q_scale_by_" ++ sn gf) in
      Ok (posterior cfg s rnn_h_q_loc rnn_h_q_scale ("rnn_h_q_by_" ++ sn gf)
            (declare_priors_ranef cfg)
            (Normal (scalar 0%Qc)
               (scalar (rnn_h_sd_prior * ranef_to_fixef_prior_sd_ratio cfg)%Qc)
               ("rnn_h_by_" ++ sn gf))
            kl_penalties)
  end.

Definition initialize_rnn_c (cfg : config) (s : session) (l : Z)
    (ran_gf : option string) (kl_penalties : list kl_node)
    : result (latent * list kl_node) :=
  units <- py_getitem (n_units_rnn cfg) l ;;
  rnn_c_sd_prior <- resolve_sd_prior (bias_prior_sd cfg) units ;;
  let rnn_c_sd_posterior := (rnn_c_sd_prior * posterior_to_prior_sd_ratio cfg)%Qc in
  match ran_gf with
  | None =>
      zeros <- tf_zeros [1; units] ;;
      let rnn_c_q_loc := tf_Variable s zeros "rnn_c_q_loc" in
      ones <- tf_ones [1; units] ;;
      let rnn_c_q_scale :=
        tf_Variable s (tmul_scalar ones (constraint_fn_inv rnn_c_sd_posterior))
          "rnn_c_q_scale" in
      Ok (posterior cfg s rnn_c_q_loc rnn_c_q_scale "rnn_c_q"
            (declare_priors_fixef cfg)
            (Normal (scalar 0%Qc) (scalar rnn_c_sd_prior) "rnn_c")
            kl_penalties)
  | Some gf =>
      rangf_n_levels <- ranef_n_levels cfg gf ;;
      zeros <- tf_zeros [rangf_n_levels; units] ;;
      let rnn_c_q_loc := tf_Variable s zeros ("rnn_c_q_loc_by_" ++ sn gf) in
      ones <- tf_ones [rangf_n_levels; units] ;;
      let rnn_c_q_scale :=
        tf_Variable s
          (tmul_scalar ones
             (constraint_fn_inv
                (rnn_c_sd_posterior * ranef_to_fixef_prior_sd_ratio cfg)%Qc))
          ("rnn_c_q_scale_by_" ++ sn gf) in
      Ok (posterior cfg s rnn_c_q_loc rnn_c_q_scale ("rnn_c_q_by_" ++ sn gf)
            (declare_priors_ranef cfg)
            (Normal (scalar 0%Qc)
               (scalar (rnn_c_sd_prior * ranef_to_fixef_prior_sd_ratio cfg)%Qc)
               ("rnn_c_by_" ++ sn gf))
            kl_penalties)
  end.

Definition initialize_h_bias (cfg : config) (s : session)
    (ran_gf : option string) (kl_penalties : list kl_node)
    : result (latent * list kl_node) :=
  let units := n_units_hidden_state cfg in
  h_bias_sd_prior <- resolve_sd_prior (bias_prior_sd cfg) units ;;
  let h_bias_sd_posterior := (h_bias_sd_prior * posterior_to_prior_sd_ratio cfg)%Qc in
  match ran_gf with
  | None =>
      zeros <- tf_zeros [1; 1; units] ;;
      let h_bias_q_loc := tf_Variable s zeros "h_bias_q_loc" in
      ones <- tf_ones [1; 1; units] ;;
      let h_bias_q_scale :=
        tf_Variable s (tmul_scalar ones (constraint_fn_inv h_bias_sd_posterior))
          "h_bias_q_scale" in
      Ok (posterior cfg s h_bias_q_loc h_bias_q_scale "h_bias_q"
            (declare_priors_fixef cfg)
            (Normal (scalar 0%Qc) (scalar h_bias_sd_prior) "h_bias")
            kl_penalties)
  | Some gf =>
      rangf_n_levels <- ranef_n_levels cfg gf ;;
      zeros <- tf_zeros [rangf_n_levels; units] ;;
      let h_bias_q_loc := tf_Variable s zeros ("h_bias_q_loc_by_" ++ sn gf) in
      ones <- tf_ones [rangf_n_levels; units] ;;
      let h_bias_q_scale :=
        tf_Variable s
          (tmul_scalar ones
             (constraint_fn_inv
                (h_bias_sd_posterior * ranef_to_fixef_prior_sd_ratio cfg)%Qc))
          ("h_bias_q_scale_by_" ++ sn gf) in
      Ok (posterior cfg s h_bias_q_loc h_bias_q_scale ("h_bias_q_by_" ++ sn gf)
            (declare_priors_ranef cfg)
            (Normal (scalar 0%Qc)
               (scalar (h_bias_sd_prior * h_bias_sd_prior)%Qc)
               ("h_bias_by_" ++ sn gf))
            kl_penalties)
  end.

(** First half of [initialize_irf_l1_biases]: the weight bias. *)
Definition initialize_irf_l1_W_bias (cfg : config) (s : session)
    (ran_gf : option string) (kl_penalties : list kl_node)
    : result (latent * list kl_node) :=
  let units := n_units_t_delta_embedding cfg in
  irf_l1_W_bias_sd_prior <- resolve_sd_prior (weight_prior_sd cfg) units ;;
  let irf_l1_W_bias_sd_posterior :=
    (irf_l1_W_bias_sd_prior * posterior_to_prior_sd_ratio cfg)%Qc in
  match ran_gf with
  | None =>
      zeros <- tf_zeros [1; 1; units] ;;
      let irf_l1_W_bias_q_loc := tf_Variable s zeros "irf_l1_W_bias_q_loc" in
      zeros' <- tf_zeros [1; 1; units] ;;
      let irf_l1_W_bias_q_scale :=
        tf_Variable s (tmul_scalar zeros' (constraint_fn_inv irf_l1_W_bias_sd_posterior))
          "irf_l1_W_bias_q_scale" in
      Ok (posterior cfg s irf_l1_W_bias_q_loc irf_l1_W_bias_q_scale "irf_l1_W_bias_q"
            (declare_priors_fixef cfg)
            (Normal (scalar 0%Qc) (scalar irf_l1_W_bias_sd_prior) "irf_l1_W_bias")
            kl_penalties)
  | Some gf =>
      rangf_n_levels <- ranef_n_levels cfg gf ;;
      zeros <- tf_zeros [rangf_n_levels; units] ;;
      let irf_l1_W_bias_q_loc :=
        tf_Variable s zeros ("irf_l1_W_bias_q_loc_by_" ++ sn gf) in
      ones <- tf_ones [rangf_n_levels; units] ;;
      let irf_l1_W_bias_q_scale :=
        tf_Variable s
          (tmul_scalar ones
             (constraint_fn_inv
                (irf_l1_W_bias_sd_posterior * ranef_to_fixef_prior_sd_ratio cfg)%Qc))
          ("irf_l1_W_bias_q_scale_by_" ++ sn gf) in
      Ok (posterior cfg s irf_l1_W_bias_q_loc irf_l1_W_bias_q_scale
            ("irf_l1_W_bias_q_by_" ++ sn gf)
            (declare_priors_ranef cfg)
            (Normal (scalar 0%Qc)
               (scalar (irf_l1_W_bias_sd_prior * ranef_to_fixef_prior_sd_ratio cfg)%Qc)
               ("irf_l1_W_bias_by_" ++ sn gf))
            kl_penalties)
  end.

(** Second half of [initialize_irf_l1_biases]: the input bias. *)
Definition initialize_irf_l1_b_bias (cfg : config) (s : session)
    (ran_gf : option string) (kl_penalties : list kl_node)
    : result (latent * list kl_node) :=
  let units := n_units_t_delta_embedding cfg in
  irf_l1_b_bias_sd_prior <- resolve_sd_prior (bias_prior_sd cfg) units ;;
  let irf_l1_b_bias_sd_posterior :=
    (irf_l1_b_bias_sd_prior * posterior_to_prior_sd_ratio cfg)%Qc in
  match ran_gf with
  | None =>
      zeros <- tf_zeros [1; 1; units] ;;
      let irf_l1_b_bias_q_loc := tf_Variable s zeros "irf_l1_b_bias_q_loc" in
      zeros' <- tf_zeros [1; 1; units] ;;
      let irf_l1_b_bias_q_scale :=
        tf_Variable s (tmul_scalar zeros' (constraint_fn_inv irf_l1_b_bias_sd_posterior))
          "irf_l1_b_bias_q_scale" in
      Ok (posterior cfg s irf_l1_b_bias_q_loc irf_l1_b_bias_q_scale "irf_l1_b_bias_q"
            (declare_priors_fixef cfg)
            (Normal (scalar 0%Qc) (scalar irf_l1_b_bias_sd_prior) "irf_l1_b_bias")
            kl_penalties)
  | Some gf =>
      rangf_n_levels <- ranef_n_levels cfg gf ;;
      zeros <- tf_zeros [rangf_n_levels; units] ;;
      let irf_l1_b_bias_q_loc :=
        tf_Variable s zeros ("irf_l1_b_bias_q_loc_by_" ++ sn gf) in
      ones <- tf_ones [rangf_n_levels; units] ;;
      let irf_l1_b_bias_q_scale :=
        tf_Variable s
          (tmul_scalar ones
             (constraint_fn_inv
                (irf_l1_b_bias_sd_posterior * ranef_to_fixef_prior_sd_ratio cfg)%Qc))
          ("irf_l1_b_bias_q_scale_by_" ++ sn gf) in
      Ok (posterior cfg s irf_l1_b_bias_q_loc irf_l1_b_bias_q_scale
            ("irf_l1_b_bias_q_by_" ++ sn gf)
            (declare_priors_ranef cfg)
            (Normal (scalar 0%Qc)
               (scalar (irf_l1_b_bias_sd_prior * ranef_to_fixef_prior_sd_ratio cfg)%Qc)
               ("irf_l1_b_bias_by_" ++ sn gf))
            kl_penalties)
  end.

(** [initialize_irf_l1_biases]: the weight bias, then the input bias,
    both appending to the same [kl_penalties]. *)
Definition initialize_irf_l1_biases (cfg : config) (s : session)
    (ran_gf : option string) (kl_penalties : list kl_node)
    : result (latent * latent * list kl_node) :=
  W <- initialize_irf_l1_W_bias cfg s ran_gf kl_penalties ;;
  b <- initialize_irf_l1_b_bias cfg s ran_gf (snd W) ;;
  Ok (fst W, fst b, snd b).

(** The parameter kinds and the builder of each. *)
Inductive kind : Set :=
| Intercept
| Coefficient
| RnnH (l : Z)
| RnnC (l : Z)
| HBias
| IrfL1WBias
| IrfL1bBias.

Definition build (k : kind) (cfg : config) (s : session)
    (ran_gf : option string) (kl_penalties : list kl_node)
    : result (latent * list kl_node) :=
  match k with
  | Intercept => initialize_intercept cfg s ran_gf kl_penalties
  | Coefficient => initialize_coefficient cfg s ran_gf kl_penalties
  | RnnH l => initialize_rnn_h cfg s l ran_gf kl_penalties
  | RnnC l => initialize_rnn_c cfg s l ran_gf kl_penalties
  | HBias => initialize_h_bias cfg s ran_gf kl_penalties
  | IrfL1WBias => initialize_irf_l1_W_bias cfg s ran_gf kl_penalties
  | IrfL1bBias => initialize_irf_l1_b_bias cfg s ran_gf kl_penalties
  end.

(** ** The output model *)

(** The tensors of the deterministic backbone (base class [CDRNN]) in
    this run: the network's prediction [self.out] and the response
    [self.y], one entry per example; the per-example deltas of the
    error parameters and their running means; the global step; what
    fetching the recurrent layers' EMA ops returns. *)
Record backbone : Type := mkBackbone {
  out : list Qc;
  y : list Qc;
  y_sd_delta : nat -> Qc;
  y_sd_delta_ema : Qc;
  y_skewness_delta : nat -> Qc;
  y_skewness_delta_ema : Qc;
  y_tailweight_delta : nat -> Qc;
  y_tailweight_delta_ema : Qc;
  global_batch_step : Z;
  rnn_h_ema_ops : list (option Qc);
  rnn_c_ema_ops : list (option Qc)
}.

(** The predictive distribution of one example: [Normal(loc, scale)],
    or [SinhArcsinh(loc, scale, skewness, tailweight)]. *)
Record dist1 : Type := Dist1 {
  d_loc : Qc;
  d_scale : Qc;
  d_skew_tail : option (Qc * Qc)
}.

(** [SinhArcsinh.mean], [SinhArcsinh.sample] and [log_prob] of either
    family are primitives of the backend. *)
Variable sas_mean : Qc -> Qc -> Qc -> Qc -> Qc.
Variable sas_sample : Qc -> Qc -> Qc -> Qc -> Qc -> Qc.
Variable log_prob : dist1 -> Qc -> Qc.

Definition dist1_mean (d : dist1) : Qc :=
  match d_skew_tail d with
  | None => d_loc d
  | Some (sk, tw) => sas_mean (d_loc d) (d_scale d) sk tw
  end.

Definition dist1_sample (z : Qc) (d : dist1) : Qc :=
  match d_skew_tail d with
  | None => (d_loc d + d_scale d * z)%Qc
  | Some (sk, tw) => sas_sample (d_loc d) (d_scale d) sk tw z
  end.

Fixpoint mapi_from {A B : Type} (f : nat -> A -> B) (i : nat) (xs : list A) : list B :=
  match xs with
  | [] => []
  | x :: xs' => f i x :: mapi_from f (S i) xs'
  end.

Definition mapi {A B : Type} (f : nat -> A -> B) (xs : list A) : list B :=
  mapi_from f 0 xs.

(** [tf.cond(self.use_MAP_mode, dist.mean, dist.sample)] on a batch. *)
Definition select_batch (s : session) (name : string) (ds : list dist1) : list Qc :=
  tf_cond (use_MAP_mode s) (map dist1_mean ds)
    (mapi (fun i d => dist1_sample (noise s name i) d) ds).

(** What [_initialize_output_model] leaves on [self] (the error
    distributions and their quantile and CDF tables, used only for
    plots, are left out). *)
Record output_model : Type := mkOutputModel {
  y_sd_dist : option normal;
  y_sd : nat -> Qc;
  y_sd_summary : Qc;
  y_skewness_dist : option normal;
  y_skewness_summary : option Qc;
  y_tailweight_dist : option normal;
  y_tailweight_summary : option Qc;
  out_standardized_dist : option (list dist1);
  out_standardized : option (list Qc);
  out_dist : list dist1;
  out_after : list Qc;
  ll_standardized : option (list Qc);
  om_kl_penalties : list kl_node
}.

Definition _initialize_output_model (cfg : config) (s : session) (bb : backbone)
    (kl_penalties : list kl_node) : output_model :=
  let md := _initialize_metadata cfg in
  let eps := epsilon cfg in
  (* y_sd *)
  let y_sd_loc_q := tf_Variable s (scalar (y_sd_init_unconstrained cfg)) "y_sd_loc_q" in
  let y_sd_scale_q :=
    tf_Variable s (scalar (constraint_fn_inv (y_sd_posterior_sd_init md))) "y_sd_scale_q" in
  let y_sd_dist :=
    Normal y_sd_loc_q (tadd_scalar (tmap constraint_fn y_sd_scale_q) eps) "y_sd_q" in
  let y_sd_unc : nat -> Qc := fun i =>
    (item (tf_cond (use_MAP_mode s) (mean y_sd_dist) (sample (noise s) y_sd_dist))
     + y_sd_delta bb i)%Qc in
  let y_sd_summary_unc := (item (mean y_sd_dist) + y_sd_delta_ema bb)%Qc in
  let kl1 :=
    if (y_sd_trainable cfg && declare_priors_fixef cfg)%bool then
      kl_penalties ++
        [KL y_sd_dist
            (Normal (scalar (y_sd_init_unconstrained cfg)) (scalar (y_sd_prior_sd_tf md))
               "y_sd")]
    else kl_penalties in
  let y_sd : nat -> Qc :=
    if y_sd_trainable cfg then fun i => (constraint_fn (y_sd_unc i) + eps)%Qc
    else fun _ => y_sd_init cfg in
  let y_sd_summary :=
    if y_sd_trainable cfg then (constraint_fn y_sd_summary_unc + eps)%Qc
    else y_sd_init cfg in
  (* y_skewness, y_tailweight *)
  let y_skewness_loc_q := tf_Variable s (scalar 0%Qc) "y_skewness_q_loc" in
  let y_skewness_scale_q :=
    tf_Variable s (scalar (constraint_fn_inv (y_skewness_posterior_sd_init md)))
      "y_skewness_q_loc_1" in
  let y_skewness_dist :=
    Normal y_skewness_loc_q (tadd_scalar (tmap constraint_fn y_skewness_scale_q) eps)
      "y_skewness_q" in
  let y_skewness : nat -> Qc := fun i =>
    (item (tf_cond (use_MAP_mode s) (mean y_skewness_dist)
             (sample (noise s) y_skewness_dist))
     + y_skewness_delta bb i)%Qc in
  let y_skewness_summary := (item (mean y_skewness_dist) + y_skewness_delta_ema bb)%Qc in
  let y_tailweight_loc_q :=
    tf_Variable s (scalar (constraint_fn_inv (y_tailweight_posterior_loc_init md)))
      "y_tailweight_q_loc" in
  let y_tailweight_scale_q :=
    tf_Variable s (scalar (constraint_fn_inv (y_tailweight_posterior_sd_init md)))
      "y_tailweight_q_scale" in
  let y_tailweight_dist :=
    Normal y_tailweight_loc_q (tadd_scalar (tmap constraint_fn y_tailweight_scale_q) eps)
      "y_tailweight_q" in
  let y_tailweight : nat -> Qc := fun i =>
    (item (tf_cond (use_MAP_mode s) (mean y_tailweight_dist)
             (sample (noise s) y_tailweight_dist))
     + y_tailweight_delta bb i)%Qc in
  let y_tailweight_summary :=
    (item (mean y_tailweight_dist) + y_tailweight_delta_ema bb)%Qc in
  let kl2 :=
    if (asymmetric_error cfg && declare_priors_fixef cfg)%bool then
      kl1 ++
        [KL y_skewness_dist
            (Normal (scalar 0%Qc) (scalar (y_skewness_prior_sd_tf md)) "y_skewness");
         KL y_tailweight_dist
            (Normal (scalar (constraint_fn_inv (y_tailweight_prior_loc cfg)))
               (scalar (y_tailweight_prior_sd_tf md)) "y_tailweight")]
    else kl1 in
  (* the predictive distributions *)
  let skew_tail : nat -> option (Qc * Qc) := fun i =>
    if asymmetric_error cfg
    then Some (y_skewness i, (constraint_fn (y_tailweight i) + eps)%Qc)
    else None in
  let out_standardized_dist :=
    mapi (fun i o => Dist1 o (y_sd i) (skew_tail i)) (out bb) in
  let out_dist :=
    if standardize_response cfg then
      mapi (fun i o =>
              Dist1 (o * y_train_sd cfg + y_train_mean cfg)%Qc
                    (y_sd i * y_train_sd cfg)%Qc (skew_tail i)) (out bb)
    else mapi (fun i o => Dist1 o (y_sd i) (skew_tail i)) (out bb) in
  let y_standardized :=
    map (fun v => ((v - y_train_mean cfg) / y_train_sd cfg)%Qc) (y bb) in
  {| y_sd_dist := if y_sd_trainable cfg then Some y_sd_dist else None;
     y_sd := y_sd;
     y_sd_summary := y_sd_summary;
     y_skewness_dist := if asymmetric_error cfg then Some y_skewness_dist else None;
     y_skewness_summary :=
       if asymmetric_error cfg then Some y_skewness_summary else None;
     y_tailweight_dist := if asymmetric_error cfg then Some y_tailweight_dist else None;
     y_tailweight_summary :=
       if asymmetric_error cfg then Some y_tailweight_summary else None;
     out_standardized_dist :=
       if standardize_response cfg then Some out_standardized_dist else None;
     out_standardized :=
       if standardize_response cfg
       then Some (select_batch s "output_standardized" out_standardized_dist)
       else None;
     out_dist := out_dist;
     out_after :=
       select_batch s (if asymmetric_error cfg then "output_dist" else "output") out_dist;
     ll_standardized :=
       if standardize_response cfg
       then Some (map (fun dy => log_prob (fst dy) (snd dy))
                    (py_zip out_standardized_dist y_standardized))
       else None;
     om_kl_penalties := kl2 |}.

(** ** The objective *)

(** [q.kl_divergence(p)] as a tensor, the name mangler [reg_name] of
    [cdr.util], and [self._regularize] of the base class, which may
    append one penalty and its name to the two regularizer lists. *)
Variable kl_divergence : normal -> normal -> tensor.
Variable reg_name : string -> string.

Record tf_var : Type := mkVar { v_name : string }.

(** An entry of [self.regularizable_layers]: an object with a
    [weights] attribute, or a bare variable. *)
Inductive layer : Type :=
| WithWeights (weights : list tf_var)
| Bare (v : tf_var).

Record regularizers : Type := mkRegularizers {
  regularizer_losses : list Qc;
  regularizer_losses_varnames : list string
}.

Variable _regularize : regularizers -> tf_var -> string -> regularizers.

(** [sub in s] on strings. *)
Fixpoint contains (sub s : string) : bool :=
  match s with
  | EmptyString => String.prefix sub EmptyString
  | String _ s' => (String.prefix sub s || contains sub s')%bool
  end.

(** Lines 1095-1102: every variable of every regularizable layer
    whose name does not contain ['bias'] is regularized. *)
Definition regularize_layers (layers : list layer) (regs : regularizers) : regularizers :=
  fold_left
    (fun regs l =>
       let vars := match l with WithWeights ws => ws | Bare v => [v] end in
       fold_left
         (fun regs v =>
            if negb (contains "bias" (v_name v))
            then _regularize regs v (reg_name (v_name v))
            else regs)
         vars regs)
    layers regs.

(** [tf.add_n] needs at least one input. *)
Definition tf_add_n (xs : list Qc) : result Qc :=
  match xs with
  | [] => Raise ValueError
  | _ => Ok (reduce_sum xs)
  end.

Definition reduce_mean (xs : list Qc) : Qc :=
  (reduce_sum xs / of_int (Z.of_nat (List.length xs)))%Qc.

(** The running loss statistics of the outlier filter, present when the
    filter is configured. *)
Record loss_filter : Type := mkLossFilter {
  ema_warm_up : Z;
  loss_cutoff : Qc;
  n_dropped : Qc;
  n_retained : Qc;
  loss_mean_cur : Qc;
  loss_sd_cur : Qc;
  loss_ema_op : Qc;
  loss_sd_ema_op : Qc
}.

Record objective : Type := mkObjective {
  ll : list Qc;
  per_example_loss : list Qc;
  filter_stats : option loss_filter;
  likelihood_loss : Qc;
  reg_loss : Qc;
  kl_loss : Qc;
  loss_func : Qc;
  penalties : list kl_node;
  regs_after : regularizers
}.

(** Lines 1058-1088: the outlier filter of [initialize_objective], run
    on the per-example loss.  It returns the loss the objective goes on
    with and, when the filter is configured, its statistics. *)
Definition filter_losses (cfg : config) (s : session) (bb : backbone)
    (loss_func : list Qc) : result (list Qc * option loss_filter) :=
  if (truthy (loss_filter_n_sds cfg) && truthy (ema_decay cfg))%bool then
    let beta := match ema_decay cfg with Some b => b | None => 0%Qc end in
    q <- py_div (qc 2 1) (1 - beta)%Qc ;;
    let ema_warm_up := py_int q in
    let n_sds := match loss_filter_n_sds cfg with Some n => n | None => 0%Qc end in
    let loss_ema := item (tf_Variable s (scalar 0%Qc) "loss_ema") in
    let loss_sd_ema := item (tf_Variable s (scalar 0%Qc) "loss_sd_ema") in
    let loss_cutoff := (loss_ema + n_sds * loss_sd_ema)%Qc in
    let loss_func_filter :=
      map (fun l => if Qcltb l loss_cutoff then 1%Qc else 0%Qc) loss_func in
    let loss_func_filtered :=
      map (fun lf => (fst lf * snd lf)%Qc) (py_zip loss_func loss_func_filter) in
    let n_batch := of_int (Z.of_nat (List.length loss_func)) in
    let n_retained := reduce_sum loss_func_filter in
    let n_dropped := (n_batch - n_retained)%Qc in
    let '(loss_func, n_retained) :=
      tf_cond (ema_warm_up <? global_batch_step bb)
        (loss_func_filtered, n_retained) (loss_func, n_batch) in
    let loss_mean_cur := (reduce_sum loss_func / (n_retained + epsilon cfg))%Qc in
    let loss_sd_cur :=
      (sqrt_fn (reduce_sum (map (fun l => (l - loss_ema) ^ 2) loss_func))
       / (n_retained + epsilon cfg))%Qc in
    let loss_ema_update := (beta * loss_ema + (1 - beta) * loss_mean_cur)%Qc in
    let loss_sd_ema_update := (beta * loss_sd_ema + (1 - beta) * loss_sd_cur)%Qc in
    Ok (loss_func,
        Some (mkLossFilter ema_warm_up loss_cutoff n_dropped n_retained
                loss_mean_cur loss_sd_cur loss_ema_update loss_sd_ema_update))
  else Ok (loss_func, None).

Definition initialize_objective (cfg : config) (s : session) (bb : backbone)
    (kl_penalties : list kl_node) (regs : regularizers)
    (regularizable_layers : list layer) : result objective :=
  let om := _initialize_output_model cfg s bb kl_penalties in
  let kl_penalties := om_kl_penalties om in
  let ll := map (fun dy => log_prob (fst dy) (snd dy)) (py_zip (out_dist om) (y bb)) in
  let loss_func := map Qcopp ll in
  filtered <- filter_losses cfg s bb loss_func ;;
  let loss_func := fst filtered in
  let likelihood_loss :=
    if scale_loss_with_data cfg then (reduce_sum loss_func * minibatch_scale cfg)%Qc
    else reduce_mean loss_func in
  let regs := regularize_layers regularizable_layers regs in
  reg <-
    (match regularizer_losses_varnames regs with
     | [] => Ok (0%Qc, likelihood_loss)
     | _ :: _ =>
         r <- tf_add_n (regularizer_losses regs) ;;
         let reg_loss := (0 + r)%Qc in
         Ok (reg_loss, (likelihood_loss + reg_loss)%Qc)
     end) ;;
  let '(reg_loss, total) := reg in
  let '(kl_loss, reg_loss, total) :=
    match kl_penalties with
    | [] => (0%Qc, reg_loss, total)
    | _ :: _ =>
        let kl_loss :=
          (0 + reduce_sum
                 (map (fun x => reduce_sum (data (kl_divergence (kl_q x) (kl_p x))))
                    kl_penalties))%Qc in
        (kl_loss, (reg_loss + kl_loss)%Qc, (total + kl_loss)%Qc)
    end in
  match optim_name cfg with
  | None => Raise AssertionError
  | Some _ =>
      Ok (mkObjective ll loss_func (snd filtered) likelihood_loss reg_loss kl_loss total
            kl_penalties regs)
  end.

(** ** The drivers *)

(** [run_train_step]: the fetches, then the dictionary built from the
    names and the last fetched values.  A fetch whose value is not
    modelled is [None]. *)
Definition run_train_step (cfg : config) (s : session) (bb : backbone)
    (kl_penalties : list kl_node) (regs : regularizers)
    (regularizable_layers : list layer) : result (list (string * option Qc)) :=
  obj <- initialize_objective cfg s bb kl_penalties regs regularizable_layers ;;
  let to_run_names : list string := [] in
  let to_run : list (option Qc) := [None; None; None] in
  let to_run :=
    if negb (n_layers_rnn cfg =? 0) then to_run ++ rnn_h_ema_ops bb ++ rnn_c_ema_ops bb
    else to_run in
  let to_run := if asymmetric_error cfg then to_run ++ [None; None] else to_run in
  run <-
    (if truthy (loss_filter_n_sds cfg) then
       match filter_stats obj with
       | Some f =>
           Ok (to_run_names ++ ["n_dropped"%string],
               to_run ++ [Some (loss_ema_op f); Some (loss_sd_ema_op f); Some (n_dropped f)])
       | None => Raise AttributeError
       end
     else Ok (to_run_names, to_run)) ;;
  let to_run_names := fst run ++ ["loss"%string; "reg_loss"%string] in
  let to_run := snd run ++ [Some (loss_func obj); Some (reg_loss obj)] in
  Ok (py_zip to_run_names (py_last (List.length to_run_names) to_run)).

(** [run_predict_op]: the fetched [self.out], de-standardized unless
    the caller asks for standardized units. *)
Definition run_predict_op (cfg : config) (s : session) (bb : backbone)
    (standardize_response_arg : bool) : list Qc :=
  let preds := out_after (_initialize_output_model cfg s bb []) in
  if (standardize_response cfg && negb standardize_response_arg)%bool
  then map (fun p => (p * y_train_sd cfg + y_train_mean cfg)%Qc) preds
  else preds.

End Network.


(** ** The shape shared by the builders

    The seven builders differ in a few places only.  The definitions
    below name those places; [build_ranef_eq] and [build_fixef_eq] show
    that each builder is the shared shape at them. *)

Definition kind_name (k : kind) : string :=
  match k with
  | Intercept => "intercept"
  | Coefficient => "coefficient"
  | RnnH _ => "rnn_h"
  | RnnC _ => "rnn_c"
  | HBias => "h_bias"
  | IrfL1WBias => "irf_l1_W_bias"
  | IrfL1bBias => "irf_l1_b_bias"
  end.

(** The local [units] of each builder ([initialize_intercept] has none). *)
Definition units_of (k : kind) (cfg : config) : result Z :=
  match k with
  | Intercept => Ok 1
  | Coefficient => Ok (Z.of_nat (List.length (impulse_names cfg)) + 1)
  | RnnH l | RnnC l => py_getitem (n_units_rnn cfg) l
  | HBias => Ok (n_units_hidden_state cfg)
  | IrfL1WBias | IrfL1bBias => Ok (n_units_t_delta_embedding cfg)
  end.

Definition ranef_shape (k : kind) (n u : Z) : list Z :=
  match k with
  | Intercept => [n]
  | _ => [n; u]
  end.

Definition fixef_shape (k : kind) (u : Z) : list Z :=
  match k with
  | Intercept => []
  | Coefficient | RnnH _ | RnnC _ => [1; u]
  | HBias | IrfL1WBias | IrfL1bBias => [1; 1; u]
  end.

Section BuilderShape.

Variables constraint_fn constraint_fn_inv sqrt_fn : Qc -> Qc.
Variable sn : string -> string.

(** The prior scale of the fixed-effect call of each kind, for the
    builder's [units]. *)
Definition kind_sd_prior (k : kind) (cfg : config) (u : Z) : result Qc :=
  match k with
  | Intercept => Ok (intercept_prior_sd_tf (_initialize_metadata cfg))
  | Coefficient | IrfL1WBias => resolve_sd_prior sqrt_fn (weight_prior_sd cfg) u
  | RnnH _ | RnnC _ | HBias | IrfL1bBias => resolve_sd_prior sqrt_fn (bias_prior_sd cfg) u
  end.

Definition fixef_prior_sd (k : kind) (cfg : config) : result Qc :=
  u <- units_of k cfg ;; kind_sd_prior k cfg u.

(** The argument of [constraint_fn_inv] in the random-effect call. *)
Definition ranef_seed (k : kind) (cfg : config) (sd : Qc) : Qc :=
  match k with
  | Intercept =>
      (intercept_ranef_posterior_sd_init (_initialize_metadata cfg)
       * ranef_to_fixef_prior_sd_ratio cfg)%Qc
  | _ => (sd * posterior_to_prior_sd_ratio cfg * ranef_to_fixef_prior_sd_ratio cfg)%Qc
  end.

(** The scale of the prior in the random-effect call. *)
Definition ranef_prior_sd (k : kind) (cfg : config) (sd : Qc) : Qc :=
  match k with
  | HBias => (sd * sd)%Qc
  | _ => (sd * ranef_to_fixef_prior_sd_ratio cfg)%Qc
  end.

Definition build_ranef (k : kind) (cfg : config) (s : session) (gf : string)
    (kl : list kl_node) : result (latent * list kl_node) :=
  u <- units_of k cfg ;;
  sd <- kind_sd_prior k cfg u ;;
  n <- ranef_n_levels cfg gf ;;
  zeros <- tf_zeros (ranef_shape k n u) ;;
  ones <- tf_ones (ranef_shape k n u) ;;
  Ok (posterior constraint_fn cfg s
        (tf_Variable s zeros (kind_name k ++ "_q_loc_by_" ++ sn gf))
        (tf_Variable s (tmul_scalar ones (constraint_fn_inv (ranef_seed k cfg sd)))
           (kind_name k ++ "_q_scale_by_" ++ sn gf))
        (kind_name k ++ "_q_by_" ++ sn gf)
        (declare_priors_ranef cfg)
        (Normal (scalar 0%Qc) (scalar (ranef_prior_sd k cfg sd))
           (kind_name k ++ "_by_" ++ sn gf))
        kl).

(** The initial value of the location and of the raw scale variable in
    the fixed-effect call. *)
Definition fixef_loc_init (k : kind) (cfg : config) (u : Z) : result tensor :=
  match k with
  | Intercept => Ok (scalar (intercept_init_tf (_initialize_metadata cfg)))
  | _ => tf_zeros (fixef_shape k u)
  end.

Definition fixef_scale_init (k : kind) (cfg : config) (u : Z) (sd : Qc) : result tensor :=
  match k with
  | Intercept =>
      Ok (scalar (constraint_fn_inv (intercept_posterior_sd_init (_initialize_metadata cfg))))
  | IrfL1WBias | IrfL1bBias =>
      zeros <- tf_zeros (fixef_shape k u) ;;
      Ok (tmul_scalar zeros (constraint_fn_inv (sd * posterior_to_prior_sd_ratio cfg)%Qc))
  | _ =>
      ones <- tf_ones (fixef_shape k u) ;;
      Ok (tmul_scalar ones (constraint_fn_inv (sd * posterior_to_prior_sd_ratio cfg)%Qc))
  end.

Definition fixef_prior_loc (k : kind) (cfg : config) : Qc :=
  match k with
  | Intercept => intercept_init_tf (_initialize_metadata cfg)
  | _ => 0%Qc
  end.

Definition build_fixef (k : kind) (cfg : config) (s : session)
    (kl : list kl_node) : result (latent * list kl_node) :=
  u <- units_of k cfg ;;
  sd <- kind_sd_prior k cfg u ;;
  loc0 <- fixef_loc_init k cfg u ;;
  scale0 <- fixef_scale_init k cfg u sd ;;
  Ok (posterior constraint_fn cfg s
        (tf_Variable s loc0 (kind_name k ++ "_q_loc"))
        (tf_Variable s scale0 (kind_name k ++ "_q_scale"))
        (kind_name k ++ "_q")
        (declare_priors_fixef cfg)
        (Normal (scalar (fixef_prior_loc k cfg)) (scalar sd) (kind_name k))
        kl).

(** The posterior scale a call starts from: the positivity constraint
    applied to the raw scale variable. *)
Definition constrained_scale (lat : latent) : tensor :=
  tmap constraint_fn (q_scale lat).

End BuilderShape.

(** ** Vocabulary of the properties *)


(** [pred_raw = pred_std * train_sd + train_mean]. *)
Definition destandardize (cfg : config) (pred_std : Qc) : Qc :=
  (pred_std * y_train_sd cfg + y_train_mean cfg)%Qc.

(** The batch mean of the per-example loss with no example left out,
    as the objective computes it before the warm-up has elapsed. *)
Definition unfiltered_loss_mean (cfg : config) (losses : list Qc) : Qc :=
  (reduce_sum losses / (of_int (Z.of_nat (List.length losses)) + epsilon cfg))%Qc.

(** The examples the outlier filter keeps and the number it drops. *)
Definition retained (cutoff : Qc) (losses : list Qc) : list Qc :=
  filter (fun l => Qcltb l cutoff) losses.

Definition dropped_count (cutoff : Qc) (losses : list Qc) : nat :=
  List.length (filter (fun l => negb (Qcltb l cutoff)) losses).

(** [d[key]] on the dictionary a driver returns. *)
Fixpoint dict_get {A : Type} (d : list (string * A)) (key : string) : option A :=
  match d with
  | [] => None
  | (k, v) :: d' => if String.eqb k key then Some v else dict_get d' key
  end.

(** The L-p penalty total the objective adds: the sum of the registered
    regularizer losses, nothing when none is registered. *)
Definition layer_penalty (regs : regularizers) : Qc :=
  match regularizer_losses_varnames regs with
  | [] => 0%Qc
  | _ :: _ => reduce_sum (regularizer_losses regs)
  end.

(** The total KL divergence of a penalty list. *)
Definition total_kl (kl_divergence : normal -> normal -> tensor)
    (kl_penalties : list kl_node) : Qc :=
  reduce_sum
    (map (fun x => reduce_sum (data (kl_divergence (kl_q x) (kl_p x)))) kl_penalties).

(** The negative log-likelihood term of a batch of per-example losses. *)
Definition nll_term (cfg : config) (losses : list Qc) : Qc :=
  if scale_loss_with_data cfg then (reduce_sum losses * minibatch_scale cfg)%Qc
  else reduce_mean losses.

(** The filter's division [2 / (1 - ema_decay)] is defined. *)
Definition warm_up_defined (cfg : config) : Prop :=
  (truthy (loss_filter_n_sds cfg) && truthy (ema_decay cfg))%bool = true ->
  ema_decay cfg <> Some 1%Qc.

(** [tf.add_n] is given at least one penalty whenever one is named. *)
Definition penalties_summable (regs : regularizers) : Prop :=
  regularizer_losses_varnames regs <> [] -> regularizer_losses regs <> [].

(** The posterior scale each call is meant to start from: the prior
    scale of the call times [posterior_to_prior_sd_ratio], the prior
    scale of a random-effect call being the fixed-effect one times
    [ranef_to_fixef_prior_sd_ratio]. *)
Definition nominal_seed (cfg : config) (ran_gf : option string) (sd : Qc) : Qc :=
  match ran_gf with
  | None => (sd * posterior_to_prior_sd_ratio cfg)%Qc
  | Some _ =>
      (sd * ranef_to_fixef_prior_sd_ratio cfg * posterior_to_prior_sd_ratio cfg)%Qc
  end.

(** The calls whose seed is the nominal one: all but the random-effect
    call of the intercept and the fixed-effect calls of the two IRF
    first-layer biases. *)
Definition seed_is_nominal (k : kind) (ran_gf : option string) : bool :=
  match ran_gf, k with
  | Some _, Intercept => false
  | None, IrfL1WBias => false
  | None, IrfL1bBias => false
  | _, _ => true
  end.

(** Decidable equality of lists of rationals and of tensors. *)
Fixpoint Qc_list_eqb (xs ys : list Qc) : bool :=
  match xs, ys with
  | [], [] => true
  | x :: xs', y :: ys' => (Qceqb x y && Qc_list_eqb xs' ys')%bool
  | _, _ => false
  end.

Definition tensor_eqb (t1 t2 : tensor) : bool :=
  (if list_eq_dec Z.eq_dec (shape t1) (shape t2) then true else false)
  && Qc_list_eqb (data t1) (data t2).

(** The per-example loss after the outlier filter: a dropped example
    counts as zero. *)
Definition zero_dropped (cutoff : Qc) (losses : list Qc) : list Qc :=
  map (fun l => if Qcltb l cutoff then l else 0%Qc) losses.

(** ** A concrete backend and model for the worked examples *)

Module Demo.

(** The ['abs'] constraint: absolute value, inverted by the identity. *)
Definition constraint_fn (x : Qc) : Qc := Qcabs x.
Definition constraint_fn_inv (x : Qc) : Qc := x.

(** A six-digit square root. *)
Definition sqrt_fn (x : Qc) : Qc :=
  qc (Z.sqrt (Qnum x * 1000000000000 / Zpos (Qden x))) 1000000.

(** Grouping-factor names that need no sanitizing. *)
Definition sn (name : string) : string := name.
Definition reg_name (name : string) : string := name.

(** [SinhArcsinh] at skewness 0 and tailweight 1, where it is
    [Normal(loc, scale)]; the examples use the Normal family only. *)
Definition sas_mean (l sc sk tw : Qc) : Qc := l.
Definition sas_sample (l sc sk tw z : Qc) : Qc := (l + sc * z)%Qc.

(** The Normal log-density without its normalising term, which is not
    rational: [-((y - loc) / scale)^2 / 2]. *)
Definition log_prob (d : dist1) (v : Qc) : Qc :=
  (- (((v - d_loc d) / d_scale d) ^ 2 / qc 2 1))%Qc.

(** The KL divergence between Normals without its logarithmic term:
    [(scale_q^2 + (loc_q - loc_p)^2) / (2 scale_p^2) - 1/2], the prior
    being scalar. *)
Definition kl_divergence (q p : normal) : tensor :=
  mkTensor (shape (loc q))
    (map (fun ls =>
            ((snd ls ^ 2 + (fst ls - item (loc p)) ^ 2) / (qc 2 1 * item (scale p) ^ 2)
             - qc 1 2)%Qc)
       (py_zip (data (loc q)) (data (scale q)))).

(** A regularizer that charges every variable a unit penalty. *)
Definition _regularize (regs : regularizers) (v : tf_var) (var_name : string)
    : regularizers :=
  mkRegularizers (regularizer_losses regs ++ [1%Qc])
    (regularizer_losses_varnames regs ++ [var_name]).

(** A model with one grouping factor of five levels, response mean 10
    and standard deviation 2, and the default ratios 0.01 and 0.1. *)
Definition cfg (trainable_y_sd : bool) (h_bias_sd : Qc) (n_sds decay : option Qc)
    (optim : option string) : config :=
  {| standardize_response := true;
     asymmetric_error := false;
     intercept_init := None;
     intercept_prior_sd := Some 1%Qc;
     y_sd_prior_sd := None;
     prior_sd_scaling_coefficient := 1%Qc;
     y_sd_prior_sd_scaling_coefficient := 1%Qc;
     y_skewness_prior_sd := 1%Qc;
     y_tailweight_prior_sd := 1%Qc;
     y_tailweight_prior_loc := 1%Qc;
     posterior_to_prior_sd_ratio := qc 1 100;
     ranef_to_fixef_prior_sd_ratio := qc 1 10;
     weight_prior_sd := PyNum 1%Qc;
     bias_prior_sd := PyNum h_bias_sd;
     declare_priors_fixef := true;
     declare_priors_ranef := true;
     loss_filter_n_sds := n_sds;
     ema_decay := decay;
     scale_loss_with_data := false;
     optim_name := optim;
     y_train_mean := qc 10 1;
     y_train_sd := qc 2 1;
     epsilon := qc 1 100000000;
     rangf := ["subject"%string];
     rangf_n_levels := [5];
     impulse_names := ["rate"%string; "surprisal"%string];
     n_layers_rnn := 1;
     n_units_rnn := [4];
     n_units_hidden_state := 4;
     n_units_t_delta_embedding := 4;
     y_sd_trainable := trainable_y_sd;
     y_sd_init := 1%Qc;
     y_sd_init_unconstrained := 1%Qc;
     minibatch_scale := 1%Qc |}.

(** The usual model: standardized response, unit prior scales, no
    outlier filter, the Adam optimizer. *)
Definition model : config := cfg true 1%Qc None None (Some "Adam"%string).

(** The same model with [bias_prior_sd = 2]. *)
Definition model_wide_bias : config := cfg true (qc 2 1) None None (Some "Adam"%string).

(** The same model with a fixed error scale and the outlier filter on:
    two standard deviations, decay 1/2 (a warm-up of four steps). *)
Definition model_filtered : config :=
  cfg false 1%Qc (Some (qc 2 1)) (Some (qc 1 2)) (Some "Adam"%string).

(** The usual model with a fixed error scale, which declares no prior
    in the output model. *)
Definition model_fixed_scale : config := cfg false 1%Qc None None (Some "Adam"%string).

(** The same model with no optimizer named. *)
Definition model_no_optimizer : config := cfg true 1%Qc None None None.

(** A session straight after construction, in prediction mode. *)
Definition fresh : session :=
  mkSession false None (fun _ => None) (fun _ _ => 0%Qc).

(** A session after some training: the loss statistics stand at mean 3
    and standard deviation 1. *)
Definition trained : session :=
  mkSession true None
    (fun name =>
       if String.eqb name "loss_ema" then Some (scalar (qc 3 1))
       else if String.eqb name "loss_sd_ema" then Some (scalar 1%Qc)
       else None)
    (fun _ _ => 0%Qc).

(** A batch of one example whose standardized prediction is 1. *)
Definition one_example : backbone :=
  mkBackbone [1%Qc] [qc 12 1] (fun _ => 0%Qc) 0%Qc (fun _ => 0%Qc) 0%Qc
    (fun _ => 0%Qc) 0%Qc 0 [] [].

(** A batch of three examples at step 10, the last one far from its
    prediction. *)
Definition three_examples : backbone :=
  mkBackbone [0%Qc; 0%Qc; 0%Qc] [qc 12 1; qc 12 1; qc 50 1]
    (fun _ => 0%Qc) 0%Qc (fun _ => 0%Qc) 0%Qc (fun _ => 0%Qc) 0%Qc 10 [] [].

Definition no_regularizers : regularizers := mkRegularizers [] [].

End Demo.

(** ** Saved-model metadata

    [_pack_metadata] and [_unpack_metadata] move the initialization
    keyword arguments between the attributes of [self] and the metadata
    dictionary [md].  Both dictionaries are association lists in
    insertion order; [V] is the type of attribute values, and the
    methods of the base class that run first are parameters. *)

Section Metadata.

Variable V : Type.

(** An entry of [CDRNNBAYES_INITIALIZATION_KWARGS]. *)
Record kwarg : Type := mkKwarg {
  key : string;
  default_value : V
}.

Definition dict : Type := list (string * V).

(** [d[k] = v]: the value of an existing key is replaced in place, a
    new key goes to the end. *)
Fixpoint dict_set (d : dict) (k : string) (v : V) : dict :=
  match d with
  | [] => [(k, v)]
  | (k', v') :: d' =>
      if String.eqb k' k then (k, v) :: d' else (k', v') :: dict_set d' k v
  end.

(** [del d[k]] when the key is there. *)
Definition dict_remove (d : dict) (k : string) : dict :=
  filter (fun kv => negb (String.eqb (fst kv) k)) d.

(** [d.pop(k, default)]: the value and the dictionary without the key. *)
Definition dict_pop (d : dict) (k : string) (default : V) : V * dict :=
  (match dict_get d k with Some v => v | None => default end, dict_remove d k).

(** [getattr(self, k)] and [setattr(self, k, v)] on the attributes of
    [self]. *)
Definition getattr (self : dict) (k : string) : result V :=
  match dict_get self k with
  | Some v => Ok v
  | None => Raise AttributeError
  end.

Definition setattr (self : dict) (k : string) (v : V) : dict := dict_set self k v.

(** [sorted(keys)]: insertion sort by code point. *)
Fixpoint insert_sorted (k : string) (ks : list string) : list string :=
  match ks with
  | [] => [k]
  | k' :: ks' => if String.leb k k' then k :: ks else k' :: insert_sorted k ks'
  end.

Definition sorted (ks : list string) : list string :=
  fold_right insert_sorted [] ks.

(** [_pack_metadata]: the dictionary of the base class, then one entry
    per keyword argument. *)
Definition _pack_metadata (super_pack_metadata : dict -> dict)
    (kwargs : list kwarg) (self : dict) : result dict :=
  fold_left
    (fun md kw =>
       md <- md ;;
       v <- getattr self (key kw) ;;
       Ok (dict_set md (key kw) v))
    kwargs (Ok (super_pack_metadata self)).

(** The loop of [_unpack_metadata], also the loop of [__init__] over
    its keyword arguments: each attribute is set to the popped entry or
    to the default. *)
Definition pop_kwargs (kwargs : list kwarg) (self md : dict) : dict * dict :=
  fold_left
    (fun sm kw =>
       let '(v, md') := dict_pop (snd sm) (key kw) (default_value kw) in
       (setattr (fst sm) (key kw) v, md'))
    kwargs (self, md).

(** [_unpack_metadata]: the base class first, then the loop, then the
    warning on what is left of [md].  The third component is what is
    written to [stderr]: the sorted keys named by each message. *)
Definition _unpack_metadata (super_unpack_metadata : dict -> dict -> dict * dict)
    (kwargs : list kwarg) (self md : dict) : dict * dict * list (list string) :=
  let '(self, md) := super_unpack_metadata self md in
  let '(self, md) := pop_kwargs kwargs self md in
  (self, md,
   if (0 <? List.length md)%nat then [sorted (map fst md)] else []).

End Metadata.

Arguments key {V} k.
Arguments default_value {V} k.
Arguments mkKwarg {V} key default_value.

(** ** The query drivers *)

Section Queries.

Variables constraint_fn constraint_fn_inv sqrt_fn : Qc -> Qc.
Variable sas_mean : Qc -> Qc -> Qc -> Qc -> Qc.
Variable sas_sample : Qc -> Qc -> Qc -> Qc -> Qc -> Qc.
Variable log_prob : dist1 -> Qc -> Qc.
Variable kl_divergence : normal -> normal -> tensor.
Variable reg_name : string -> string.
Variable _regularize : regularizers -> tf_var -> string -> regularizers.

(** [run_loglik_op]: the fetched [self.ll_standardized] when the model
    standardizes its response and the caller asks for standardized
    units, else the fetched [self.ll]. *)
Definition run_loglik_op (cfg : config) (s : session) (bb : backbone)
    (kl_penalties : list kl_node) (regs : regularizers)
    (regularizable_layers : list layer) (standardize_response_arg : bool)
    : result (list Qc) :=
  obj <- initialize_objective constraint_fn constraint_fn_inv sqrt_fn sas_mean
           sas_sample log_prob kl_divergence reg_name _regularize
           cfg s bb kl_penalties regs regularizable_layers ;;
  let om :=
    _initialize_output_model constraint_fn constraint_fn_inv sas_mean sas_sample
      log_prob cfg s bb kl_penalties in
  if (standardize_response cfg && standardize_response_arg)%bool then
    match ll_standardized om with
    | Some ll_std => Ok ll_std
    | None => Raise AttributeError
    end
  else Ok (ll obj).

(** [run_loss_op]: the fetched [self.loss_func]. *)
Definition run_loss_op (cfg : config) (s : session) (bb : backbone)
    (kl_penalties : list kl_node) (regs : regularizers)
    (regularizable_layers : list layer) : result Qc :=
  obj <- initialize_objective constraint_fn constraint_fn_inv sqrt_fn sas_mean
           sas_sample log_prob kl_divergence reg_name _regularize
           cfg s bb kl_penalties regs regularizable_layers ;;
  Ok (loss_func obj).

End Queries.

(** ** Vocabulary of the further properties *)

(** The variables of a list of regularizable layers, in order. *)
Definition layer_vars (layers : list layer) : list tf_var :=
  flat_map (fun l => match l with WithWeights ws => ws | Bare v => [v] end) layers.

(** [s] holds an occurrence of [sub]. *)
Definition occurs_in (sub s : string) : Prop :=
  exists pre post, s = (pre ++ sub ++ post)%string.

(** The prior toggle that governs a call: [declare_priors_fixef] for the
    fixed-effect call, [declare_priors_ranef] for a random-effect one. *)
Definition declares_prior (cfg : config) (ran_gf : option string) : bool :=
  match ran_gf with
  | None => declare_priors_fixef cfg
  | Some _ => declare_priors_ranef cfg
  end.


(** A zero-filled tensor of a given shape. *)
Definition zero_tensor (sh : list Z) : tensor :=
  mkTensor sh (repeat 0%Qc (Z.to_nat (numel sh))).

(** The configured prior scale a builder reads: [weight_prior_sd] or
    [bias_prior_sd]; [initialize_intercept] reads neither. *)
Definition kind_prior_spec (k : kind) (cfg : config) : option py_sd :=
  match k with
  | Intercept => None
  | Coefficient | IrfL1WBias => Some (weight_prior_sd cfg)
  | RnnH _ | RnnC _ | HBias | IrfL1bBias => Some (bias_prior_sd cfg)
  end.

(** What a heuristic computes from its fan count [n]:
    [math.sqrt(2 / n)]. *)
Definition heuristic_sd (sqrt_fn : Qc -> Qc) (n : Z) : result Qc :=
  match n ?= 0 with
  | Eq => Raise ZeroDivisionError
  | Lt => Raise ValueError
  | Gt => Ok (sqrt_fn (qc 2 1 / of_int n)%Qc)
  end.



(** ** Further examples *)

Module DemoMeta.

(** Two keyword arguments with rational values. *)
Definition kwargs : list (kwarg Qc) :=
  [mkKwarg "posterior_to_prior_sd_ratio"%string (qc 1 100);
   mkKwarg "ranef_to_fixef_prior_sd_ratio"%string (qc 1 10)].

(** A model whose two attributes were set away from the defaults. *)
Definition self : dict Qc :=
  [("posterior_to_prior_sd_ratio"%string, qc 1 50);
   ("ranef_to_fixef_prior_sd_ratio"%string, qc 1 5)].

(** A base class that packs nothing and unpacks nothing. *)
Definition super_pack_metadata (self : dict Qc) : dict Qc := [].
Definition super_unpack_metadata (self md : dict Qc) : dict Qc * dict Qc := (self, md).

(** Metadata saved by another version: one known key, one unknown. *)
Definition md_other_version : dict Qc :=
  [("posterior_to_prior_sd_ratio"%string, qc 1 50);
   ("legacy_option"%string, 1%Qc)].

(** The usual model with another [weight_prior_sd]. *)
Definition with_weight_prior_sd (w : py_sd) (cfg : config) : config :=
  {| standardize_response := standardize_response cfg;
     asymmetric_error := asymmetric_error cfg;
     intercept_init := intercept_init cfg;
     intercept_prior_sd := intercept_prior_sd cfg;
     y_sd_prior_sd := y_sd_prior_sd cfg;
     prior_sd_scaling_coefficient := prior_sd_scaling_coefficient cfg;
     y_sd_prior_sd_scaling_coefficient := y_sd_prior_sd_scaling_coefficient cfg;
     y_skewness_prior_sd := y_skewness_prior_sd cfg;
     y_tailweight_prior_sd := y_tailweight_prior_sd cfg;
     y_tailweight_prior_loc := y_tailweight_prior_loc cfg;
     posterior_to_prior_sd_ratio := posterior_to_prior_sd_ratio cfg;
     ranef_to_fixef_prior_sd_ratio := ranef_to_fixef_prior_sd_ratio cfg;
     weight_prior_sd := w;
     bias_prior_sd := bias_prior_sd cfg;
     declare_priors_fixef := declare_priors_fixef cfg;
     declare_priors_ranef := declare_priors_ranef cfg;
     loss_filter_n_sds := loss_filter_n_sds cfg;
     ema_decay := ema_decay cfg;
     scale_loss_with_data := scale_loss_with_data cfg;
     optim_name := optim_name cfg;
     y_train_mean := y_train_mean cfg;
     y_train_sd := y_train_sd cfg;
     epsilon := epsilon cfg;
     rangf := rangf cfg;
     rangf_n_levels := rangf_n_levels cfg;
     impulse_names := impulse_names cfg;
     n_layers_rnn := n_layers_rnn cfg;
     n_units_rnn := n_units_rnn cfg;
     n_units_hidden_state := n_units_hidden_state cfg;
     n_units_t_delta_embedding := n_units_t_delta_embedding cfg;
     y_sd_trainable := y_sd_trainable cfg;
     y_sd_init := y_sd_init cfg;
     y_sd_init_unconstrained := y_sd_init_unconstrained cfg;
     minibatch_scale := minibatch_scale cfg |}.

(** The usual model with another [standardize_response]. *)
Definition with_standardize_response (b : bool) (cfg : config) : config :=
  {| standardize_response := b;
     asymmetric_error := asymmetric_error cfg;
     intercept_init := intercept_init cfg;
     intercept_prior_sd := intercept_prior_sd cfg;
     y_sd_prior_sd := y_sd_prior_sd cfg;
     prior_sd_scaling_coefficient := prior_sd_scaling_coefficient cfg;
     y_sd_prior_sd_scaling_coefficient := y_sd_prior_sd_scaling_coefficient cfg;
     y_skewness_prior_sd := y_skewness_prior_sd cfg;
     y_tailweight_prior_sd := y_tailweight_prior_sd cfg;
     y_tailweight_prior_loc := y_tailweight_prior_loc cfg;
     posterior_to_prior_sd_ratio := posterior_to_prior_sd_ratio cfg;
     ranef_to_fixef_prior_sd_ratio := ranef_to_fixef_prior_sd_ratio cfg;
     weight_prior_sd := weight_prior_sd cfg;
     bias_prior_sd := bias_prior_sd cfg;
     declare_priors_fixef := declare_priors_fixef cfg;
     declare_priors_ranef := declare_priors_ranef cfg;
     loss_filter_n_sds := loss_filter_n_sds cfg;
     ema_decay := ema_decay cfg;
     scale_loss_with_data := scale_loss_with_data cfg;
     optim_name := optim_name cfg;
     y_train_mean := y_train_mean cfg;
     y_train_sd := y_train_sd cfg;
     epsilon := epsilon cfg;
     rangf := rangf cfg;
     rangf_n_levels := rangf_n_levels cfg;
     impulse_names := impulse_names cfg;
     n_layers_rnn := n_layers_rnn cfg;
     n_units_rnn := n_units_rnn cfg;
     n_units_hidden_state := n_units_hidden_state cfg;
     n_units_t_delta_embedding := n_units_t_delta_embedding cfg;
     y_sd_trainable := y_sd_trainable cfg;
     y_sd_init := y_sd_init cfg;
     y_sd_init_unconstrained := y_sd_init_unconstrained cfg;
     minibatch_scale := minibatch_scale cfg |}.

(** A model of the raw response, with a fixed error scale. *)
Definition model_raw : config := with_standardize_response false Demo.model_fixed_scale.

(** A misspelt heuristic name. *)
Definition model_misspelt : config := with_weight_prior_sd (PyStr "Xavie") Demo.model.

End DemoMeta.

(** * Properties *)

(** ** Generic facts about the Python and tensor helpers *)

Lemma bind_Ok_inv {A B : Type} (r : result A) (k : A -> result B) (b : B) :
  bind r k = Ok b -> exists a, r = Ok a /\ k a = Ok b.
Proof.
  destruct r as [a|e]; simpl; intros H; [exists a; auto | discriminate].
Qed.

Lemma py_list_index_not_In (xs : list string) (x : string) :
  ~ In x xs -> py_list_index xs x = Raise ValueError.
Proof.
  induction xs as [|y ys IH]; simpl; intros Hn; [reflexivity|].
  destruct (String.eqb_spec y x) as [->|Hne].
  - exfalso; apply Hn; now left.
  - rewrite IH; [reflexivity | intros Hin; apply Hn; now right].
Qed.

Lemma py_list_index_In (xs : list string) (x : string) :
  In x xs -> exists i, py_list_index xs x = Ok i /\ 0 <= i < Z.of_nat (List.length xs).
Proof.
  induction xs as [|y ys IH]; simpl; intros Hin; [contradiction|].
  destruct (String.eqb_spec y x) as [->|Hne].
  - exists 0; split; [reflexivity | lia].
  - destruct Hin as [->|Hin]; [congruence|].
    destruct (IH Hin) as (i & -> & Hi); simpl.
    exists (i + 1); split; [reflexivity | lia].
Qed.

Lemma ranef_n_levels_not_In (cfg : config) (gf : string) :
  ~ In gf (rangf cfg) -> ranef_n_levels cfg gf = Raise ValueError.
Proof.
  intros Hn; unfold ranef_n_levels; now rewrite py_list_index_not_In.
Qed.

Lemma tf_fill_Ok (sh : list Z) (v : Qc) :
  Forall (fun d => 0 <= d) sh ->
  tf_fill sh v = Ok (mkTensor sh (repeat v (Z.to_nat (numel sh)))).
Proof.
  intros H; unfold tf_fill.
  replace (existsb (fun d => d <? 0) sh) with false; [reflexivity|].
  symmetry; induction H as [|d sh Hd _ IH]; simpl; [reflexivity|].
  rewrite IH, orb_false_r; lia.
Qed.

Lemma tf_fill_inv (sh : list Z) (v : Qc) (t : tensor) :
  tf_fill sh v = Ok t -> t = mkTensor sh (repeat v (Z.to_nat (numel sh))).
Proof.
  unfold tf_fill; destruct (existsb _ sh); [discriminate|].
  now intros [= <-].
Qed.

Lemma tf_Variable_at_construction (s : session) (t : tensor) (name : string) :
  at_construction s -> tf_Variable s t name = t.
Proof. intros H; unfold tf_Variable; now rewrite H. Qed.

Lemma map_repeat {A B : Type} (f : A -> B) (a : A) (n : nat) :
  map f (repeat a n) = repeat (f a) n.
Proof. induction n as [|n IH]; simpl; [reflexivity | now rewrite IH]. Qed.

(** Splits on the first fallible step of a chain of [bind]s. *)
Ltac step_bind :=
  match goal with
  | |- context [bind ?r _] =>
      let E := fresh "E" in destruct r eqn:E; simpl
  | H : context [bind ?r _] |- _ =>
      let E := fresh "E" in destruct r eqn:E; simpl in H
  end.

(** ** The builders have the shared shape *)

Section BuilderFacts.

Variables constraint_fn constraint_fn_inv sqrt_fn : Qc -> Qc.
Variable sn : string -> string.

Let build := build constraint_fn constraint_fn_inv sqrt_fn sn.

Lemma build_ranef_eq (k : kind) (cfg : config) (s : session) (gf : string)
    (kl : list kl_node) :
  build k cfg s (Some gf) kl
  = build_ranef constraint_fn constraint_fn_inv sqrt_fn sn k cfg s gf kl.
Proof. destruct k; reflexivity. Qed.

Lemma build_fixef_eq (k : kind) (cfg : config) (s : session) (kl : list kl_node) :
  build k cfg s None kl
  = build_fixef constraint_fn constraint_fn_inv sqrt_fn k cfg s kl.
Proof.
  subst build.
  destruct k; try reflexivity;
    unfold build_fixef; simpl;
    unfold initialize_coefficient, initialize_rnn_h, initialize_rnn_c,
      initialize_h_bias, initialize_irf_l1_W_bias, initialize_irf_l1_b_bias;
    repeat (step_bind; try reflexivity).
Qed.

Lemma posterior_fields (cfg : config) (s : session) (l sc : tensor) (name : string)
    (declare : bool) (prior : normal) (kl : list kl_node) :
  let lat := fst (posterior constraint_fn cfg s l sc name declare prior kl) in
  q_loc lat = l /\ q_scale lat = sc
  /\ q_dist lat = Normal l (tadd_scalar (tmap constraint_fn sc) (epsilon cfg)) name
  /\ summary lat = l
  /\ value lat = tf_cond (use_MAP_mode s) l (sample (noise s) (q_dist lat))
  /\ prior_dist lat = (if declare then Some prior else None).
Proof.
  unfold posterior; destruct declare; simpl; repeat split.
Qed.

Lemma build_ranef_inv (k : kind) (cfg : config) (s : session) (gf : string)
    (kl : list kl_node) (r : latent * list kl_node) :
  build k cfg s (Some gf) kl = Ok r ->
  exists u sd n zeros ones,
    units_of k cfg = Ok u /\ kind_sd_prior sqrt_fn k cfg u = Ok sd
    /\ ranef_n_levels cfg gf = Ok n
    /\ tf_zeros (ranef_shape k n u) = Ok zeros
    /\ tf_ones (ranef_shape k n u) = Ok ones
    /\ r = posterior constraint_fn cfg s
             (tf_Variable s zeros (kind_name k ++ "_q_loc_by_" ++ sn gf))
             (tf_Variable s
                (tmul_scalar ones (constraint_fn_inv (ranef_seed k cfg sd)))
                (kind_name k ++ "_q_scale_by_" ++ sn gf))
             (kind_name k ++ "_q_by_" ++ sn gf)
             (declare_priors_ranef cfg)
             (Normal (scalar 0%Qc) (scalar (ranef_prior_sd k cfg sd))
                (kind_name k ++ "_by_" ++ sn gf))
             kl.
Proof.
  rewrite build_ranef_eq; unfold build_ranef; intros H.
  apply bind_Ok_inv in H as (u & Hu & H).
  apply bind_Ok_inv in H as (sd & Hsd & H).
  apply bind_Ok_inv in H as (n & Hn & H).
  apply bind_Ok_inv in H as (zeros & Hz & H).
  apply bind_Ok_inv in H as (ones & Ho & H).
  injection H as <-.
  exists u, sd, n, zeros, ones; repeat split; assumption.
Qed.

Lemma build_fixef_inv (k : kind) (cfg : config) (s : session)
    (kl : list kl_node) (r : latent * list kl_node) :
  build k cfg s None kl = Ok r ->
  exists u sd loc0 scale0,
    units_of k cfg = Ok u /\ kind_sd_prior sqrt_fn k cfg u = Ok sd
    /\ fixef_loc_init k cfg u = Ok loc0
    /\ fixef_scale_init constraint_fn_inv k cfg u sd = Ok scale0
    /\ r = posterior constraint_fn cfg s
             (tf_Variable s loc0 (kind_name k ++ "_q_loc"))
             (tf_Variable s scale0 (kind_name k ++ "_q_scale"))
             (kind_name k ++ "_q")
             (declare_priors_fixef cfg)
             (Normal (scalar (fixef_prior_loc k cfg)) (scalar sd) (kind_name k))
             kl.
Proof.
  rewrite build_fixef_eq; unfold build_fixef; intros H.
  apply bind_Ok_inv in H as (u & Hu & H).
  apply bind_Ok_inv in H as (sd & Hsd & H).
  apply bind_Ok_inv in H as (l0 & Hl & H).
  apply bind_Ok_inv in H as (s0 & Hs & H).
  injection H as <-.
  exists u, sd, l0, s0; repeat split; assumption.
Qed.


(** The prior that the fixed-effect call declares has the scale that
    [fixef_prior_sd] names. *)
Lemma fixef_prior_scale (k : kind) (cfg : config) (s : session)
    (kl kl' : list kl_node) (lat : latent) :
  build k cfg s None kl = Ok (lat, kl') ->
  declare_priors_fixef cfg = true ->
  exists p sd,
    prior_dist lat = Some p /\ fixef_prior_sd sqrt_fn k cfg = Ok sd
    /\ scale p = scalar sd.
Proof.
  intros H Hd.
  apply build_fixef_inv in H as (u & sd & l0 & s0 & Hu & Hsd & _ & _ & Hr).
  pose proof (posterior_fields cfg s
                (tf_Variable s l0 (kind_name k ++ "_q_loc"))
                (tf_Variable s s0 (kind_name k ++ "_q_scale"))
                (kind_name k ++ "_q") (declare_priors_fixef cfg)
                (Normal (scalar (fixef_prior_loc k cfg)) (scalar sd) (kind_name k)) kl)
    as (_ & _ & _ & _ & _ & Hp).
  rewrite <- Hr, Hd in Hp; simpl in Hp.
  eexists _, sd; split; [exact Hp|]; split; [|reflexivity].
  unfold fixef_prior_sd; rewrite Hu; exact Hsd.
Qed.

End BuilderFacts.

(** ** Unknown grouping factors are rejected *)

(** C9.  A random-effect call of any builder for a grouping factor that
    is not in [self.rangf] raises: it never returns a parameter.  When
    the builder gets as far as the lookup (its prior scale resolves),
    the exception is the [ValueError] of [list.index].  The same holds
    for the pair returned by [initialize_irf_l1_biases]. *)
Theorem unknown_grouping_factor_rejected
    (constraint_fn constraint_fn_inv sqrt_fn : Qc -> Qc) (sn : string -> string)
    (k : kind) (cfg : config) (s : session) (gf : string) (kl : list kl_node) :
  ~ In gf (rangf cfg) ->
  (exists e, build constraint_fn constraint_fn_inv sqrt_fn sn k cfg s (Some gf) kl = Raise e)
  /\ (forall sd, fixef_prior_sd sqrt_fn k cfg = Ok sd ->
      build constraint_fn constraint_fn_inv sqrt_fn sn k cfg s (Some gf) kl
      = Raise ValueError)
  /\ (exists e, initialize_irf_l1_biases constraint_fn constraint_fn_inv sqrt_fn sn
                  cfg s (Some gf) kl = Raise e).
Proof.
  intros Hn. pose proof (ranef_n_levels_not_In cfg gf Hn) as Hr.
  assert (Hb : forall k',
             build constraint_fn constraint_fn_inv sqrt_fn sn k' cfg s (Some gf) kl
             = (u <- units_of k' cfg ;; sd <- kind_sd_prior sqrt_fn k' cfg u ;;
                Raise ValueError)).
  { intros k'. rewrite build_ranef_eq; unfold build_ranef.
    destruct (units_of k' cfg) as [u|e]; simpl; [|reflexivity].
    destruct (kind_sd_prior sqrt_fn k' cfg u) as [sd|e]; simpl; [|reflexivity].
    now rewrite Hr. }
  split; [|split].
  - rewrite Hb. destruct (units_of k cfg) as [u|e]; simpl; [|eauto].
    destruct (kind_sd_prior sqrt_fn k cfg u) as [sd|e]; simpl; eauto.
  - intros sd Hsd. rewrite Hb. unfold fixef_prior_sd in Hsd.
    destruct (units_of k cfg) as [u|e]; simpl in *; [|discriminate].
    now rewrite Hsd.
  - unfold initialize_irf_l1_biases.
    change (initialize_irf_l1_W_bias constraint_fn constraint_fn_inv sqrt_fn sn
              cfg s (Some gf) kl)
      with (build constraint_fn constraint_fn_inv sqrt_fn sn IrfL1WBias cfg s (Some gf) kl).
    rewrite Hb; simpl.
    destruct (resolve_sd_prior sqrt_fn (weight_prior_sd cfg)
                (n_units_t_delta_embedding cfg)); simpl; eauto.
Qed.

Lemma unknown_grouping_factor_rejected_witness :
  build Demo.constraint_fn Demo.constraint_fn_inv Demo.sqrt_fn Demo.sn
    Coefficient Demo.model Demo.fresh (Some "item"%string) [] = Raise ValueError.
Proof.
  refine (proj1 (proj2 (unknown_grouping_factor_rejected
            Demo.constraint_fn Demo.constraint_fn_inv Demo.sqrt_fn Demo.sn
            Coefficient Demo.model Demo.fresh "item" [] _)) 1%Qc _).
  - simpl; intros [H|[]]; discriminate H.
  - reflexivity.
Defined.

(** ** Shapes of the random-effect parameters *)

Lemma ranef_shape_nonneg (k : kind) (n u : Z) :
  0 <= n -> 0 <= u -> Forall (fun d => 0 <= d) (ranef_shape k n u).
Proof. intros; destruct k; simpl; repeat constructor; assumption. Qed.

Lemma ranef_shape_leading (k : kind) (n u : Z) : hd_error (ranef_shape k n u) = Some n.
Proof. destruct k; reflexivity. Qed.

(** C6.  In a random-effect call for a registered grouping factor with
    [levels] levels, every tensor the builder constructs (posterior
    location and raw scale variables, the scale of the posterior, the
    returned value and summary) has leading dimension [levels - 1]; and
    the call does construct them whenever [levels >= 1], the units are
    non-negative and the prior scale resolves. *)
Theorem ranef_leading_dimension
    (constraint_fn constraint_fn_inv sqrt_fn : Qc -> Qc) (sn : string -> string)
    (k : kind) (cfg : config) (s : session) (gf : string) (kl : list kl_node)
    (i levels : Z) :
  at_construction s ->
  py_list_index (rangf cfg) gf = Ok i ->
  py_getitem (rangf_n_levels cfg) i = Ok levels ->
  (forall lat kl',
      build constraint_fn constraint_fn_inv sqrt_fn sn k cfg s (Some gf) kl = Ok (lat, kl') ->
      leading_dim (q_loc lat) = Some (levels - 1)
      /\ leading_dim (q_scale lat) = Some (levels - 1)
      /\ leading_dim (loc (q_dist lat)) = Some (levels - 1)
      /\ leading_dim (scale (q_dist lat)) = Some (levels - 1)
      /\ leading_dim (value lat) = Some (levels - 1)
      /\ leading_dim (summary lat) = Some (levels - 1))
  /\ (forall u sd,
         1 <= levels -> units_of k cfg = Ok u -> 0 <= u ->
         kind_sd_prior sqrt_fn k cfg u = Ok sd ->
         exists lat kl',
           build constraint_fn constraint_fn_inv sqrt_fn sn k cfg s (Some gf) kl
           = Ok (lat, kl')).
Proof.
  intros Hs Hi Hlev.
  assert (Hn : ranef_n_levels cfg gf = Ok (levels - 1)).
  { unfold ranef_n_levels; rewrite Hi; simpl; rewrite Hlev; reflexivity. }
  split.
  - intros lat kl' H.
    apply build_ranef_inv in H as (u & sd & n & z & o & _ & _ & Hn' & Hz & Ho & Hr).
    rewrite Hn in Hn'; injection Hn' as <-.
    apply tf_fill_inv in Hz, Ho.
    rewrite !tf_Variable_at_construction in Hr by assumption.
    match type of Hr with _ = posterior ?c ?cfg ?s ?l ?sc ?nm ?d ?p ?kl =>
      pose proof (posterior_fields c cfg s l sc nm d p kl) as (F1 & F2 & F3 & F4 & F5 & _)
    end.
    rewrite <- Hr in F1, F2, F3, F4, F5; simpl in F1, F2, F3, F4, F5.
    rewrite F5, F3, F1, F2, F4; subst z o; unfold leading_dim, tf_cond; simpl.
    rewrite ranef_shape_leading.
    destruct (use_MAP_mode s); simpl; rewrite ?ranef_shape_leading; repeat split.
  - intros u sd Hl Hu Hu0 Hsd.
    rewrite build_ranef_eq; unfold build_ranef.
    rewrite Hu; simpl; rewrite Hsd; simpl; rewrite Hn; simpl.
    unfold tf_zeros, tf_ones.
    rewrite !tf_fill_Ok by (apply ranef_shape_nonneg; lia); simpl.
    match goal with |- exists lat kl', Ok ?p = _ => exists (fst p), (snd p) end.
    now rewrite <- surjective_pairing.
Qed.

Lemma ranef_leading_dimension_witness :
  exists lat kl',
    build Demo.constraint_fn Demo.constraint_fn_inv Demo.sqrt_fn Demo.sn
      Coefficient Demo.model Demo.fresh (Some "subject"%string) [] = Ok (lat, kl')
    /\ leading_dim (value lat) = Some 4.
Proof.
  pose proof (ranef_leading_dimension
                Demo.constraint_fn Demo.constraint_fn_inv Demo.sqrt_fn Demo.sn
                Coefficient Demo.model Demo.fresh "subject" [] 0 5
                (fun _ => eq_refl) eq_refl eq_refl) as [Hdim Hex].
  destruct (Hex 3 1%Qc ltac:(lia) eq_refl ltac:(lia) eq_refl) as (lat & kl' & Hb).
  exists lat, kl'; split; [exact Hb|].
  exact (proj1 (proj2 (proj2 (proj2 (proj2 (Hdim lat kl' Hb)))))).
Defined.

(** ** Prior scale of the random-effect calls *)

Section RanefPrior.

Variables constraint_fn constraint_fn_inv sqrt_fn : Qc -> Qc.
Variable sn : string -> string.

Let build := build constraint_fn constraint_fn_inv sqrt_fn sn.

(** The prior a random-effect call declares has scale [ranef_prior_sd]
    at the fixed-effect prior scale of its kind. *)
Lemma ranef_prior_scale (k : kind) (cfg : config) (s : session) (gf : string)
    (kl kl' : list kl_node) (lat : latent) :
  build k cfg s (Some gf) kl = Ok (lat, kl') ->
  declare_priors_ranef cfg = true ->
  exists p sd,
    prior_dist lat = Some p /\ fixef_prior_sd sqrt_fn k cfg = Ok sd
    /\ scale p = scalar (ranef_prior_sd k cfg sd).
Proof.
  intros H Hd.
  apply build_ranef_inv in H as (u & sd & n & z & o & Hu & Hsd & _ & _ & _ & Hr).
  match type of Hr with _ = posterior ?c ?cfg ?s ?l ?sc ?nm ?d ?p ?kl =>
    pose proof (posterior_fields c cfg s l sc nm d p kl) as (_ & _ & _ & _ & _ & Hp)
  end.
  rewrite <- Hr, Hd in Hp; simpl in Hp.
  eexists _, sd; split; [exact Hp|]; split; [|reflexivity].
  unfold fixef_prior_sd; rewrite Hu; exact Hsd.
Qed.

(** For every kind but the hidden-state bias that scale is the
    fixed-effect prior scale times [ranef_to_fixef_prior_sd_ratio]. *)
Lemma ranef_prior_scale_ratio (k : kind) (cfg : config) (s : session) (gf : string)
    (kl kl' : list kl_node) (lat : latent) :
  k <> HBias ->
  build k cfg s (Some gf) kl = Ok (lat, kl') ->
  declare_priors_ranef cfg = true ->
  exists p sd,
    prior_dist lat = Some p /\ fixef_prior_sd sqrt_fn k cfg = Ok sd
    /\ scale p = scalar (sd * ranef_to_fixef_prior_sd_ratio cfg)%Qc.
Proof.
  intros Hk H Hd.
  destruct (ranef_prior_scale k cfg s gf kl kl' lat H Hd) as (p & sd & Hp & Hsd & Hs).
  exists p, sd; repeat split; try assumption.
  rewrite Hs; destruct k; try reflexivity; congruence.
Qed.

(** The hidden-state bias squares the fixed-effect prior scale. *)
Lemma h_bias_ranef_prior_scale_squared (cfg : config) (s : session) (gf : string)
    (kl kl' : list kl_node) (lat : latent) :
  build HBias cfg s (Some gf) kl = Ok (lat, kl') ->
  declare_priors_ranef cfg = true ->
  exists p sd,
    prior_dist lat = Some p /\ fixef_prior_sd sqrt_fn HBias cfg = Ok sd
    /\ scale p = scalar (sd * sd)%Qc.
Proof. intros H Hd; exact (ranef_prior_scale HBias cfg s gf kl kl' lat H Hd). Qed.

End RanefPrior.

Lemma Qceqb_eq (x y : Qc) : Qceqb x y = true -> x = y.
Proof.
  unfold Qceqb; intros H; apply Qceq_alt.
  destruct (x ?= y)%Qc; [reflexivity | discriminate | discriminate].
Qed.

Lemma Qc_list_eqb_eq (xs ys : list Qc) : Qc_list_eqb xs ys = true -> xs = ys.
Proof.
  revert ys; induction xs as [|x xs IH]; intros [|y ys]; simpl;
    try discriminate; [reflexivity|].
  intros H; apply andb_true_iff in H as [Hx Hxs].
  f_equal; [now apply Qceqb_eq | now apply IH].
Qed.

Lemma tensor_eqb_eq (t1 t2 : tensor) : tensor_eqb t1 t2 = true -> t1 = t2.
Proof.
  destruct t1 as [s1 d1], t2 as [s2 d2]; unfold tensor_eqb; simpl.
  destruct (list_eq_dec Z.eq_dec s1 s2) as [->|]; simpl; [|discriminate].
  intros H; f_equal; now apply Qc_list_eqb_eq.
Qed.

(** Decides an equation between closed rationals, lists of rationals or
    tensors, by computation. *)
Ltac qc_compute :=
  match goal with
  | |- @eq Qc _ _ => apply Qceqb_eq; vm_compute; reflexivity
  | |- @eq tensor _ _ => apply tensor_eqb_eq; vm_compute; reflexivity
  | |- @eq (list Qc) _ _ => apply Qc_list_eqb_eq; vm_compute; reflexivity
  | |- @eq (result Qc) _ _ =>
      vm_compute; apply f_equal; apply Qceqb_eq; vm_compute; reflexivity
  end.

(** Refutes an equation [H] between two different closed rationals. *)
Ltac qc_differ H :=
  apply (f_equal this) in H; vm_compute in H; discriminate H.

(** C4, at the failing input.  With [bias_prior_sd = 2] and
    [ranef_to_fixef_prior_sd_ratio = 0.1] the random-effect call of
    [initialize_h_bias] declares a prior of scale [2 * 2 = 4], where the
    fixed-effect prior scale times the ratio is [0.2]. *)
Theorem h_bias_ranef_prior_scale_example :
  exists lat kl' p,
    initialize_h_bias Demo.constraint_fn Demo.constraint_fn_inv Demo.sqrt_fn Demo.sn
      Demo.model_wide_bias Demo.fresh (Some "subject"%string) [] = Ok (lat, kl')
    /\ prior_dist lat = Some p
    /\ scale p = scalar (qc 4 1)
    /\ fixef_prior_sd Demo.sqrt_fn HBias Demo.model_wide_bias = Ok (qc 2 1)
    /\ (qc 2 1 * ranef_to_fixef_prior_sd_ratio Demo.model_wide_bias)%Qc = qc 1 5
    /\ item (scale p) <> qc 1 5.
Proof.
  do 3 eexists; split; [reflexivity|]; split; [reflexivity|].
  split; [|split; [|split]].
  - qc_compute.
  - qc_compute.
  - qc_compute.
  - intros H; qc_differ H.
Qed.

(** ** Seed of the posterior scale *)

Section ScaleSeed.

Variables constraint_fn constraint_fn_inv sqrt_fn : Qc -> Qc.
Variable sn : string -> string.

Let build := build constraint_fn constraint_fn_inv sqrt_fn sn.

(** On the positive numbers the constraint undoes its inverse. *)
Hypothesis constraint_fn_inv_right :
  forall x, (0 < x)%Qc -> constraint_fn (constraint_fn_inv x) = x.

Lemma Forall_repeat {A : Type} (P : A -> Prop) (a : A) (n : nat) :
  P a -> Forall P (repeat a n).
Proof. intros H; induction n; simpl; constructor; assumption. Qed.

(** In every call but the three of [seed_is_nominal], each entry of the
    constrained posterior scale at construction is the prior scale of
    the call times [posterior_to_prior_sd_ratio]. *)
Lemma posterior_scale_seed (k : kind) (cfg : config) (s : session)
    (ran_gf : option string) (kl kl' : list kl_node) (lat : latent) (sd : Qc) :
  at_construction s ->
  seed_is_nominal k ran_gf = true ->
  build k cfg s ran_gf kl = Ok (lat, kl') ->
  fixef_prior_sd sqrt_fn k cfg = Ok sd ->
  (0 < nominal_seed cfg ran_gf sd)%Qc ->
  Forall (fun x => x = nominal_seed cfg ran_gf sd)
    (data (constrained_scale constraint_fn lat)).
Proof.
  intros Hs Hk H Hsd Hpos. unfold fixef_prior_sd in Hsd.
  destruct ran_gf as [gf|].
  - apply build_ranef_inv in H as (u & sd' & n & z & o & Hu & Hsd' & _ & _ & Ho & Hr).
    rewrite Hu in Hsd; simpl in Hsd; rewrite Hsd in Hsd'; injection Hsd' as <-.
    apply tf_fill_inv in Ho.
    rewrite !tf_Variable_at_construction in Hr by assumption.
    match type of Hr with _ = posterior ?c ?cfg ?s ?l ?sc ?nm ?d ?p ?kl =>
      pose proof (posterior_fields c cfg s l sc nm d p kl) as (_ & F2 & _)
    end.
    rewrite <- Hr in F2; simpl in F2.
    unfold constrained_scale; rewrite F2; subst o; simpl.
    rewrite !map_repeat. apply Forall_repeat.
    rewrite Qcmult_1_l.
    assert (Hseed : ranef_seed k cfg sd = nominal_seed cfg (Some gf) sd).
    { destruct k; simpl in *; try discriminate; ring. }
    rewrite Hseed; apply constraint_fn_inv_right; exact Hpos.
  - apply build_fixef_inv in H as (u & sd' & l0 & s0 & Hu & Hsd' & _ & Hsc & Hr).
    rewrite Hu in Hsd; simpl in Hsd; rewrite Hsd in Hsd'; injection Hsd' as <-.
    rewrite !tf_Variable_at_construction in Hr by assumption.
    match type of Hr with _ = posterior ?c ?cfg ?s ?l ?sc ?nm ?d ?p ?kl =>
      pose proof (posterior_fields c cfg s l sc nm d p kl) as (_ & F2 & _)
    end.
    rewrite <- Hr in F2; simpl in F2.
    unfold constrained_scale; rewrite F2.
    destruct k; simpl in Hk, Hsc, Hsd; try discriminate;
      try (apply bind_Ok_inv in Hsc as (o & Ho & Hsc); apply tf_fill_inv in Ho;
           injection Hsc as <-; subst o; simpl;
           rewrite !map_repeat; apply Forall_repeat;
           rewrite Qcmult_1_l; apply constraint_fn_inv_right; exact Hpos).
    injection Hsc as <-; injection Hsd as <-; simpl.
    constructor; [|constructor].
    apply constraint_fn_inv_right; exact Hpos.
Qed.

End ScaleSeed.

(** C3, at the failing inputs.  With [intercept_prior_sd = 1],
    [weight_prior_sd = 1] and the ratios 0.01 and 0.1:
    - the random-effect call of [initialize_intercept] declares a prior
      of scale 0.1 and starts the posterior scale at 0.0001, not at
      [0.1 * 0.01 = 0.001]: the ratio 0.1 enters twice;
    - the fixed-effect call of [initialize_irf_l1_biases] starts both
      raw scales at [tf.zeros * ...], so both constrained scales are
      [constraint_fn 0 = 0], not [1 * 0.01]. *)
Theorem posterior_scale_seed_examples :
  (exists lat kl' p,
      initialize_intercept Demo.constraint_fn Demo.constraint_fn_inv Demo.sn
        Demo.model Demo.fresh (Some "subject"%string) [] = Ok (lat, kl')
      /\ prior_dist lat = Some p /\ scale p = scalar (qc 1 10)
      /\ constrained_scale Demo.constraint_fn lat = mkTensor [4] (repeat (qc 1 10000) 4)
      /\ nominal_seed Demo.model (Some "subject"%string) 1%Qc = qc 1 1000)
  /\ (exists W b kl' p,
         initialize_irf_l1_biases Demo.constraint_fn Demo.constraint_fn_inv Demo.sqrt_fn
           Demo.sn Demo.model Demo.fresh None [] = Ok (W, b, kl')
         /\ prior_dist W = Some p /\ scale p = scalar 1%Qc
         /\ constrained_scale Demo.constraint_fn W = mkTensor [1; 1; 4] (repeat 0%Qc 4)
         /\ constrained_scale Demo.constraint_fn b = mkTensor [1; 1; 4] (repeat 0%Qc 4)
         /\ nominal_seed Demo.model None 1%Qc = qc 1 100).
Proof.
  split.
  - do 3 eexists; split; [reflexivity|]; split; [reflexivity|].
    split; [|split].
    + qc_compute.
    + qc_compute.
    + qc_compute.
  - do 4 eexists; split; [reflexivity|]; split; [reflexivity|].
    split; [|split; [|split]].
    + qc_compute.
    + qc_compute.
    + qc_compute.
    + qc_compute.
Qed.

(** ** Summaries *)

Section Summaries.

Variables constraint_fn constraint_fn_inv sqrt_fn : Qc -> Qc.
Variable sn : string -> string.
Variable sas_mean : Qc -> Qc -> Qc -> Qc -> Qc.
Variable sas_sample : Qc -> Qc -> Qc -> Qc -> Qc -> Qc.
Variable log_prob : dist1 -> Qc -> Qc.

Let build := build constraint_fn constraint_fn_inv sqrt_fn sn.
Let output_model_of :=
  _initialize_output_model constraint_fn constraint_fn_inv sas_mean sas_sample log_prob.




End Summaries.




(** ** Predictions *)

Section Predictions.

Variables constraint_fn constraint_fn_inv : Qc -> Qc.
Variable sas_mean : Qc -> Qc -> Qc -> Qc -> Qc.
Variable sas_sample : Qc -> Qc -> Qc -> Qc -> Qc -> Qc.
Variable log_prob : dist1 -> Qc -> Qc.

Let predict :=
  run_predict_op constraint_fn constraint_fn_inv sas_mean sas_sample log_prob.
Let output_model_of :=
  _initialize_output_model constraint_fn constraint_fn_inv sas_mean sas_sample log_prob.

Lemma map_mean_mapi_normal (g : Qc -> Qc) (sc : nat -> Qc -> Qc) (xs : list Qc) (i : nat) :
  map (dist1_mean sas_mean) (mapi_from (fun j o => Dist1 (g o) (sc j o) None) i xs)
  = map g xs.
Proof.
  revert i; induction xs as [|x xs IH]; intros i; simpl; [reflexivity|].
  now rewrite IH.
Qed.

(** With the Normal family and in MAP mode, [self.out] of a model with
    a standardized response is already in raw units, so the driver
    returns the standardized prediction de-standardized twice by
    default and once when standardized units are asked for. *)
Lemma run_predict_op_MAP_normal (cfg : config) (s : session) (bb : backbone) :
  standardize_response cfg = true ->
  asymmetric_error cfg = false ->
  use_MAP_mode s = true ->
  out_standardized (output_model_of cfg s bb []) = Some (out bb)
  /\ predict cfg s bb false
     = map (fun o => destandardize cfg (destandardize cfg o)) (out bb)
  /\ predict cfg s bb true = map (destandardize cfg) (out bb).
Proof.
  intros Hstd Hasym Hmap.
  subst predict output_model_of.
  unfold run_predict_op, _initialize_output_model, select_batch, mapi, tf_cond; simpl.
  rewrite Hstd, Hasym, Hmap; simpl.
  rewrite (map_mean_mapi_normal (fun o => o)), map_id.
  rewrite (map_mean_mapi_normal
             (fun o => (o * y_train_sd cfg + y_train_mean cfg)%Qc)).
  rewrite map_map. repeat split.
Qed.

End Predictions.

(** C5, at the failing input.  The example model is trained with a
    standardized response (mean 10, standard deviation 2) and predicts
    1 in standardized units, that is [1 * 2 + 10 = 12] in raw units.
    [run_predict_op] returns [12 * 2 + 10 = 34] by default, and 12 (not
    1) when the caller passes [standardize_response=True]. *)
Theorem run_predict_op_example :
  let om :=
    _initialize_output_model Demo.constraint_fn Demo.constraint_fn_inv Demo.sas_mean
      Demo.sas_sample Demo.log_prob Demo.model Demo.fresh Demo.one_example [] in
  standardize_response Demo.model = true
  /\ out_standardized om = Some [1%Qc]
  /\ map (destandardize Demo.model) [1%Qc] = [qc 12 1]
  /\ run_predict_op Demo.constraint_fn Demo.constraint_fn_inv Demo.sas_mean
       Demo.sas_sample Demo.log_prob Demo.model Demo.fresh Demo.one_example false
     = [qc 34 1]
  /\ run_predict_op Demo.constraint_fn Demo.constraint_fn_inv Demo.sas_mean
       Demo.sas_sample Demo.log_prob Demo.model Demo.fresh Demo.one_example true
     = [qc 12 1].
Proof.
  destruct (run_predict_op_MAP_normal Demo.constraint_fn Demo.constraint_fn_inv
              Demo.sas_mean Demo.sas_sample Demo.log_prob Demo.model Demo.fresh
              Demo.one_example eq_refl eq_refl eq_refl) as (H1 & H2 & H3).
  split; [reflexivity|]; split; [exact H1|].
  split; [qc_compute|]; split; [rewrite H2 | rewrite H3]; qc_compute.
Qed.

(** ** The outlier filter *)

Lemma of_int_add (a b : Z) : of_int (a + b) = (of_int a + of_int b)%Qc.
Proof.
  unfold of_int, Qcplus; apply Q2Qc_eq_iff.
  unfold Q2Qc; cbn [this]; rewrite !Qred_correct, inject_Z_plus; reflexivity.
Qed.

Lemma of_int_succ (n : nat) : of_int (Z.of_nat (S n)) = (1 + of_int (Z.of_nat n))%Qc.
Proof.
  rewrite Nat2Z.inj_succ, <- Z.add_1_l, of_int_add; reflexivity.
Qed.

Lemma Qceqb_true_iff (x y : Qc) : Qceqb x y = true <-> x = y.
Proof.
  split; [apply Qceqb_eq|].
  intros ->; unfold Qceqb.
  replace (y ?= y)%Qc with Eq; [reflexivity|].
  symmetry; now apply Qceq_alt.
Qed.

Lemma Qceqb_false (x y : Qc) : x <> y -> Qceqb x y = false.
Proof.
  intros H; destruct (Qceqb x y) eqn:E; [|reflexivity].
  now apply Qceqb_eq in E.
Qed.

Lemma py_div_Ok (a b : Qc) : b <> 0%Qc -> py_div a b = Ok (a / b)%Qc.
Proof. intros H; unfold py_div; now rewrite Qceqb_false. Qed.

Lemma one_minus_nonzero (beta : Qc) : beta <> 1%Qc -> (1 - beta)%Qc <> 0%Qc.
Proof.
  intros H E; apply H.
  replace beta with (1 - (1 - beta))%Qc by ring.
  rewrite E; ring.
Qed.

Section FilterSums.

Variable cutoff : Qc.

Let keep (l : Qc) : Qc := if Qcltb l cutoff then 1%Qc else 0%Qc.

Lemma n_retained_count (losses : list Qc) :
  reduce_sum (map keep losses) = of_int (Z.of_nat (List.length (retained cutoff losses))).
Proof.
  subst keep; unfold retained, reduce_sum.
  induction losses as [|l ls IH]; [reflexivity|].
  cbn [map filter fold_right] in *; rewrite IH.
  destruct (Qcltb l cutoff); cbn [List.length];
    [rewrite of_int_succ; reflexivity | ring].
Qed.

Lemma filtered_is_zero_dropped (losses : list Qc) :
  map (fun lf => (fst lf * snd lf)%Qc) (py_zip losses (map keep losses))
  = zero_dropped cutoff losses.
Proof.
  subst keep; unfold py_zip, zero_dropped.
  induction losses as [|l ls IH]; [reflexivity|].
  cbn [map combine fst snd]; rewrite IH; f_equal.
  destruct (Qcltb l cutoff); ring.
Qed.

Lemma zero_dropped_sum (losses : list Qc) :
  reduce_sum (zero_dropped cutoff losses) = reduce_sum (retained cutoff losses).
Proof.
  unfold zero_dropped, retained, reduce_sum.
  induction losses as [|l ls IH]; [reflexivity|].
  cbn [map filter fold_right] in *.
  destruct (Qcltb l cutoff); cbn [fold_right]; rewrite IH;
    [reflexivity | ring].
Qed.

Lemma n_dropped_count (losses : list Qc) :
  (of_int (Z.of_nat (List.length losses))
   - of_int (Z.of_nat (List.length (retained cutoff losses))))%Qc
  = of_int (Z.of_nat (dropped_count cutoff losses)).
Proof.
  unfold dropped_count, retained.
  induction losses as [|l ls IH]; [reflexivity|].
  cbn [filter List.length] in *.
  destruct (Qcltb l cutoff); cbn [negb List.length];
    rewrite !of_int_succ, <- ?IH; ring.
Qed.

End FilterSums.

Section Filter.

Variable sqrt_fn : Qc -> Qc.

Lemma filter_losses_off (cfg : config) (s : session) (bb : backbone) (losses : list Qc) :
  (truthy (loss_filter_n_sds cfg) && truthy (ema_decay cfg))%bool = false ->
  filter_losses sqrt_fn cfg s bb losses = Ok (losses, None).
Proof. intros H; unfold filter_losses; now rewrite H. Qed.

Lemma filter_losses_Ok (cfg : config) (s : session) (bb : backbone) (losses : list Qc) :
  warm_up_defined cfg ->
  exists r, filter_losses sqrt_fn cfg s bb losses = Ok r.
Proof.
  intros Hw; unfold filter_losses, warm_up_defined in *.
  destruct (truthy (loss_filter_n_sds cfg) && truthy (ema_decay cfg))%bool eqn:E;
    [|eauto].
  specialize (Hw eq_refl).
  destruct (ema_decay cfg) as [beta|];
    [|rewrite andb_false_r in E; discriminate].
  rewrite py_div_Ok by (apply one_minus_nonzero; congruence); simpl.
  destruct (tf_cond _ _ _); eauto.
Qed.

(** What the filter computes once the warm-up has elapsed: the loss it
    hands on has the dropped examples zeroed, both running statistics
    are computed from that filtered loss and divided by the number of
    retained examples plus [epsilon], and [n_dropped] counts the
    examples at or above the cutoff. *)
Lemma filter_losses_warm (cfg : config) (s : session) (bb : backbone)
    (losses : list Qc) (n_sds beta : Qc) :
  loss_filter_n_sds cfg = Some n_sds -> n_sds <> 0%Qc ->
  ema_decay cfg = Some beta -> beta <> 0%Qc -> beta <> 1%Qc ->
  py_int (qc 2 1 / (1 - beta))%Qc < global_batch_step bb ->
  let loss_ema := item (tf_Variable s (scalar 0%Qc) "loss_ema") in
  let loss_sd_ema := item (tf_Variable s (scalar 0%Qc) "loss_sd_ema") in
  let cutoff := (loss_ema + n_sds * loss_sd_ema)%Qc in
  let kept := of_int (Z.of_nat (List.length (retained cutoff losses))) in
  exists f,
    filter_losses sqrt_fn cfg s bb losses = Ok (zero_dropped cutoff losses, Some f)
    /\ loss_cutoff f = cutoff
    /\ n_retained f = kept
    /\ n_dropped f = of_int (Z.of_nat (dropped_count cutoff losses))
    /\ loss_mean_cur f = (reduce_sum (retained cutoff losses) / (kept + epsilon cfg))%Qc
    /\ loss_sd_cur f
       = (sqrt_fn (reduce_sum (map (fun l => (l - loss_ema) ^ 2)
                                 (zero_dropped cutoff losses)))
          / (kept + epsilon cfg))%Qc
    /\ loss_ema_op f = (beta * loss_ema + (1 - beta) * loss_mean_cur f)%Qc
    /\ loss_sd_ema_op f = (beta * loss_sd_ema + (1 - beta) * loss_sd_cur f)%Qc.
Proof.
  intros Hn Hn0 Hb Hb0 Hb1 Hwarm loss_ema loss_sd_ema cutoff kept.
  unfold filter_losses. rewrite Hn, Hb; simpl truthy.
  rewrite !Qceqb_false by assumption; simpl andb; cbv iota.
  rewrite py_div_Ok by (now apply one_minus_nonzero); simpl bind.
  fold loss_ema loss_sd_ema; fold cutoff.
  apply Z.ltb_lt in Hwarm; rewrite Hwarm; unfold tf_cond.
  rewrite filtered_is_zero_dropped, n_retained_count, n_dropped_count.
  fold kept. rewrite zero_dropped_sum.
  eexists; split; [reflexivity|]; simpl; repeat split.
Qed.

(** Before the warm-up has elapsed nothing is left out: the mean folded
    into the EMA is the mean over the whole batch. *)
Lemma filter_losses_cold (cfg : config) (s : session) (bb : backbone)
    (losses : list Qc) (n_sds beta : Qc) :
  loss_filter_n_sds cfg = Some n_sds -> n_sds <> 0%Qc ->
  ema_decay cfg = Some beta -> beta <> 0%Qc -> beta <> 1%Qc ->
  global_batch_step bb <= py_int (qc 2 1 / (1 - beta))%Qc ->
  exists f,
    filter_losses sqrt_fn cfg s bb losses = Ok (losses, Some f)
    /\ loss_mean_cur f = unfiltered_loss_mean cfg losses.
Proof.
  intros Hn Hn0 Hb Hb0 Hb1 Hcold.
  unfold filter_losses. rewrite Hn, Hb; simpl truthy.
  rewrite !Qceqb_false by assumption; simpl andb; cbv iota.
  rewrite py_div_Ok by (now apply one_minus_nonzero); simpl bind.
  apply Z.ltb_ge in Hcold; rewrite Hcold; unfold tf_cond.
  eexists; split; reflexivity.
Qed.

End Filter.

(** ** The objective *)

Section ObjectiveFacts.

Variables constraint_fn constraint_fn_inv sqrt_fn : Qc -> Qc.
Variable sas_mean : Qc -> Qc -> Qc -> Qc -> Qc.
Variable sas_sample : Qc -> Qc -> Qc -> Qc -> Qc -> Qc.
Variable log_prob : dist1 -> Qc -> Qc.
Variable kl_divergence : normal -> normal -> tensor.
Variable reg_name : string -> string.
Variable _regularize : regularizers -> tf_var -> string -> regularizers.

Let output_model_of :=
  _initialize_output_model constraint_fn constraint_fn_inv sas_mean sas_sample log_prob.
Let objective_of :=
  initialize_objective constraint_fn constraint_fn_inv sqrt_fn sas_mean sas_sample
    log_prob kl_divergence reg_name _regularize.
(** The log-likelihood of each example under the output distribution. *)
Let ll_of (cfg : config) (s : session) (bb : backbone) (kl : list kl_node) : list Qc :=
  map (fun dy => log_prob (fst dy) (snd dy))
    (py_zip (out_dist (output_model_of cfg s bb kl)) (y bb)).

Lemma tf_add_n_Ok (xs : list Qc) : xs <> [] -> tf_add_n xs = Ok (reduce_sum xs).
Proof. destruct xs; [congruence | reflexivity]. Qed.

(** The objective, field by field, when nothing raises. *)
Lemma initialize_objective_spec (cfg : config) (s : session) (bb : backbone)
    (kl : list kl_node) (regs : regularizers) (layers : list layer)
    (o : string) (losses : list Qc) (fs : option loss_filter) :
  let regs' := regularize_layers reg_name _regularize layers regs in
  let klp := om_kl_penalties (output_model_of cfg s bb kl) in
  optim_name cfg = Some o ->
  filter_losses sqrt_fn cfg s bb (map Qcopp (ll_of cfg s bb kl)) = Ok (losses, fs) ->
  penalties_summable regs' ->
  exists obj,
    objective_of cfg s bb kl regs layers = Ok obj
    /\ ll obj = ll_of cfg s bb kl
    /\ per_example_loss obj = losses
    /\ filter_stats obj = fs
    /\ penalties obj = klp
    /\ regs_after obj = regs'
    /\ likelihood_loss obj = nll_term cfg losses
    /\ kl_loss obj = match klp with [] => 0%Qc | _ :: _ => total_kl kl_divergence klp end
    /\ reg_loss obj
       = match klp with
         | [] => layer_penalty regs'
         | _ :: _ => (layer_penalty regs' + kl_loss obj)%Qc
         end
    /\ loss_func obj
       = match regularizer_losses_varnames regs', klp with
         | [], [] => likelihood_loss obj
         | _, _ => (likelihood_loss obj + layer_penalty regs' + kl_loss obj)%Qc
         end.
Proof.
  intros regs' klp Ho Hf Hsum.
  subst objective_of regs' klp ll_of output_model_of; cbv beta in *.
  unfold initialize_objective; cbv zeta.
  set (om := _initialize_output_model _ _ _ _ _ cfg s bb kl) in *; clearbody om.
  set (K := om_kl_penalties om) in *; clearbody K.
  set (L := map _ (py_zip (out_dist om) (y bb))) in *; clearbody L.
  set (R := regularize_layers _ _ layers regs) in *; clearbody R.
  rewrite Hf; cbn [bind fst snd]. rewrite Ho.
  unfold penalties_summable, layer_penalty, total_kl in *.
  destruct (regularizer_losses_varnames R) as [|v vs] eqn:Ev.
  - destruct K as [|p ps]; cbn [bind];
      eexists; (split; [reflexivity|]); cbn;
      repeat split; ring.
  - rewrite tf_add_n_Ok by (apply Hsum; discriminate); cbn [bind].
    destruct K as [|p ps];
      eexists; (split; [reflexivity|]); cbn;
      repeat split; ring.
Qed.

(** When the objective is built, no step of it raised. *)
Lemma initialize_objective_inv (cfg : config) (s : session) (bb : backbone)
    (kl : list kl_node) (regs : regularizers) (layers : list layer) (obj : objective) :
  objective_of cfg s bb kl regs layers = Ok obj ->
  exists o losses fs,
    optim_name cfg = Some o
    /\ filter_losses sqrt_fn cfg s bb (map Qcopp (ll_of cfg s bb kl)) = Ok (losses, fs)
    /\ penalties_summable (regularize_layers reg_name _regularize layers regs).
Proof.
  subst objective_of ll_of output_model_of; cbv beta.
  unfold initialize_objective; cbv zeta.
  set (om := _initialize_output_model _ _ _ _ _ cfg s bb kl) in *; clearbody om.
  set (K := om_kl_penalties om) in *; clearbody K.
  set (L := map _ (py_zip (out_dist om) (y bb))) in *; clearbody L.
  set (R := regularize_layers _ _ layers regs) in *; clearbody R.
  intros H.
  apply bind_Ok_inv in H as ([losses fs] & Hf & H).
  apply bind_Ok_inv in H as ([r t] & Hr & H).
  destruct (optim_name cfg) as [o|]; [|destruct K; discriminate].
  exists o, losses, fs; repeat split; try assumption.
  unfold penalties_summable; intros Hv.
  destruct (regularizer_losses_varnames R); [congruence|].
  destruct (regularizer_losses R); discriminate.
Qed.

End ObjectiveFacts.

(** ** The train step *)

Lemma py_last_app {A : Type} (pre suf : list A) :
  py_last (List.length suf) (pre ++ suf) = suf.
Proof.
  unfold py_last. rewrite length_app.
  replace (List.length pre + List.length suf - List.length suf)%nat
    with (List.length pre + 0)%nat by lia.
  rewrite skipn_app, Nat.add_0_r, skipn_all.
  replace (List.length pre - List.length pre)%nat with 0%nat by lia.
  reflexivity.
Qed.

Lemma filter_stats_Some (sqrt_fn : Qc -> Qc) (cfg : config) (s : session)
    (bb : backbone) (losses losses' : list Qc) (fs : option loss_filter) :
  filter_losses sqrt_fn cfg s bb losses = Ok (losses', fs) ->
  (truthy (loss_filter_n_sds cfg) && truthy (ema_decay cfg))%bool = true ->
  exists f, fs = Some f.
Proof.
  unfold filter_losses; intros H E; rewrite E in H.
  apply bind_Ok_inv in H as (q & _ & H).
  destruct (tf_cond _ _ _) in H; injection H as _ <-; eauto.
Qed.

Section TrainStep.

Variables constraint_fn constraint_fn_inv sqrt_fn : Qc -> Qc.
Variable sas_mean : Qc -> Qc -> Qc -> Qc -> Qc.
Variable sas_sample : Qc -> Qc -> Qc -> Qc -> Qc -> Qc.
Variable log_prob : dist1 -> Qc -> Qc.
Variable kl_divergence : normal -> normal -> tensor.
Variable reg_name : string -> string.
Variable _regularize : regularizers -> tf_var -> string -> regularizers.

Let objective_of :=
  initialize_objective constraint_fn constraint_fn_inv sqrt_fn sas_mean sas_sample
    log_prob kl_divergence reg_name _regularize.
Let train_step :=
  run_train_step constraint_fn constraint_fn_inv sqrt_fn sas_mean sas_sample
    log_prob kl_divergence reg_name _regularize.

(** The dictionary of a train step pairs ['loss'] and ['reg_loss'] with
    the objective's [loss_func] and [reg_loss], and ['n_dropped'] with
    the filter's count when the filter is on. *)
Lemma run_train_step_dict (cfg : config) (s : session) (bb : backbone)
    (kl : list kl_node) (regs : regularizers) (layers : list layer) (obj : objective) :
  objective_of cfg s bb kl regs layers = Ok obj ->
  (truthy (loss_filter_n_sds cfg) = true -> filter_stats obj <> None) ->
  exists d,
    train_step cfg s bb kl regs layers = Ok d
    /\ dict_get d "loss" = Some (Some (loss_func obj))
    /\ dict_get d "reg_loss" = Some (Some (reg_loss obj))
    /\ (forall f, truthy (loss_filter_n_sds cfg) = true -> filter_stats obj = Some f ->
        dict_get d "n_dropped" = Some (Some (n_dropped f))).
Proof.
  intros Hobj Hfs. subst train_step objective_of; unfold run_train_step.
  rewrite Hobj; cbn [bind].
  set (P := if asymmetric_error cfg then _ else _); clearbody P.
  destruct (truthy (loss_filter_n_sds cfg)) eqn:Et.
  - destruct (filter_stats obj) as [f|] eqn:Ef; [|now destruct (Hfs eq_refl)].
    cbn [bind fst snd app].
    rewrite <- app_assoc; cbn [app].
    change (P ++ [Some (loss_ema_op f); Some (loss_sd_ema_op f); Some (n_dropped f);
                  Some (loss_func obj); Some (reg_loss obj)])
      with (P ++ [Some (loss_ema_op f); Some (loss_sd_ema_op f)]
              ++ [Some (n_dropped f); Some (loss_func obj); Some (reg_loss obj)]).
    rewrite app_assoc.
    change (List.length ["n_dropped"%string; "loss"%string; "reg_loss"%string])
      with (List.length [Some (n_dropped f); Some (loss_func obj); Some (reg_loss obj)]).
    rewrite py_last_app.
    eexists; split; [reflexivity|]; repeat split.
    intros f' _ [= <-]; reflexivity.
  - cbn [bind fst snd app].
    change (List.length ["loss"%string; "reg_loss"%string])
      with (List.length [Some (loss_func obj); Some (reg_loss obj)]).
    rewrite py_last_app.
    eexists; split; [reflexivity|]; repeat split.
    intros f H; discriminate H.
Qed.

End TrainStep.

(** ** The objective and the train step, end to end *)

Lemma filter_losses_raise (sqrt_fn : Qc -> Qc) (cfg : config) (s : session)
    (bb : backbone) (losses : list Qc) (e : exn) :
  filter_losses sqrt_fn cfg s bb losses = Raise e -> e = ZeroDivisionError.
Proof.
  unfold filter_losses.
  destruct (truthy (loss_filter_n_sds cfg) && truthy (ema_decay cfg))%bool;
    [|discriminate].
  unfold py_div; destruct (Qceqb _ _); cbn [bind].
  - now intros [= <-].
  - destruct (tf_cond _ _ _); discriminate.
Qed.

(** C2, as the code has it.  With the outlier filter configured, once
    the warm-up of [int(2 / (1 - ema_decay))] steps has elapsed, a train
    step folds into both EMAs statistics of the filtered loss: the mean
    is the sum of the losses of the retained examples (those below
    [loss_ema + n_sds * loss_sd_ema]) divided by their number plus
    [epsilon], the spread is computed over the per-example loss with
    the dropped examples zeroed and divided by the same number, each
    EMA becomes [beta * old + (1 - beta) * current], and the step
    reports under ['n_dropped'] the number of dropped examples. *)
Theorem ema_updates_use_filtered_loss
    (constraint_fn constraint_fn_inv sqrt_fn : Qc -> Qc)
    (sas_mean : Qc -> Qc -> Qc -> Qc -> Qc)
    (sas_sample : Qc -> Qc -> Qc -> Qc -> Qc -> Qc)
    (log_prob : dist1 -> Qc -> Qc) (kl_divergence : normal -> normal -> tensor)
    (reg_name : string -> string)
    (_regularize : regularizers -> tf_var -> string -> regularizers)
    (cfg : config) (s : session) (bb : backbone) (kl : list kl_node)
    (regs : regularizers) (layers : list layer) (n_sds beta : Qc) (o : string) :
  loss_filter_n_sds cfg = Some n_sds -> n_sds <> 0%Qc ->
  ema_decay cfg = Some beta -> beta <> 0%Qc -> beta <> 1%Qc ->
  py_int (qc 2 1 / (1 - beta))%Qc < global_batch_step bb ->
  optim_name cfg = Some o ->
  penalties_summable (regularize_layers reg_name _regularize layers regs) ->
  let loss_ema := item (tf_Variable s (scalar 0%Qc) "loss_ema") in
  let loss_sd_ema := item (tf_Variable s (scalar 0%Qc) "loss_sd_ema") in
  let cutoff := (loss_ema + n_sds * loss_sd_ema)%Qc in
  exists obj f d,
    initialize_objective constraint_fn constraint_fn_inv sqrt_fn sas_mean sas_sample
      log_prob kl_divergence reg_name _regularize cfg s bb kl regs layers = Ok obj
    /\ filter_stats obj = Some f
    /\ run_train_step constraint_fn constraint_fn_inv sqrt_fn sas_mean sas_sample
         log_prob kl_divergence reg_name _regularize cfg s bb kl regs layers = Ok d
    /\ let losses := map Qcopp (ll obj) in
       let kept := of_int (Z.of_nat (List.length (retained cutoff losses))) in
       per_example_loss obj = zero_dropped cutoff losses
       /\ loss_mean_cur f = (reduce_sum (retained cutoff losses) / (kept + epsilon cfg))%Qc
       /\ loss_sd_cur f
          = (sqrt_fn (reduce_sum (map (fun l => (l - loss_ema) ^ 2)
                                    (zero_dropped cutoff losses)))
             / (kept + epsilon cfg))%Qc
       /\ loss_ema_op f = (beta * loss_ema + (1 - beta) * loss_mean_cur f)%Qc
       /\ loss_sd_ema_op f = (beta * loss_sd_ema + (1 - beta) * loss_sd_cur f)%Qc
       /\ n_dropped f = of_int (Z.of_nat (dropped_count cutoff losses))
       /\ dict_get d "n_dropped" = Some (Some (n_dropped f)).
Proof.
  intros Hn Hn0 Hb Hb0 Hb1 Hwarm Ho Hsum loss_ema loss_sd_ema cutoff.
  set (lls := map (fun dy => log_prob (fst dy) (snd dy))
                (py_zip (out_dist (_initialize_output_model constraint_fn
                                     constraint_fn_inv sas_mean sas_sample log_prob
                                     cfg s bb kl)) (y bb))).
  destruct (filter_losses_warm sqrt_fn cfg s bb (map Qcopp lls) n_sds beta
              Hn Hn0 Hb Hb0 Hb1 Hwarm)
    as (f & Hf & _ & _ & Hd & Hm & Hsd & He & Hse).
  destruct (initialize_objective_spec constraint_fn constraint_fn_inv sqrt_fn sas_mean
              sas_sample log_prob kl_divergence reg_name _regularize cfg s bb kl regs
              layers o _ _ Ho Hf Hsum)
    as (obj & Hobj & Hll & Hpe & Hfs & _).
  assert (Ht : truthy (loss_filter_n_sds cfg) = true).
  { rewrite Hn; simpl. now rewrite Qceqb_false. }
  destruct (run_train_step_dict constraint_fn constraint_fn_inv sqrt_fn sas_mean
              sas_sample log_prob kl_divergence reg_name _regularize cfg s bb kl regs
              layers obj Hobj) as (d & Hd1 & _ & _ & Hnd).
  { intros _; rewrite Hfs; discriminate. }
  exists obj, f, d. split; [exact Hobj|]. split; [exact Hfs|]. split; [exact Hd1|].
  cbv zeta. rewrite Hll. fold lls. fold loss_ema loss_sd_ema. fold cutoff.
  repeat split; try assumption. exact (Hnd f Ht Hfs).
Qed.

Lemma ema_updates_use_filtered_loss_witness :
  exists obj f d,
    initialize_objective Demo.constraint_fn Demo.constraint_fn_inv Demo.sqrt_fn
      Demo.sas_mean Demo.sas_sample Demo.log_prob Demo.kl_divergence Demo.reg_name
      Demo._regularize Demo.model_filtered Demo.trained Demo.three_examples []
      Demo.no_regularizers [] = Ok obj
    /\ filter_stats obj = Some f
    /\ run_train_step Demo.constraint_fn Demo.constraint_fn_inv Demo.sqrt_fn
         Demo.sas_mean Demo.sas_sample Demo.log_prob Demo.kl_divergence Demo.reg_name
         Demo._regularize Demo.model_filtered Demo.trained Demo.three_examples []
         Demo.no_regularizers [] = Ok d
    /\ dict_get d "n_dropped" = Some (Some (n_dropped f)).
Proof.
  destruct (ema_updates_use_filtered_loss
              Demo.constraint_fn Demo.constraint_fn_inv Demo.sqrt_fn
              Demo.sas_mean Demo.sas_sample Demo.log_prob Demo.kl_divergence
              Demo.reg_name Demo._regularize Demo.model_filtered Demo.trained
              Demo.three_examples [] Demo.no_regularizers [] (qc 2 1) (qc 1 2)
              "Adam"%string)
    as (obj & f & d & H1 & H2 & H3 & H4).
  - reflexivity.
  - intros H; qc_differ H.
  - reflexivity.
  - intros H; qc_differ H.
  - intros H; qc_differ H.
  - vm_compute; reflexivity.
  - reflexivity.
  - intros H; exfalso; apply H; reflexivity.
  - exists obj, f, d. repeat split; try assumption.
    exact (proj2 (proj2 (proj2 (proj2 (proj2 (proj2 H4)))))).
Defined.

(** C2, as stated, fails.  In the example model after warm-up (step 10,
    warm-up 4), with running mean 3, running spread 1 and cutoff 5, the
    batch losses are 1/2, 1/2 and 200 (responses 12, 12 and 50 around a
    prediction of 10 with scale 2, under the log-density of the example
    backend).  The third example is dropped,
    and the mean folded into the loss EMA is that of the two retained
    examples, [1 / (2 + epsilon)], not the mean [201 / (3 + epsilon)]
    of the whole batch. *)
Lemma ema_update_is_not_unfiltered :
  exists obj f,
    initialize_objective Demo.constraint_fn Demo.constraint_fn_inv Demo.sqrt_fn
      Demo.sas_mean Demo.sas_sample Demo.log_prob Demo.kl_divergence Demo.reg_name
      Demo._regularize Demo.model_filtered Demo.trained Demo.three_examples []
      Demo.no_regularizers [] = Ok obj
    /\ filter_stats obj = Some f
    /\ ema_warm_up f = 4 /\ global_batch_step Demo.three_examples = 10
    /\ map Qcopp (ll obj) = [qc 1 2; qc 1 2; qc 200 1]
    /\ loss_cutoff f = qc 5 1
    /\ n_dropped f = 1%Qc
    /\ loss_mean_cur f = qc 100000000 200000001
    /\ unfiltered_loss_mean Demo.model_filtered (map Qcopp (ll obj))
       = qc 20100000000 300000001
    /\ loss_ema_op f
       <> (qc 1 2 * qc 3 1
           + (1 - qc 1 2) * unfiltered_loss_mean Demo.model_filtered (map Qcopp (ll obj)))%Qc.
Proof.
  eexists _, _. split; [reflexivity|]. split; [reflexivity|].
  split; [vm_compute; reflexivity|]. split; [reflexivity|].
  split; [qc_compute|]. split; [qc_compute|]. split; [qc_compute|].
  split; [qc_compute|]. split; [qc_compute|].
  intros H; qc_differ H.
Qed.



(** C8.  With no optimizer named ([optim_name] is [None]),
    [initialize_objective] raises when the graph is built, so no train
    step runs; the exception is the [AssertionError] of line 1115 when
    nothing before it raised.  With an optimizer named that
    [AssertionError] is not raised. *)
Theorem missing_optimizer_is_fatal
    (constraint_fn constraint_fn_inv sqrt_fn : Qc -> Qc)
    (sas_mean : Qc -> Qc -> Qc -> Qc -> Qc)
    (sas_sample : Qc -> Qc -> Qc -> Qc -> Qc -> Qc)
    (log_prob : dist1 -> Qc -> Qc) (kl_divergence : normal -> normal -> tensor)
    (reg_name : string -> string)
    (_regularize : regularizers -> tf_var -> string -> regularizers)
    (cfg : config) (s : session) (bb : backbone) (kl : list kl_node)
    (regs : regularizers) (layers : list layer) :
  let built :=
    initialize_objective constraint_fn constraint_fn_inv sqrt_fn sas_mean sas_sample
      log_prob kl_divergence reg_name _regularize cfg s bb kl regs layers in
  let stepped :=
    run_train_step constraint_fn constraint_fn_inv sqrt_fn sas_mean sas_sample
      log_prob kl_divergence reg_name _regularize cfg s bb kl regs layers in
  (optim_name cfg = None ->
   (exists e, built = Raise e)
   /\ (exists e, stepped = Raise e)
   /\ (warm_up_defined cfg ->
       penalties_summable (regularize_layers reg_name _regularize layers regs) ->
       built = Raise AssertionError))
  /\ (optim_name cfg <> None -> built <> Raise AssertionError).
Proof.
  intros built stepped. split.
  - intros Hnone.
    assert (Hraise : exists e, built = Raise e).
    { destruct built as [obj|e] eqn:E; [|eauto].
      apply initialize_objective_inv in E as (o & _ & _ & Ho & _). congruence. }
    split; [exact Hraise|]. split.
    + destruct Hraise as (e & He). exists e.
      subst stepped; unfold run_train_step. fold built. now rewrite He.
    + intros Hw Hsum. subst built stepped. unfold initialize_objective; cbv zeta.
      set (om := _initialize_output_model _ _ _ _ _ cfg s bb kl); clearbody om.
      set (L := map _ (py_zip (out_dist om) (y bb))); clearbody L.
      set (R := regularize_layers _ _ layers regs) in *; clearbody R.
      destruct (filter_losses_Ok sqrt_fn cfg s bb (map Qcopp L) Hw) as (r & ->).
      cbn [bind]. rewrite Hnone. unfold penalties_summable in Hsum.
      destruct (regularizer_losses_varnames R).
      * cbn [bind]. destruct (om_kl_penalties om); reflexivity.
      * rewrite tf_add_n_Ok by (apply Hsum; discriminate); cbn [bind].
        destruct (om_kl_penalties om); reflexivity.
  - intros Hsome. destruct (optim_name cfg) as [o|] eqn:Ho; [|congruence].
    subst built stepped. unfold initialize_objective; cbv zeta.
    set (om := _initialize_output_model _ _ _ _ _ cfg s bb kl); clearbody om.
    set (L := map _ (py_zip (out_dist om) (y bb))); clearbody L.
    set (R := regularize_layers _ _ layers regs) in *; clearbody R.
    destruct (filter_losses sqrt_fn cfg s bb (map Qcopp L)) as [r|e] eqn:Ef.
    + cbn [bind]. rewrite Ho.
      destruct (regularizer_losses_varnames R).
      * cbn [bind]. destruct (om_kl_penalties om); discriminate.
      * destruct (regularizer_losses R); cbn [tf_add_n bind];
          [discriminate | destruct (om_kl_penalties om); discriminate].
    + cbn [bind]. apply filter_losses_raise in Ef; subst e; discriminate.
Qed.

Lemma missing_optimizer_is_fatal_witness :
  initialize_objective Demo.constraint_fn Demo.constraint_fn_inv Demo.sqrt_fn
    Demo.sas_mean Demo.sas_sample Demo.log_prob Demo.kl_divergence Demo.reg_name
    Demo._regularize Demo.model_no_optimizer Demo.fresh Demo.one_example []
    Demo.no_regularizers [] = Raise AssertionError
  /\ initialize_objective Demo.constraint_fn Demo.constraint_fn_inv Demo.sqrt_fn
       Demo.sas_mean Demo.sas_sample Demo.log_prob Demo.kl_divergence Demo.reg_name
       Demo._regularize Demo.model Demo.fresh Demo.one_example []
       Demo.no_regularizers [] <> Raise AssertionError.
Proof.
  split.
  - refine (proj2 (proj2 (proj1 (missing_optimizer_is_fatal
              Demo.constraint_fn Demo.constraint_fn_inv Demo.sqrt_fn
              Demo.sas_mean Demo.sas_sample Demo.log_prob Demo.kl_divergence
              Demo.reg_name Demo._regularize Demo.model_no_optimizer Demo.fresh
              Demo.one_example [] Demo.no_regularizers []) eq_refl)) _ _).
    + intros H; discriminate H.
    + intros H; exfalso; apply H; reflexivity.
  - refine (proj2 (missing_optimizer_is_fatal
              Demo.constraint_fn Demo.constraint_fn_inv Demo.sqrt_fn
              Demo.sas_mean Demo.sas_sample Demo.log_prob Demo.kl_divergence
              Demo.reg_name Demo._regularize Demo.model Demo.fresh
              Demo.one_example [] Demo.no_regularizers []) _).
    discriminate.
Defined.

(** C10.  When the objective is built with a non-empty KL-penalty list,
    [kl_loss] is the total KL divergence, [reg_loss] is the layer
    regularization penalty plus [kl_loss], the total loss is the
    likelihood term plus both, and the train step returns that
    [reg_loss] under ['reg_loss']. *)
Theorem reg_loss_includes_kl
    (constraint_fn constraint_fn_inv sqrt_fn : Qc -> Qc)
    (sas_mean : Qc -> Qc -> Qc -> Qc -> Qc)
    (sas_sample : Qc -> Qc -> Qc -> Qc -> Qc -> Qc)
    (log_prob : dist1 -> Qc -> Qc) (kl_divergence : normal -> normal -> tensor)
    (reg_name : string -> string)
    (_regularize : regularizers -> tf_var -> string -> regularizers)
    (cfg : config) (s : session) (bb : backbone) (kl : list kl_node)
    (regs : regularizers) (layers : list layer) (obj : objective) :
  initialize_objective constraint_fn constraint_fn_inv sqrt_fn sas_mean sas_sample
    log_prob kl_divergence reg_name _regularize cfg s bb kl regs layers = Ok obj ->
  penalties obj <> [] ->
  (truthy (loss_filter_n_sds cfg) = true -> truthy (ema_decay cfg) = true) ->
  kl_loss obj = total_kl kl_divergence (penalties obj)
  /\ reg_loss obj = (layer_penalty (regs_after obj) + kl_loss obj)%Qc
  /\ loss_func obj
     = (likelihood_loss obj + layer_penalty (regs_after obj) + kl_loss obj)%Qc
  /\ exists d,
      run_train_step constraint_fn constraint_fn_inv sqrt_fn sas_mean sas_sample
        log_prob kl_divergence reg_name _regularize cfg s bb kl regs layers = Ok d
      /\ dict_get d "reg_loss" = Some (Some (reg_loss obj))
      /\ dict_get d "loss" = Some (Some (loss_func obj)).
Proof.
  intros Hobj Hne Hcfg.
  destruct (initialize_objective_inv _ _ _ _ _ _ _ _ _ cfg s bb kl regs layers obj Hobj)
    as (o & losses & fs & Ho & Hf & Hsum).
  destruct (initialize_objective_spec constraint_fn constraint_fn_inv sqrt_fn sas_mean
              sas_sample log_prob kl_divergence reg_name _regularize cfg s bb kl regs
              layers o losses fs Ho Hf Hsum)
    as (obj' & Hobj' & _ & _ & Hfs & Hp & Hr & _ & Hkl & Hreg & Hloss).
  rewrite Hobj in Hobj'; injection Hobj' as <-.
  rewrite <- Hp, <- Hr in *.
  destruct (penalties obj) as [|p ps] eqn:Ep; [congruence|].
  split; [exact Hkl|]. split; [exact Hreg|]. split.
  - destruct (regularizer_losses_varnames (regs_after obj)); exact Hloss.
  - destruct (run_train_step_dict constraint_fn constraint_fn_inv sqrt_fn sas_mean
                sas_sample log_prob kl_divergence reg_name _regularize cfg s bb kl
                regs layers obj Hobj) as (d & Hd & Hl & Hrl & _).
    + intros Ht. rewrite Hfs.
      destruct (filter_stats_Some sqrt_fn cfg s bb _ _ _ Hf) as (f & ->);
        [|discriminate].
      now rewrite Ht, (Hcfg Ht).
    + exists d; repeat split; assumption.
Qed.

Lemma reg_loss_includes_kl_witness :
  exists obj d,
    initialize_objective Demo.constraint_fn Demo.constraint_fn_inv Demo.sqrt_fn
      Demo.sas_mean Demo.sas_sample Demo.log_prob Demo.kl_divergence Demo.reg_name
      Demo._regularize Demo.model Demo.fresh Demo.one_example []
      Demo.no_regularizers [Bare (mkVar "kernel")] = Ok obj
    /\ reg_loss obj = (layer_penalty (regs_after obj) + kl_loss obj)%Qc
    /\ run_train_step Demo.constraint_fn Demo.constraint_fn_inv Demo.sqrt_fn
         Demo.sas_mean Demo.sas_sample Demo.log_prob Demo.kl_divergence Demo.reg_name
         Demo._regularize Demo.model Demo.fresh Demo.one_example []
         Demo.no_regularizers [Bare (mkVar "kernel")] = Ok d
    /\ dict_get d "reg_loss" = Some (Some (reg_loss obj)).
Proof.
  eexists.
  edestruct (reg_loss_includes_kl
               Demo.constraint_fn Demo.constraint_fn_inv Demo.sqrt_fn
               Demo.sas_mean Demo.sas_sample Demo.log_prob Demo.kl_divergence
               Demo.reg_name Demo._regularize Demo.model Demo.fresh
               Demo.one_example [] Demo.no_regularizers [Bare (mkVar "kernel")])
    as (_ & H2 & _ & d & H4 & H5 & _).
  - reflexivity.
  - discriminate.
  - intros H; discriminate H.
  - exists d; split; [reflexivity|]; repeat split; assumption.
Defined.

(** * Further properties of the builders *)

Lemma posterior_kl (constraint_fn : Qc -> Qc) (cfg : config) (s : session)
    (l sc : tensor) (name : string) (declare : bool) (prior : normal)
    (kl : list kl_node) :
  let r := posterior constraint_fn cfg s l sc name declare prior kl in
  snd r = if declare then kl ++ [KL (q_dist (fst r)) prior] else kl.
Proof. unfold posterior; destruct declare; reflexivity. Qed.

Section BuilderBookkeeping.

Variables constraint_fn constraint_fn_inv sqrt_fn : Qc -> Qc.
Variable sn : string -> string.

Let build := build constraint_fn constraint_fn_inv sqrt_fn sn.

(** Every successful call is [posterior] at the prior toggle of its
    effect type. *)
Lemma build_posterior_toggle (k : kind) (cfg : config) (s : session)
    (ran_gf : option string) (kl : list kl_node) (r : latent * list kl_node) :
  build k cfg s ran_gf kl = Ok r ->
  exists l sc name prior,
    r = posterior constraint_fn cfg s l sc name (declares_prior cfg ran_gf) prior kl.
Proof.
  destruct ran_gf as [gf|]; intros H.
  - apply build_ranef_inv in H as (u & sd & n & z & o & _ & _ & _ & _ & _ & Hr).
    do 4 eexists; exact Hr.
  - apply build_fixef_inv in H as (u & sd & l0 & s0 & _ & _ & _ & _ & Hr).
    do 4 eexists; exact Hr.
Qed.

(** X1.  A successful builder call leaves the KL-penalty list as it was
    when the prior of its effect type is not declared, and otherwise
    appends exactly one node, after the entries already there: the KL
    divergence of the posterior it returns from the prior it
    declares. *)
Theorem builder_kl_bookkeeping (k : kind) (cfg : config) (s : session)
    (ran_gf : option string) (kl kl' : list kl_node) (lat : latent) :
  build k cfg s ran_gf kl = Ok (lat, kl') ->
  if declares_prior cfg ran_gf
  then exists p, prior_dist lat = Some p /\ kl' = kl ++ [KL (q_dist lat) p]
  else prior_dist lat = None /\ kl' = kl.
Proof.
  intros H.
  apply build_posterior_toggle in H as (l & sc & name & prior & Hr).
  pose proof (posterior_kl constraint_fn cfg s l sc name
                (declares_prior cfg ran_gf) prior kl) as Hkl.
  pose proof (posterior_fields constraint_fn cfg s l sc name
                (declares_prior cfg ran_gf) prior kl) as (_ & _ & _ & _ & _ & Hp).
  cbv zeta in Hkl. rewrite <- Hr in Hkl, Hp. simpl in Hkl, Hp.
  destruct (declares_prior cfg ran_gf).
  - exists prior; split; assumption.
  - split; assumption.
Qed.

(** X2.  [initialize_irf_l1_biases] builds the weight bias and then the
    input bias on the same list: with the prior declared it appends two
    nodes, the weight bias's first; with the prior not declared it
    appends none. *)
Theorem irf_l1_biases_kl_bookkeeping (cfg : config) (s : session)
    (ran_gf : option string) (kl kl' : list kl_node) (W b : latent) :
  initialize_irf_l1_biases constraint_fn constraint_fn_inv sqrt_fn sn cfg s ran_gf kl
  = Ok (W, b, kl') ->
  if declares_prior cfg ran_gf
  then exists pW pb,
      prior_dist W = Some pW /\ prior_dist b = Some pb
      /\ kl' = kl ++ [KL (q_dist W) pW; KL (q_dist b) pb]
  else prior_dist W = None /\ prior_dist b = None /\ kl' = kl.
Proof.
  unfold initialize_irf_l1_biases; intros H.
  apply bind_Ok_inv in H as ([W0 kl1] & HW & H).
  apply bind_Ok_inv in H as ([b0 kl2] & Hb & H).
  simpl in H, Hb. injection H as <- <- <-.
  change (build IrfL1WBias cfg s ran_gf kl = Ok (W0, kl1)) in HW.
  change (build IrfL1bBias cfg s ran_gf kl1 = Ok (b0, kl2)) in Hb.
  apply build_posterior_toggle in HW as (l & sc & name & prior & HrW).
  apply build_posterior_toggle in Hb as (l' & sc' & name' & prior' & Hrb).
  pose proof (posterior_kl constraint_fn cfg s l sc name
                (declares_prior cfg ran_gf) prior kl) as KW.
  pose proof (posterior_fields constraint_fn cfg s l sc name
                (declares_prior cfg ran_gf) prior kl) as (_ & _ & _ & _ & _ & PW).
  pose proof (posterior_kl constraint_fn cfg s l' sc' name'
                (declares_prior cfg ran_gf) prior' kl1) as Kb.
  pose proof (posterior_fields constraint_fn cfg s l' sc' name'
                (declares_prior cfg ran_gf) prior' kl1) as (_ & _ & _ & _ & _ & Pb).
  cbv zeta in KW, Kb. rewrite <- HrW in KW, PW. rewrite <- Hrb in Kb, Pb.
  simpl in KW, PW, Kb, Pb.
  destruct (declares_prior cfg ran_gf).
  - exists prior, prior'. repeat split; try assumption.
    rewrite Kb, KW, <- app_assoc; reflexivity.
  - repeat split; congruence.
Qed.

(** X3.  In MAP mode the value a builder returns is its summary, the
    mean of the posterior; in either mode the value has the shape of
    the summary. *)
Theorem map_value_is_summary (k : kind) (cfg : config) (s : session)
    (ran_gf : option string) (kl kl' : list kl_node) (lat : latent) :
  build k cfg s ran_gf kl = Ok (lat, kl') ->
  shape (value lat) = shape (summary lat)
  /\ (use_MAP_mode s = true ->
      value lat = summary lat /\ value lat = mean (q_dist lat)).
Proof.
  intros H.
  apply build_posterior_toggle in H as (l & sc & name & prior & Hr).
  pose proof (posterior_fields constraint_fn cfg s l sc name
                (declares_prior cfg ran_gf) prior kl) as (_ & _ & F3 & F4 & F5 & _).
  rewrite <- Hr in F3, F4, F5; simpl in F3, F4, F5.
  rewrite F5, F4, F3. unfold tf_cond, mean, sample; simpl. split.
  - destruct (use_MAP_mode s); reflexivity.
  - intros ->; split; reflexivity.
Qed.

(** The constraint never returns a negative number. *)
Hypothesis constraint_fn_nonneg : forall x, (0 <= constraint_fn x)%Qc.

Lemma floor_le (x : Qc) (eps : Qc) : (eps <= constraint_fn x + eps)%Qc.
Proof.
  rewrite <- (Qcplus_0_l eps) at 1.
  apply Qcplus_le_compat; [apply constraint_fn_nonneg | apply Qcle_refl].
Qed.

(** X4.  Whatever values the session holds for the variables, every
    entry of the scale of the posterior a builder returns is at least
    [epsilon]: no raw or zero scale reaches the posterior. *)
Theorem posterior_scale_floor (k : kind) (cfg : config) (s : session)
    (ran_gf : option string) (kl kl' : list kl_node) (lat : latent) :
  build k cfg s ran_gf kl = Ok (lat, kl') ->
  Forall (fun x => (epsilon cfg <= x)%Qc) (data (scale (q_dist lat))).
Proof.
  intros H.
  apply build_posterior_toggle in H as (l & sc & name & prior & Hr).
  pose proof (posterior_fields constraint_fn cfg s l sc name
                (declares_prior cfg ran_gf) prior kl) as (_ & _ & F3 & _).
  rewrite <- Hr in F3; simpl in F3. rewrite F3; simpl.
  rewrite map_map. apply Forall_forall. intros x Hx.
  apply in_map_iff in Hx as (x0 & <- & _). apply floor_le.
Qed.

End BuilderBookkeeping.

Lemma builder_kl_bookkeeping_witness :
  exists lat kl' p,
    build Demo.constraint_fn Demo.constraint_fn_inv Demo.sqrt_fn Demo.sn
      Coefficient Demo.model Demo.fresh (Some "subject"%string) [] = Ok (lat, kl')
    /\ prior_dist lat = Some p
    /\ kl' = [] ++ [KL (q_dist lat) p].
Proof.
  eexists _, _.
  pose proof (builder_kl_bookkeeping
                Demo.constraint_fn Demo.constraint_fn_inv Demo.sqrt_fn Demo.sn
                Coefficient Demo.model Demo.fresh (Some "subject"%string) [] _ _
                eq_refl) as H.
  unfold declares_prior, Demo.model, Demo.cfg in H.
  cbn [declare_priors_ranef] in H.
  destruct H as (p & Hp & Hkl).
  exists p; split; [reflexivity|]; split; assumption.
Defined.

Lemma irf_l1_biases_kl_bookkeeping_witness :
  exists W b kl' pW pb,
    initialize_irf_l1_biases Demo.constraint_fn Demo.constraint_fn_inv Demo.sqrt_fn
      Demo.sn Demo.model Demo.fresh None [] = Ok (W, b, kl')
    /\ kl' = [] ++ [KL (q_dist W) pW; KL (q_dist b) pb].
Proof.
  eexists _, _, _.
  pose proof (irf_l1_biases_kl_bookkeeping
                Demo.constraint_fn Demo.constraint_fn_inv Demo.sqrt_fn Demo.sn
                Demo.model Demo.fresh None [] _ _ _ eq_refl) as H.
  unfold declares_prior, Demo.model, Demo.cfg in H.
  cbn [declare_priors_fixef] in H.
  destruct H as (pW & pb & _ & _ & Hkl).
  exists pW, pb; split; [reflexivity | exact Hkl].
Defined.

Lemma map_value_is_summary_witness :
  exists lat kl',
    build Demo.constraint_fn Demo.constraint_fn_inv Demo.sqrt_fn Demo.sn
      HBias Demo.model Demo.fresh (Some "subject"%string) [] = Ok (lat, kl')
    /\ value lat = summary lat.
Proof.
  eexists _, _. split; [reflexivity|].
  exact (proj1 (proj2 (map_value_is_summary
           Demo.constraint_fn Demo.constraint_fn_inv Demo.sqrt_fn Demo.sn
           HBias Demo.model Demo.fresh (Some "subject"%string) [] _ _ eq_refl) eq_refl)).
Defined.

Lemma posterior_scale_floor_witness :
  exists lat kl',
    build Demo.constraint_fn Demo.constraint_fn_inv Demo.sqrt_fn Demo.sn
      IrfL1WBias Demo.model Demo.fresh None [] = Ok (lat, kl')
    /\ Forall (fun x => (epsilon Demo.model <= x)%Qc) (data (scale (q_dist lat))).
Proof.
  eexists _, _. split; [reflexivity|].
  exact (posterior_scale_floor
           Demo.constraint_fn Demo.constraint_fn_inv Demo.sqrt_fn Demo.sn
           Qcabs_nonneg IrfL1WBias Demo.model Demo.fresh None [] _ _ eq_refl).
Defined.

(** ** Where the posteriors start *)

Section BuilderStart.

Variables constraint_fn constraint_fn_inv sqrt_fn : Qc -> Qc.
Variable sn : string -> string.

Let build := build constraint_fn constraint_fn_inv sqrt_fn sn.

Lemma tmul_scalar_fill (sh : list Z) (v c : Qc) (t : tensor) :
  tf_fill sh v = Ok t ->
  shape (tmul_scalar t c) = sh
  /\ List.length (data (tmul_scalar t c)) = Z.to_nat (numel sh).
Proof.
  intros H; apply tf_fill_inv in H; subst t; simpl.
  now rewrite length_map, repeat_length.
Qed.

(** X5.  At construction every posterior location but the fixed
    intercept's is a zero-filled tensor, so the summary is zero and so
    is the value in MAP mode; the raw scale variable has the same shape
    and as many entries as the shape asks for. *)
Theorem posterior_location_starts_at_zero (k : kind) (cfg : config) (s : session)
    (ran_gf : option string) (kl kl' : list kl_node) (lat : latent) :
  at_construction s ->
  ran_gf <> None \/ k <> Intercept ->
  build k cfg s ran_gf kl = Ok (lat, kl') ->
  exists sh,
    q_loc lat = zero_tensor sh
    /\ summary lat = zero_tensor sh
    /\ shape (q_scale lat) = sh
    /\ List.length (data (q_scale lat)) = Z.to_nat (numel sh)
    /\ (use_MAP_mode s = true -> value lat = zero_tensor sh).
Proof.
  intros Hs Hk H.
  destruct ran_gf as [gf|].
  - apply build_ranef_inv in H as (u & sd & n & z & o & _ & _ & _ & Hz & Ho & Hr).
    rewrite !tf_Variable_at_construction in Hr by assumption.
    match type of Hr with _ = posterior ?c ?cfg ?s ?l ?sc ?nm ?d ?p ?kl =>
      pose proof (posterior_fields c cfg s l sc nm d p kl) as (F1 & F2 & _ & F4 & F5 & _)
    end.
    rewrite <- Hr in F1, F2, F4, F5; simpl in F1, F2, F4, F5.
    exists (ranef_shape k n u).
    destruct (tmul_scalar_fill _ _ (constraint_fn_inv (ranef_seed k cfg sd)) _ Ho)
      as (S1 & S2).
    apply tf_fill_inv in Hz. rewrite F1, F4, F5, F2, Hz.
    repeat split; try assumption. now intros ->.
  - destruct Hk as [Hk|Hk]; [congruence|].
    apply build_fixef_inv in H as (u & sd & l0 & s0 & _ & _ & Hl & Hsc & Hr).
    rewrite !tf_Variable_at_construction in Hr by assumption.
    match type of Hr with _ = posterior ?c ?cfg ?s ?l ?sc ?nm ?d ?p ?kl =>
      pose proof (posterior_fields c cfg s l sc nm d p kl) as (F1 & F2 & _ & F4 & F5 & _)
    end.
    rewrite <- Hr in F1, F2, F4, F5; simpl in F1, F2, F4, F5.
    exists (fixef_shape k u).
    assert (Hl0 : l0 = zero_tensor (fixef_shape k u)).
    { destruct k; try congruence; simpl in Hl; now apply tf_fill_inv in Hl. }
    assert (Hs0 : shape s0 = fixef_shape k u
                  /\ List.length (data s0) = Z.to_nat (numel (fixef_shape k u))).
    { destruct k; try congruence; simpl in Hsc;
        apply bind_Ok_inv in Hsc as (o & Ho & Hsc); injection Hsc as <-;
        exact (tmul_scalar_fill _ _ _ _ Ho). }
    destruct Hs0 as (S1 & S2).
    rewrite F1, F4, F5, F2, Hl0.
    repeat split; try assumption. now intros ->.
Qed.


End BuilderStart.

Lemma posterior_location_starts_at_zero_witness :
  exists lat kl' sh,
    build Demo.constraint_fn Demo.constraint_fn_inv Demo.sqrt_fn Demo.sn
      HBias Demo.model Demo.fresh (Some "subject"%string) [] = Ok (lat, kl')
    /\ summary lat = zero_tensor sh.
Proof.
  assert (Hb : exists lat kl',
             build Demo.constraint_fn Demo.constraint_fn_inv Demo.sqrt_fn Demo.sn
               HBias Demo.model Demo.fresh (Some "subject"%string) [] = Ok (lat, kl'))
    by (eexists _, _; reflexivity).
  destruct Hb as (lat & kl' & Hb).
  assert (Hs : at_construction Demo.fresh) by (intros name; reflexivity).
  assert (Hk : Some "subject"%string <> None \/ HBias <> Intercept)
    by (left; discriminate).
  pose proof (posterior_location_starts_at_zero
                Demo.constraint_fn Demo.constraint_fn_inv Demo.sqrt_fn Demo.sn
                HBias Demo.model Demo.fresh (Some "subject"%string) [] kl' lat
                Hs Hk Hb) as H.
  destruct H as (sh & _ & Hsum & _).
  exists lat, kl', sh; split; assumption.
Defined.


(** ** Resolution of the prior scale *)

Lemma lower_ascii_idempotent (c : ascii) : lower_ascii (lower_ascii c) = lower_ascii c.
Proof.
  destruct c as [b0 b1 b2 b3 b4 b5 b6 b7].
  destruct b0, b1, b2, b3, b4, b5, b6, b7; reflexivity.
Qed.

Lemma lower_idempotent (s : string) : lower (lower s) = lower s.
Proof.
  induction s as [|c s IH]; simpl; [reflexivity|].
  now rewrite lower_ascii_idempotent, IH.
Qed.

(** X7.  The name of a heuristic is read case-insensitively, and
    ['glorot'] is another name of ['xavier']; a number is used as it
    is. *)
Theorem resolve_sd_prior_case_insensitive (sqrt_fn : Qc -> Qc) (s : string)
    (x : Qc) (units : Z) :
  resolve_sd_prior sqrt_fn (PyStr s) units = resolve_sd_prior sqrt_fn (PyStr (lower s)) units
  /\ resolve_sd_prior sqrt_fn (PyStr "glorot") units
     = resolve_sd_prior sqrt_fn (PyStr "xavier") units
  /\ resolve_sd_prior sqrt_fn (PyNum x) units = Ok x.
Proof.
  split; [|split; reflexivity].
  unfold resolve_sd_prior. now rewrite lower_idempotent.
Qed.

Lemma of_int_eq_0 (n : Z) : Qceqb (of_int n) 0%Qc = (n =? 0).
Proof.
  destruct (Z.eqb_spec n 0) as [->|Hn]; [reflexivity|].
  apply Qceqb_false. intros H. apply Hn.
  unfold of_int in H. apply Q2Qc_eq_iff in H.
  unfold Qeq in H; simpl in H. lia.
Qed.

Lemma two_over_negative (n : Z) : Qcltb (qc 2 1 / of_int n)%Qc 0%Qc = (n <? 0).
Proof.
  assert (Hq : (this (qc 2 1 / of_int n)%Qc == (2 # 1) * / inject_Z n)%Q).
  { unfold Qcdiv, Qcmult, Qcinv, of_int, qc, Q2Qc; cbn [this].
    rewrite !Qred_correct. reflexivity. }
  unfold Qcltb, Qccompare. rewrite Hq. change (this 0%Qc) with 0%Q.
  destruct n as [|p|p]; reflexivity.
Qed.

(** X8.  A heuristic prior scale is [math.sqrt(2 / n)], [n] being
    [units] for ['he'] and [units + 1] for ['xavier']: it raises
    [ZeroDivisionError] when [n] is 0 and a math domain [ValueError]
    when [n] is negative. *)
Theorem resolve_sd_prior_heuristics (sqrt_fn : Qc -> Qc) (units : Z) :
  resolve_sd_prior sqrt_fn (PyStr "he") units = heuristic_sd sqrt_fn units
  /\ resolve_sd_prior sqrt_fn (PyStr "xavier") units = heuristic_sd sqrt_fn (units + 1).
Proof.
  assert (H : forall n,
             (q <- py_div (qc 2 1) (of_int n) ;; math_sqrt sqrt_fn q)
             = heuristic_sd sqrt_fn n).
  { intros n. unfold py_div, heuristic_sd, math_sqrt.
    rewrite of_int_eq_0.
    destruct (Z.eqb_spec n 0) as [->|Hn]; [reflexivity|]. cbn [bind].
    rewrite two_over_negative.
    destruct (Z.compare_spec n 0) as [E|L|G]; [contradiction| |].
    - apply Z.ltb_lt in L; now rewrite L.
    - assert (Hge : (n <? 0) = false) by (apply Z.ltb_ge; lia). now rewrite Hge. }
  split; simpl; apply H.
Qed.

Section UnknownHeuristic.

Variables constraint_fn constraint_fn_inv sqrt_fn : Qc -> Qc.
Variable sn : string -> string.

(** X9.  When the prior scale a builder reads is a string that names no
    heuristic, the builder raises in both of its calls and returns no
    parameter; [initialize_intercept] reads neither scale. *)
Theorem unknown_heuristic_rejected (k : kind) (cfg : config) (s : session)
    (ran_gf : option string) (kl : list kl_node) (name : string) :
  kind_prior_spec k cfg = Some (PyStr name) ->
  lower name <> "xavier"%string -> lower name <> "glorot"%string ->
  lower name <> "he"%string ->
  exists e,
    build constraint_fn constraint_fn_inv sqrt_fn sn k cfg s ran_gf kl = Raise e.
Proof.
  intros Hspec Hx Hg Hh.
  assert (Hres : forall u, kind_sd_prior sqrt_fn k cfg u = Raise TypeError).
  { intros u. destruct k; simpl in Hspec; try discriminate;
      injection Hspec as Hspec; simpl; rewrite Hspec; unfold resolve_sd_prior;
      apply String.eqb_neq in Hx, Hg, Hh; now rewrite Hx, Hg, Hh. }
  destruct ran_gf as [gf|].
  - rewrite build_ranef_eq; unfold build_ranef.
    destruct (units_of k cfg) as [u|e]; cbn [bind]; [|eauto].
    rewrite Hres; cbn [bind]; eauto.
  - rewrite build_fixef_eq; unfold build_fixef.
    destruct (units_of k cfg) as [u|e]; cbn [bind]; [|eauto].
    rewrite Hres; cbn [bind]; eauto.
Qed.

End UnknownHeuristic.

Lemma unknown_heuristic_rejected_witness :
  exists e,
    build Demo.constraint_fn Demo.constraint_fn_inv Demo.sqrt_fn Demo.sn Coefficient
      DemoMeta.model_misspelt Demo.fresh None [] = Raise e.
Proof.
  apply (unknown_heuristic_rejected
           Demo.constraint_fn Demo.constraint_fn_inv Demo.sqrt_fn Demo.sn Coefficient
           DemoMeta.model_misspelt Demo.fresh None [] "Xavie").
  - reflexivity.
  - discriminate.
  - discriminate.
  - discriminate.
Defined.

(** ** Looking up a grouping factor *)

Lemma py_list_index_first (xs : list string) (x : string) :
  In x xs ->
  exists i : nat,
    py_list_index xs x = Ok (Z.of_nat i)
    /\ nth_error xs i = Some x
    /\ (forall j, (j < i)%nat -> nth_error xs j <> Some x).
Proof.
  induction xs as [|y ys IH]; simpl; intros Hin; [contradiction|].
  destruct (String.eqb_spec y x) as [->|Hne].
  - exists 0%nat; repeat split. intros j Hj; lia.
  - destruct Hin as [->|Hin]; [congruence|].
    destruct (IH Hin) as (i & -> & Hnth & Hfirst); cbn [bind].
    exists (S i). rewrite Nat2Z.inj_succ, <- Z.add_1_r.
    repeat split; [exact Hnth|].
    intros [|j] Hj; simpl; [congruence | apply Hfirst; lia].
Qed.

Lemma py_getitem_nat {A : Type} (xs : list A) (i : nat) :
  py_getitem xs (Z.of_nat i)
  = match nth_error xs i with Some a => Ok a | None => Raise IndexError end.
Proof.
  unfold py_getitem; cbv zeta.
  assert (H0 : (Z.of_nat i <? 0) = false) by (apply Z.ltb_ge; lia).
  rewrite H0; cbn [orb]. rewrite Nat2Z.id.
  destruct (nth_error xs i) as [a|] eqn:E.
  - assert (Hlt : (i < List.length xs)%nat) by (apply nth_error_Some; congruence).
    assert (Hle : (Z.of_nat (List.length xs) <=? Z.of_nat i) = false)
      by (apply Z.leb_gt; lia).
    now rewrite H0, Hle.
  - rewrite H0; destruct (Z.of_nat (List.length xs) <=? Z.of_nat i); reflexivity.
Qed.

(** X10.  For a registered grouping factor the builders read the level
    count stored at the position of its first occurrence in
    [self.rangf] and take one off; when [self.rangf_n_levels] has no
    entry at that position the lookup is an [IndexError]. *)
Theorem ranef_n_levels_lookup (cfg : config) (gf : string) :
  In gf (rangf cfg) ->
  exists i : nat,
    nth_error (rangf cfg) i = Some gf
    /\ (forall j, (j < i)%nat -> nth_error (rangf cfg) j <> Some gf)
    /\ ranef_n_levels cfg gf
       = match nth_error (rangf_n_levels cfg) i with
         | Some n => Ok (n - 1)
         | None => Raise IndexError
         end.
Proof.
  intros Hin.
  destruct (py_list_index_first (rangf cfg) gf Hin) as (i & Hi & Hnth & Hfirst).
  exists i. split; [exact Hnth|]. split; [exact Hfirst|].
  unfold ranef_n_levels. rewrite Hi; cbn [bind]. rewrite py_getitem_nat.
  destruct (nth_error (rangf_n_levels cfg) i); reflexivity.
Qed.

Lemma ranef_n_levels_lookup_witness :
  ranef_n_levels Demo.model "subject" = Ok 4.
Proof.
  destruct (ranef_n_levels_lookup Demo.model "subject") as (i & Hnth & _ & Hr).
  - simpl; left; reflexivity.
  - destruct i as [|i]; [exact Hr|].
    simpl in Hnth. destruct i; discriminate Hnth.
Defined.

(** * Further properties of the output model *)

Lemma Forall_mapi_from {A B : Type} (P : B -> Prop) (f : nat -> A -> B)
    (i : nat) (xs : list A) :
  (forall j x, P (f j x)) -> Forall P (mapi_from f i xs).
Proof.
  intros H; revert i; induction xs as [|x xs IH]; intros i; simpl; constructor; auto.
Qed.


Section OutputModelFacts.

Variables constraint_fn constraint_fn_inv : Qc -> Qc.
Variable sas_mean : Qc -> Qc -> Qc -> Qc -> Qc.
Variable sas_sample : Qc -> Qc -> Qc -> Qc -> Qc -> Qc.
Variable log_prob : dist1 -> Qc -> Qc.

Let output_model_of :=
  _initialize_output_model constraint_fn constraint_fn_inv sas_mean sas_sample log_prob.


(** X12.  A fixed error scale ([y_sd_trainable] off) is [y_sd_init] for
    every example and in the summary, in every session; it is not
    passed through the constraint, has no posterior, and is the scale
    of every predictive distribution (times the training standard
    deviation when the response is standardized). *)
Theorem fixed_y_sd (cfg : config) (s : session) (bb : backbone) (kl : list kl_node) :
  y_sd_trainable cfg = false ->
  let om := output_model_of cfg s bb kl in
  (forall i, y_sd om i = y_sd_init cfg)
  /\ y_sd_summary om = y_sd_init cfg
  /\ y_sd_dist om = None
  /\ Forall (fun d => d_scale d
                      = if standardize_response cfg
                        then (y_sd_init cfg * y_train_sd cfg)%Qc
                        else y_sd_init cfg) (out_dist om).
Proof.
  intros Ht. subst output_model_of; unfold _initialize_output_model; cbv zeta;
    cbn [y_sd y_sd_summary y_sd_dist out_dist].
  rewrite Ht. repeat split.
  destruct (standardize_response cfg); apply Forall_mapi_from; reflexivity.
Qed.


(** The constraint never returns a negative number. *)
Hypothesis constraint_fn_nonneg : forall x, (0 <= constraint_fn x)%Qc.


End OutputModelFacts.

Lemma fixed_y_sd_witness :
  y_sd_summary
    (_initialize_output_model Demo.constraint_fn Demo.constraint_fn_inv Demo.sas_mean
       Demo.sas_sample Demo.log_prob Demo.model_fixed_scale Demo.trained
       Demo.three_examples [])
  = y_sd_init Demo.model_fixed_scale.
Proof.
  exact (proj1 (proj2 (fixed_y_sd Demo.constraint_fn Demo.constraint_fn_inv
                         Demo.sas_mean Demo.sas_sample Demo.log_prob
                         Demo.model_fixed_scale Demo.trained Demo.three_examples []
                         eq_refl))).
Defined.



(** * Further properties of the drivers and the objective *)

Section DriverFacts.

Variables constraint_fn constraint_fn_inv sqrt_fn : Qc -> Qc.
Variable sas_mean : Qc -> Qc -> Qc -> Qc -> Qc.
Variable sas_sample : Qc -> Qc -> Qc -> Qc -> Qc -> Qc.
Variable log_prob : dist1 -> Qc -> Qc.
Variable kl_divergence : normal -> normal -> tensor.
Variable reg_name : string -> string.
Variable _regularize : regularizers -> tf_var -> string -> regularizers.

Let objective_of :=
  initialize_objective constraint_fn constraint_fn_inv sqrt_fn sas_mean sas_sample
    log_prob kl_divergence reg_name _regularize.
Let train_step :=
  run_train_step constraint_fn constraint_fn_inv sqrt_fn sas_mean sas_sample
    log_prob kl_divergence reg_name _regularize.
Let predict :=
  run_predict_op constraint_fn constraint_fn_inv sas_mean sas_sample log_prob.
Let loglik :=
  run_loglik_op constraint_fn constraint_fn_inv sqrt_fn sas_mean sas_sample
    log_prob kl_divergence reg_name _regularize.
Let loss :=
  run_loss_op constraint_fn constraint_fn_inv sqrt_fn sas_mean sas_sample
    log_prob kl_divergence reg_name _regularize.

(** X15.  For a model that does not standardize its response, the
    [standardize_response] argument of [run_predict_op] and of
    [run_loglik_op] changes nothing, and a prediction query in MAP mode
    with the Normal family returns the network's output. *)
Theorem unstandardized_model_ignores_flag (cfg : config) (s : session) (bb : backbone)
    (kl : list kl_node) (regs : regularizers) (layers : list layer) :
  standardize_response cfg = false ->
  predict cfg s bb true = predict cfg s bb false
  /\ loglik cfg s bb kl regs layers true = loglik cfg s bb kl regs layers false
  /\ (asymmetric_error cfg = false -> use_MAP_mode s = true ->
      predict cfg s bb false = out bb).
Proof.
  intros Hstd. subst predict loglik. unfold run_predict_op, run_loglik_op.
  rewrite Hstd; cbn [andb]. split; [reflexivity|]. split; [reflexivity|].
  intros Ha Hm.
  unfold _initialize_output_model, select_batch, mapi, tf_cond; cbv zeta;
    cbn [out_after].
  rewrite Hstd, Ha, Hm.
  now rewrite (map_mean_mapi_normal sas_mean (fun o => o)), map_id.
Qed.

End DriverFacts.

Lemma unstandardized_model_ignores_flag_witness :
  run_predict_op Demo.constraint_fn Demo.constraint_fn_inv Demo.sas_mean
    Demo.sas_sample Demo.log_prob DemoMeta.model_raw Demo.fresh Demo.three_examples true
  = out Demo.three_examples.
Proof.
  destruct (unstandardized_model_ignores_flag
              Demo.constraint_fn Demo.constraint_fn_inv Demo.sqrt_fn Demo.sas_mean
              Demo.sas_sample Demo.log_prob Demo.kl_divergence Demo.reg_name
              Demo._regularize DemoMeta.model_raw Demo.fresh Demo.three_examples []
              Demo.no_regularizers [] eq_refl) as (H1 & _ & H3).
  rewrite H1. exact (H3 eq_refl eq_refl).
Defined.

(** ** Which variables are regularized *)

Lemma prefix_app (a b : string) :
  String.prefix a b = true <-> exists post, b = (a ++ post)%string.
Proof.
  revert b; induction a as [|c a IH]; intros b; simpl.
  - split; [intros _; exists b; reflexivity | intros _; destruct b; reflexivity].
  - destruct b as [|d b]; simpl.
    + split; [discriminate | intros (post & H); discriminate H].
    + destruct (ascii_dec c d) as [->|Hne].
      * rewrite IH. split; intros (post & H); exists post; [now rewrite H | now injection H].
      * split; [discriminate | intros (post & H); injection H; congruence].
Qed.

Lemma prefix_contains (sub s : string) : String.prefix sub s = true -> contains sub s = true.
Proof. destruct s; cbn [contains]; intros H; [exact H | now rewrite H]. Qed.

Lemma contains_spec (sub s : string) : contains sub s = true <-> occurs_in sub s.
Proof.
  unfold occurs_in; split.
  - induction s as [|c s IH]; cbn [contains]; intros H.
    + apply prefix_app in H as (post & H). exists EmptyString, post; exact H.
    + apply orb_true_iff in H as [H|H].
      * apply prefix_app in H as (post & H). exists EmptyString, post; exact H.
      * destruct (IH H) as (pre & post & ->). exists (String c pre), post; reflexivity.
  - intros (pre & post & ->). induction pre as [|c pre IH].
    + apply prefix_contains, prefix_app. exists post; reflexivity.
    + change (String c pre ++ sub ++ post)%string
        with (String c (pre ++ sub ++ post))%string.
      cbn [contains]. rewrite IH. apply orb_true_r.
Qed.

Lemma fold_left_filter {A B : Type} (f : A -> B -> A) (p : B -> bool) (xs : list B) (a : A) :
  fold_left (fun a x => if p x then f a x else a) xs a = fold_left f (filter p xs) a.
Proof.
  revert a; induction xs as [|x xs IH]; intros a; simpl; [reflexivity|].
  destruct (p x); simpl; apply IH.
Qed.

(** X16.  Assembling the objective regularizes, in order, exactly the
    variables of the regularizable layers whose name holds no
    occurrence of ['bias']; the others never reach [_regularize]. *)
Theorem regularize_layers_skips_bias (reg_name : string -> string)
    (_regularize : regularizers -> tf_var -> string -> regularizers)
    (layers : list layer) (regs : regularizers) :
  regularize_layers reg_name _regularize layers regs
  = fold_left (fun regs v => _regularize regs v (reg_name (v_name v)))
      (filter (fun v => negb (contains "bias" (v_name v))) (layer_vars layers)) regs
  /\ (forall v, In v (filter (fun v => negb (contains "bias" (v_name v)))
                        (layer_vars layers))
                <-> In v (layer_vars layers) /\ ~ occurs_in "bias" (v_name v)).
Proof.
  split.
  - unfold regularize_layers, layer_vars. revert regs.
    induction layers as [|l layers IH]; intros regs; [reflexivity|].
    cbn [fold_left flat_map]. rewrite filter_app, fold_left_app, IH.
    f_equal. destruct l; apply fold_left_filter.
  - intros v. rewrite filter_In, negb_true_iff, <- contains_spec.
    destruct (contains "bias" (v_name v)); intuition congruence.
Qed.

(** * Further properties of the outlier filter *)

Section FilterEdges.

Variable sqrt_fn : Qc -> Qc.

Lemma zero_dropped_all_below (cutoff : Qc) (losses : list Qc) :
  Forall (fun l => Qcltb l cutoff = true) losses ->
  zero_dropped cutoff losses = losses
  /\ retained cutoff losses = losses
  /\ dropped_count cutoff losses = 0%nat.
Proof.
  unfold zero_dropped, retained, dropped_count.
  induction 1 as [|l ls Hl _ (IH1 & IH2 & IH3)]; [repeat split|].
  cbn [map filter]. rewrite Hl; cbn [negb]. rewrite IH1, IH2, IH3. repeat split.
Qed.


(** X17.  Until the global step exceeds the warm-up the filter leaves
    the loss as it is and folds into the loss EMA the mean over the
    whole batch; [n_dropped] is computed all the same and counts the
    examples at or above the cutoff. *)
Theorem filter_before_warm_up (cfg : config) (s : session) (bb : backbone)
    (losses : list Qc) (n_sds beta : Qc) :
  loss_filter_n_sds cfg = Some n_sds -> n_sds <> 0%Qc ->
  ema_decay cfg = Some beta -> beta <> 0%Qc -> beta <> 1%Qc ->
  global_batch_step bb <= py_int (qc 2 1 / (1 - beta))%Qc ->
  let loss_ema := item (tf_Variable s (scalar 0%Qc) "loss_ema") in
  let loss_sd_ema := item (tf_Variable s (scalar 0%Qc) "loss_sd_ema") in
  let cutoff := (loss_ema + n_sds * loss_sd_ema)%Qc in
  exists f,
    filter_losses sqrt_fn cfg s bb losses = Ok (losses, Some f)
    /\ n_retained f = of_int (Z.of_nat (List.length losses))
    /\ loss_mean_cur f = unfiltered_loss_mean cfg losses
    /\ loss_ema_op f = (beta * loss_ema + (1 - beta) * unfiltered_loss_mean cfg losses)%Qc
    /\ n_dropped f = of_int (Z.of_nat (dropped_count cutoff losses)).
Proof.
  intros Hn Hn0 Hb Hb0 Hb1 Hcold loss_ema loss_sd_ema cutoff.
  unfold filter_losses. rewrite Hn, Hb; simpl truthy.
  rewrite !Qceqb_false by assumption; simpl andb; cbv iota.
  rewrite py_div_Ok by (now apply one_minus_nonzero); simpl bind.
  fold loss_ema loss_sd_ema; fold cutoff.
  apply Z.ltb_ge in Hcold; rewrite Hcold; unfold tf_cond.
  rewrite n_retained_count, n_dropped_count.
  eexists; split; [reflexivity|]; simpl; repeat split.
Qed.

(** X18.  After the warm-up, a batch whose every loss is below the
    cutoff passes the filter unchanged: nothing is dropped and the mean
    folded into the loss EMA is the mean over the whole batch. *)
Theorem filter_keeps_batch_below_cutoff (cfg : config) (s : session) (bb : backbone)
    (losses : list Qc) (n_sds beta : Qc) :
  loss_filter_n_sds cfg = Some n_sds -> n_sds <> 0%Qc ->
  ema_decay cfg = Some beta -> beta <> 0%Qc -> beta <> 1%Qc ->
  py_int (qc 2 1 / (1 - beta))%Qc < global_batch_step bb ->
  let loss_ema := item (tf_Variable s (scalar 0%Qc) "loss_ema") in
  let loss_sd_ema := item (tf_Variable s (scalar 0%Qc) "loss_sd_ema") in
  Forall (fun l => Qcltb l (loss_ema + n_sds * loss_sd_ema)%Qc = true) losses ->
  exists f,
    filter_losses sqrt_fn cfg s bb losses = Ok (losses, Some f)
    /\ n_dropped f = 0%Qc
    /\ loss_mean_cur f = unfiltered_loss_mean cfg losses.
Proof.
  intros Hn Hn0 Hb Hb0 Hb1 Hwarm loss_ema loss_sd_ema Hall.
  destruct (filter_losses_warm sqrt_fn cfg s bb losses n_sds beta
              Hn Hn0 Hb Hb0 Hb1 Hwarm) as (f & Hf & _ & _ & Hd & Hm & _).
  fold loss_ema loss_sd_ema in Hf, Hd, Hm.
  destruct (zero_dropped_all_below _ _ Hall) as (Z1 & Z2 & Z3).
  rewrite Z1 in Hf. rewrite Z3 in Hd. rewrite Z2 in Hm.
  exists f; repeat split; assumption.
Qed.


End FilterEdges.

Lemma filter_before_warm_up_witness :
  exists f,
    filter_losses Demo.sqrt_fn Demo.model_filtered Demo.trained Demo.one_example
      [1%Qc; qc 7 1] = Ok ([1%Qc; qc 7 1], Some f)
    /\ loss_mean_cur f = unfiltered_loss_mean Demo.model_filtered [1%Qc; qc 7 1].
Proof.
  destruct (filter_before_warm_up Demo.sqrt_fn Demo.model_filtered Demo.trained
              Demo.one_example [1%Qc; qc 7 1] (qc 2 1) (qc 1 2))
    as (f & Hf & _ & Hm & _).
  - reflexivity.
  - intros H; qc_differ H.
  - reflexivity.
  - intros H; qc_differ H.
  - intros H; qc_differ H.
  - vm_compute; discriminate.
  - exists f; split; assumption.
Defined.

Lemma filter_keeps_batch_below_cutoff_witness :
  exists f,
    filter_losses Demo.sqrt_fn Demo.model_filtered Demo.trained Demo.three_examples
      [1%Qc; qc 2 1] = Ok ([1%Qc; qc 2 1], Some f)
    /\ n_dropped f = 0%Qc.
Proof.
  destruct (filter_keeps_batch_below_cutoff Demo.sqrt_fn Demo.model_filtered
              Demo.trained Demo.three_examples [1%Qc; qc 2 1] (qc 2 1) (qc 1 2))
    as (f & Hf & Hd & _).
  - reflexivity.
  - intros H; qc_differ H.
  - reflexivity.
  - intros H; qc_differ H.
  - intros H; qc_differ H.
  - vm_compute; reflexivity.
  - repeat constructor; vm_compute; reflexivity.
  - exists f; split; assumption.
Defined.


(** * Further properties of the objective *)

Lemma length_zero_dropped (cutoff : Qc) (losses : list Qc) :
  List.length (zero_dropped cutoff losses) = List.length losses.
Proof. unfold zero_dropped; apply length_map. Qed.

Section ObjectiveMore.

Variables constraint_fn constraint_fn_inv sqrt_fn : Qc -> Qc.
Variable sas_mean : Qc -> Qc -> Qc -> Qc -> Qc.
Variable sas_sample : Qc -> Qc -> Qc -> Qc -> Qc -> Qc.
Variable log_prob : dist1 -> Qc -> Qc.
Variable kl_divergence : normal -> normal -> tensor.
Variable reg_name : string -> string.
Variable _regularize : regularizers -> tf_var -> string -> regularizers.

Let objective_of :=
  initialize_objective constraint_fn constraint_fn_inv sqrt_fn sas_mean sas_sample
    log_prob kl_divergence reg_name _regularize.
Let train_step :=
  run_train_step constraint_fn constraint_fn_inv sqrt_fn sas_mean sas_sample
    log_prob kl_divergence reg_name _regularize.
Let loglik :=
  run_loglik_op constraint_fn constraint_fn_inv sqrt_fn sas_mean sas_sample
    log_prob kl_divergence reg_name _regularize.
Let loss :=
  run_loss_op constraint_fn constraint_fn_inv sqrt_fn sas_mean sas_sample
    log_prob kl_divergence reg_name _regularize.

(** The objective that was built is the one [initialize_objective_spec]
    describes. *)
Lemma initialize_objective_fields (cfg : config) (s : session) (bb : backbone)
    (kl : list kl_node) (regs : regularizers) (layers : list layer) (obj : objective) :
  objective_of cfg s bb kl regs layers = Ok obj ->
  filter_losses sqrt_fn cfg s bb (map Qcopp (ll obj))
  = Ok (per_example_loss obj, filter_stats obj)
  /\ likelihood_loss obj = nll_term cfg (per_example_loss obj)
  /\ kl_loss obj = total_kl kl_divergence (penalties obj)
  /\ reg_loss obj = (layer_penalty (regs_after obj) + kl_loss obj)%Qc
  /\ loss_func obj = (likelihood_loss obj + reg_loss obj)%Qc.
Proof.
  intros Hobj.
  destruct (initialize_objective_inv _ _ _ _ _ _ _ _ _ cfg s bb kl regs layers obj Hobj)
    as (o & losses & fs & Ho & Hf & Hsum).
  destruct (initialize_objective_spec constraint_fn constraint_fn_inv sqrt_fn sas_mean
              sas_sample log_prob kl_divergence reg_name _regularize cfg s bb kl regs
              layers o losses fs Ho Hf Hsum)
    as (obj' & Hobj' & Hll & Hpe & Hfs & Hp & Hr & Hlik & Hkl & Hreg & Hloss).
  fold objective_of in Hobj'. rewrite Hobj in Hobj'; injection Hobj' as <-.
  rewrite <- Hp, <- Hr in *. rewrite Hll, Hpe, Hfs.
  split; [exact Hf|]. split; [exact Hlik|].
  unfold layer_penalty in *.
  destruct (penalties obj) as [|p ps];
    destruct (regularizer_losses_varnames (regs_after obj));
    rewrite Hreg, Hloss, Hkl; unfold total_kl; cbn [map reduce_sum fold_right];
    repeat split; ring.
Qed.

(** X20.  Whenever the objective is built, in every configuration, the
    reported [reg_loss] is the layer penalty plus the total KL
    divergence of the penalty list, and the total loss is the
    likelihood term plus [reg_loss]. *)
Theorem loss_decomposition (cfg : config) (s : session) (bb : backbone)
    (kl : list kl_node) (regs : regularizers) (layers : list layer) (obj : objective) :
  objective_of cfg s bb kl regs layers = Ok obj ->
  kl_loss obj = total_kl kl_divergence (penalties obj)
  /\ reg_loss obj = (layer_penalty (regs_after obj) + kl_loss obj)%Qc
  /\ loss_func obj = (likelihood_loss obj + reg_loss obj)%Qc
  /\ penalties obj
     = om_kl_penalties
         (_initialize_output_model constraint_fn constraint_fn_inv sas_mean
            sas_sample log_prob cfg s bb kl)
  /\ regs_after obj = regularize_layers reg_name _regularize layers regs.
Proof.
  intros Hobj.
  destruct (initialize_objective_fields cfg s bb kl regs layers obj Hobj)
    as (_ & _ & Hkl & Hreg & Hloss).
  destruct (initialize_objective_inv _ _ _ _ _ _ _ _ _ cfg s bb kl regs layers obj Hobj)
    as (o & losses & fs & Ho & Hf & Hsum).
  destruct (initialize_objective_spec constraint_fn constraint_fn_inv sqrt_fn sas_mean
              sas_sample log_prob kl_divergence reg_name _regularize cfg s bb kl regs
              layers o losses fs Ho Hf Hsum)
    as (obj' & Hobj' & _ & _ & _ & Hp & Hr & _).
  fold objective_of in Hobj'. rewrite Hobj in Hobj'; injection Hobj' as <-.
  repeat split; assumption.
Qed.


(** X22.  When the outlier filter has dropped examples, the likelihood
    term of the objective still divides by the size of the whole batch:
    after the warm-up it is the sum of the retained losses over the
    batch size (or that sum times [minibatch_scale] under
    [scale_loss_with_data]). *)
Theorem filtered_likelihood_term (cfg : config) (s : session) (bb : backbone)
    (kl : list kl_node) (regs : regularizers) (layers : list layer) (obj : objective)
    (n_sds beta : Qc) :
  objective_of cfg s bb kl regs layers = Ok obj ->
  loss_filter_n_sds cfg = Some n_sds -> n_sds <> 0%Qc ->
  ema_decay cfg = Some beta -> beta <> 0%Qc -> beta <> 1%Qc ->
  py_int (qc 2 1 / (1 - beta))%Qc < global_batch_step bb ->
  let loss_ema := item (tf_Variable s (scalar 0%Qc) "loss_ema") in
  let loss_sd_ema := item (tf_Variable s (scalar 0%Qc) "loss_sd_ema") in
  let kept := retained (loss_ema + n_sds * loss_sd_ema)%Qc (map Qcopp (ll obj)) in
  likelihood_loss obj
  = if scale_loss_with_data cfg then (reduce_sum kept * minibatch_scale cfg)%Qc
    else (reduce_sum kept / of_int (Z.of_nat (List.length (ll obj))))%Qc.
Proof.
  intros Hobj Hn Hn0 Hb Hb0 Hb1 Hwarm loss_ema loss_sd_ema kept.
  destruct (initialize_objective_fields cfg s bb kl regs layers obj Hobj)
    as (Hf & Hlik & _).
  destruct (filter_losses_warm sqrt_fn cfg s bb (map Qcopp (ll obj)) n_sds beta
              Hn Hn0 Hb Hb0 Hb1 Hwarm) as (f & Hf' & _).
  rewrite Hf in Hf'. injection Hf' as Hpe _.
  rewrite Hlik, Hpe. unfold nll_term, reduce_mean.
  rewrite zero_dropped_sum, length_zero_dropped, length_map. reflexivity.
Qed.

(** X23.  The dictionary a train step returns has the keys ['loss'] and
    ['reg_loss'], preceded by ['n_dropped'] exactly when
    [loss_filter_n_sds] is set, each with a value, however many other
    operations the step fetches. *)
Theorem train_step_keys (cfg : config) (s : session) (bb : backbone)
    (kl : list kl_node) (regs : regularizers) (layers : list layer) (obj : objective) :
  objective_of cfg s bb kl regs layers = Ok obj ->
  (truthy (loss_filter_n_sds cfg) = true -> truthy (ema_decay cfg) = true) ->
  exists d,
    train_step cfg s bb kl regs layers = Ok d
    /\ map fst d
       = (if truthy (loss_filter_n_sds cfg)
          then ["n_dropped"; "loss"; "reg_loss"]
          else ["loss"; "reg_loss"])%string
    /\ Forall (fun kv => snd kv <> None) d.
Proof.
  intros Hobj Hcfg.
  destruct (initialize_objective_fields cfg s bb kl regs layers obj Hobj)
    as (Hf & _).
  subst train_step objective_of; unfold run_train_step.
  rewrite Hobj; cbn [bind].
  set (P := if asymmetric_error cfg then _ else _); clearbody P.
  destruct (truthy (loss_filter_n_sds cfg)) eqn:Et.
  - destruct (filter_stats_Some sqrt_fn cfg s bb _ _ _ Hf) as (f & Hfs).
    { now rewrite Et, (Hcfg eq_refl). }
    rewrite Hfs. cbn [bind fst snd app].
    rewrite <- app_assoc; cbn [app].
    change (P ++ [Some (loss_ema_op f); Some (loss_sd_ema_op f); Some (n_dropped f);
                  Some (loss_func obj); Some (reg_loss obj)])
      with (P ++ [Some (loss_ema_op f); Some (loss_sd_ema_op f)]
              ++ [Some (n_dropped f); Some (loss_func obj); Some (reg_loss obj)]).
    rewrite app_assoc.
    change (List.length ["n_dropped"%string; "loss"%string; "reg_loss"%string])
      with (List.length [Some (n_dropped f); Some (loss_func obj); Some (reg_loss obj)]).
    rewrite py_last_app.
    eexists; split; [reflexivity|]; split; [reflexivity|].
    repeat constructor; discriminate.
  - cbn [bind fst snd app].
    change (List.length ["loss"%string; "reg_loss"%string])
      with (List.length [Some (loss_func obj); Some (reg_loss obj)]).
    rewrite py_last_app.
    eexists; split; [reflexivity|]; split; [reflexivity|].
    repeat constructor; discriminate.
Qed.

(** X24.  With the outlier filter off, no regularizer loss registered,
    an empty KL-penalty list and no data scaling, a loss query returns
    the mean of the negated log-likelihoods that a log-likelihood query
    returns. *)
Theorem loss_is_negated_mean_loglik (cfg : config) (s : session) (bb : backbone)
    (kl : list kl_node) (regs : regularizers) (layers : list layer) (obj : objective) :
  objective_of cfg s bb kl regs layers = Ok obj ->
  (truthy (loss_filter_n_sds cfg) && truthy (ema_decay cfg))%bool = false ->
  regularizer_losses_varnames (regs_after obj) = [] ->
  penalties obj = [] ->
  scale_loss_with_data cfg = false ->
  loglik cfg s bb kl regs layers false = Ok (ll obj)
  /\ loss cfg s bb kl regs layers = Ok (reduce_mean (map Qcopp (ll obj))).
Proof.
  intros Hobj Hoff Hv Hk Hsc.
  destruct (initialize_objective_fields cfg s bb kl regs layers obj Hobj)
    as (Hf & Hlik & Hkl & Hreg & Hloss).
  subst loglik loss; unfold run_loglik_op, run_loss_op.
  fold objective_of. rewrite Hobj; cbn [bind]. rewrite andb_false_r.
  split; [reflexivity|]. f_equal.
  rewrite (filter_losses_off sqrt_fn cfg s bb _ Hoff) in Hf. injection Hf as Hpe _.
  rewrite Hloss, Hreg, Hkl, Hlik, Hk, <- Hpe. unfold layer_penalty, nll_term, total_kl.
  rewrite Hv, Hsc. cbn [map reduce_sum fold_right]. ring.
Qed.

End ObjectiveMore.

Lemma loss_decomposition_witness :
  exists obj,
    initialize_objective Demo.constraint_fn Demo.constraint_fn_inv Demo.sqrt_fn
      Demo.sas_mean Demo.sas_sample Demo.log_prob Demo.kl_divergence Demo.reg_name
      Demo._regularize Demo.model Demo.fresh Demo.one_example []
      Demo.no_regularizers [Bare (mkVar "kernel")] = Ok obj
    /\ loss_func obj = (likelihood_loss obj + reg_loss obj)%Qc.
Proof.
  assert (Hb : exists obj,
             initialize_objective Demo.constraint_fn Demo.constraint_fn_inv
               Demo.sqrt_fn Demo.sas_mean Demo.sas_sample Demo.log_prob
               Demo.kl_divergence Demo.reg_name Demo._regularize Demo.model Demo.fresh
               Demo.one_example [] Demo.no_regularizers [Bare (mkVar "kernel")]
             = Ok obj) by (eexists; reflexivity).
  destruct Hb as (obj & Hb). exists obj; split; [exact Hb|].
  exact (proj1 (proj2 (proj2 (loss_decomposition
           Demo.constraint_fn Demo.constraint_fn_inv Demo.sqrt_fn Demo.sas_mean
           Demo.sas_sample Demo.log_prob Demo.kl_divergence Demo.reg_name
           Demo._regularize Demo.model Demo.fresh Demo.one_example []
           Demo.no_regularizers [Bare (mkVar "kernel")] obj Hb)))).
Defined.


Lemma filtered_likelihood_term_witness :
  exists obj,
    initialize_objective Demo.constraint_fn Demo.constraint_fn_inv Demo.sqrt_fn
      Demo.sas_mean Demo.sas_sample Demo.log_prob Demo.kl_divergence Demo.reg_name
      Demo._regularize Demo.model_filtered Demo.trained Demo.three_examples []
      Demo.no_regularizers [] = Ok obj
    /\ likelihood_loss obj
       = (reduce_sum (retained (qc 3 1 + qc 2 1 * 1)%Qc (map Qcopp (ll obj)))
          / of_int (Z.of_nat (List.length (ll obj))))%Qc.
Proof.
  assert (Hb : exists obj,
             initialize_objective Demo.constraint_fn Demo.constraint_fn_inv
               Demo.sqrt_fn Demo.sas_mean Demo.sas_sample Demo.log_prob
               Demo.kl_divergence Demo.reg_name Demo._regularize Demo.model_filtered
               Demo.trained Demo.three_examples [] Demo.no_regularizers []
             = Ok obj) by (eexists; reflexivity).
  destruct Hb as (obj & Hb). exists obj; split; [exact Hb|].
  assert (H2 : qc 2 1 <> 0%Qc) by (intros H; qc_differ H).
  assert (Hh0 : qc 1 2 <> 0%Qc) by (intros H; qc_differ H).
  assert (Hh1 : qc 1 2 <> 1%Qc) by (intros H; qc_differ H).
  assert (Hw : py_int (qc 2 1 / (1 - qc 1 2))%Qc
               < global_batch_step Demo.three_examples) by (vm_compute; reflexivity).
  exact (filtered_likelihood_term
           Demo.constraint_fn Demo.constraint_fn_inv Demo.sqrt_fn Demo.sas_mean
           Demo.sas_sample Demo.log_prob Demo.kl_divergence Demo.reg_name
           Demo._regularize Demo.model_filtered Demo.trained Demo.three_examples []
           Demo.no_regularizers [] obj (qc 2 1) (qc 1 2)
           Hb eq_refl H2 eq_refl Hh0 Hh1 Hw).
Defined.

Lemma train_step_keys_witness :
  exists d,
    run_train_step Demo.constraint_fn Demo.constraint_fn_inv Demo.sqrt_fn
      Demo.sas_mean Demo.sas_sample Demo.log_prob Demo.kl_divergence Demo.reg_name
      Demo._regularize Demo.model_filtered Demo.trained Demo.three_examples []
      Demo.no_regularizers [] = Ok d
    /\ map fst d = ["n_dropped"; "loss"; "reg_loss"]%string.
Proof.
  assert (Hb : exists obj,
             initialize_objective Demo.constraint_fn Demo.constraint_fn_inv
               Demo.sqrt_fn Demo.sas_mean Demo.sas_sample Demo.log_prob
               Demo.kl_divergence Demo.reg_name Demo._regularize Demo.model_filtered
               Demo.trained Demo.three_examples [] Demo.no_regularizers []
             = Ok obj) by (eexists; reflexivity).
  destruct Hb as (obj & Hb).
  destruct (train_step_keys
              Demo.constraint_fn Demo.constraint_fn_inv Demo.sqrt_fn Demo.sas_mean
              Demo.sas_sample Demo.log_prob Demo.kl_divergence Demo.reg_name
              Demo._regularize Demo.model_filtered Demo.trained Demo.three_examples []
              Demo.no_regularizers [] obj Hb (fun _ => eq_refl))
    as (d & Hd & Hkeys & _).
  exists d; split; [exact Hd | exact Hkeys].
Defined.

Lemma loss_is_negated_mean_loglik_witness :
  exists obj,
    initialize_objective Demo.constraint_fn Demo.constraint_fn_inv Demo.sqrt_fn
      Demo.sas_mean Demo.sas_sample Demo.log_prob Demo.kl_divergence Demo.reg_name
      Demo._regularize Demo.model_fixed_scale Demo.fresh Demo.three_examples []
      Demo.no_regularizers [] = Ok obj
    /\ run_loss_op Demo.constraint_fn Demo.constraint_fn_inv Demo.sqrt_fn
         Demo.sas_mean Demo.sas_sample Demo.log_prob Demo.kl_divergence Demo.reg_name
         Demo._regularize Demo.model_fixed_scale Demo.fresh Demo.three_examples []
         Demo.no_regularizers [] = Ok (reduce_mean (map Qcopp (ll obj))).
Proof.
  assert (Hb : exists obj,
             initialize_objective Demo.constraint_fn Demo.constraint_fn_inv
               Demo.sqrt_fn Demo.sas_mean Demo.sas_sample Demo.log_prob
               Demo.kl_divergence Demo.reg_name Demo._regularize
               Demo.model_fixed_scale Demo.fresh Demo.three_examples []
               Demo.no_regularizers [] = Ok obj
             /\ regularizer_losses_varnames (regs_after obj) = []
             /\ penalties obj = [])
    by (eexists; split; [reflexivity | split; reflexivity]).
  destruct Hb as (obj & Hb & Hv & Hk). exists obj; split; [exact Hb|].
  exact (proj2 (loss_is_negated_mean_loglik
           Demo.constraint_fn Demo.constraint_fn_inv Demo.sqrt_fn Demo.sas_mean
           Demo.sas_sample Demo.log_prob Demo.kl_divergence Demo.reg_name
           Demo._regularize Demo.model_fixed_scale Demo.fresh Demo.three_examples []
           Demo.no_regularizers [] obj Hb eq_refl Hv Hk eq_refl)).
Defined.

(** * Properties of the saved-model metadata *)

Section MetadataFacts.

Variable V : Type.

Local Abbreviation dict := (dict V).
Local Abbreviation kwarg := (kwarg V).

Lemma dict_get_set_same (d : dict) (k : string) (v : V) :
  dict_get (dict_set V d k v) k = Some v.
Proof.
  induction d as [|[k' v'] d IH]; simpl.
  - now rewrite String.eqb_refl.
  - destruct (String.eqb_spec k' k) as [->|Hne]; simpl.
    + now rewrite String.eqb_refl.
    + apply String.eqb_neq in Hne; now rewrite Hne.
Qed.

Lemma dict_get_set_other (d : dict) (k k' : string) (v : V) :
  k' <> k -> dict_get (dict_set V d k v) k' = dict_get d k'.
Proof.
  intros Hne. induction d as [|[k0 v0] d IH]; simpl.
  - destruct (String.eqb_spec k k'); [congruence | reflexivity].
  - destruct (String.eqb_spec k0 k) as [->|Hk]; simpl.
    + destruct (String.eqb_spec k k'); [congruence | reflexivity].
    + destruct (String.eqb_spec k0 k'); [reflexivity | exact IH].
Qed.

Lemma dict_get_remove_same (d : dict) (k : string) :
  dict_get (dict_remove V d k) k = None.
Proof.
  induction d as [|[k0 v0] d IH]; simpl; [reflexivity|].
  destruct (String.eqb_spec k0 k) as [->|Hk]; simpl; [exact IH|].
  apply String.eqb_neq in Hk; now rewrite Hk.
Qed.

Lemma dict_get_remove_other (d : dict) (k k' : string) :
  k' <> k -> dict_get (dict_remove V d k) k' = dict_get d k'.
Proof.
  intros Hne. induction d as [|[k0 v0] d IH]; simpl; [reflexivity|].
  destruct (String.eqb_spec k0 k) as [->|Hk]; simpl.
  - destruct (String.eqb_spec k k'); [congruence | exact IH].
  - destruct (String.eqb_spec k0 k'); [reflexivity | exact IH].
Qed.

Lemma dict_get_None (d : dict) (k : string) :
  dict_get d k = None <-> ~ In k (map fst d).
Proof.
  induction d as [|[k0 v0] d IH]; simpl; [tauto|].
  destruct (String.eqb_spec k0 k) as [->|Hk].
  - split; [discriminate | intros H; exfalso; apply H; now left].
  - rewrite IH. tauto.
Qed.

(** What the loop of [_unpack_metadata] leaves in [md] and on [self]. *)
Lemma pop_kwargs_md (kwargs : list kwarg) (self md : dict) (k : string) :
  dict_get (snd (pop_kwargs V kwargs self md)) k
  = if in_dec string_dec k (map key kwargs) then None else dict_get md k.
Proof.
  unfold pop_kwargs. revert self md.
  induction kwargs as [|kw kwargs IH]; intros self md; cbn [fold_left map].
  - destruct (in_dec string_dec k []) as [[]|]; reflexivity.
  - unfold dict_pop at 2; cbn [fst snd]. rewrite IH.
    destruct (in_dec string_dec k (map key kwargs)) as [Hin|Hnin];
      destruct (in_dec string_dec k (key kw :: map key kwargs)) as [Hin'|Hnin'];
      try reflexivity.
    + exfalso; apply Hnin'; now right.
    + destruct Hin' as [->|Hin']; [apply dict_get_remove_same | contradiction].
    + apply dict_get_remove_other. intros ->; apply Hnin'; now left.
Qed.

Lemma pop_kwargs_self_other (kwargs : list kwarg) (self md : dict) (k : string) :
  ~ In k (map key kwargs) ->
  dict_get (fst (pop_kwargs V kwargs self md)) k = dict_get self k.
Proof.
  unfold pop_kwargs. revert self md.
  induction kwargs as [|kw kwargs IH]; intros self md Hn; cbn [fold_left map] in *;
    [reflexivity|].
  unfold dict_pop at 2; cbn [fst snd]. rewrite IH by (intros H; apply Hn; now right).
  apply dict_get_set_other. intros ->; apply Hn; now left.
Qed.

Lemma pop_kwargs_self (kwargs : list kwarg) (self md : dict) (kw : kwarg) :
  NoDup (map key kwargs) -> In kw kwargs ->
  dict_get (fst (pop_kwargs V kwargs self md)) (key kw)
  = Some (match dict_get md (key kw) with Some v => v | None => default_value kw end).
Proof.
  unfold pop_kwargs. revert self md.
  induction kwargs as [|kw0 kwargs IH]; intros self md Hnd Hin; [contradiction|].
  cbn [fold_left map] in *. inversion Hnd as [|? ? Hnotin Hnd']; subst.
  unfold dict_pop at 2; cbn [fst snd].
  destruct Hin as [->|Hin].
  - fold (pop_kwargs V kwargs
            (setattr V self (key kw)
               match dict_get md (key kw) with Some v => v | None => default_value kw end)
            (dict_remove V md (key kw))).
    rewrite pop_kwargs_self_other by assumption.
    apply dict_get_set_same.
  - rewrite IH by assumption.
    rewrite dict_get_remove_other; [reflexivity|].
    intros E. apply Hnotin. rewrite <- E. now apply in_map.
Qed.

Lemma pop_kwargs_self_set (kwargs : list kwarg) (self md : dict) (k : string) :
  In k (map key kwargs) -> dict_get (fst (pop_kwargs V kwargs self md)) k <> None.
Proof.
  unfold pop_kwargs. revert self md.
  induction kwargs as [|kw0 kwargs IH]; intros self md Hin; [contradiction|].
  cbn [fold_left map] in *. unfold dict_pop at 2; cbn [fst snd].
  destruct (in_dec string_dec k (map key kwargs)) as [Hin'|Hnin].
  - now apply IH.
  - destruct Hin as [<-|Hin]; [|contradiction].
    fold (pop_kwargs V kwargs
            (setattr V self (key kw0)
               match dict_get md (key kw0) with Some v => v | None => default_value kw0 end)
            (dict_remove V md (key kw0))).
    rewrite pop_kwargs_self_other by assumption.
    unfold setattr; rewrite dict_get_set_same; discriminate.
Qed.

(** What [_pack_metadata] returns. *)
Lemma pack_fold_raise (kwargs : list kwarg) (self : dict) (e : exn) :
  fold_left
    (fun md kw => md <- md ;; v <- getattr V self (key kw) ;; Ok (dict_set V md (key kw) v))
    kwargs (Raise e) = Raise e.
Proof. induction kwargs as [|kw kwargs IH]; simpl; [reflexivity | exact IH]. Qed.

Lemma pack_fold_Ok (kwargs : list kwarg) (self md0 : dict) :
  (forall kw, In kw kwargs -> dict_get self (key kw) <> None) ->
  exists md,
    fold_left
      (fun md kw => md <- md ;; v <- getattr V self (key kw) ;; Ok (dict_set V md (key kw) v))
      kwargs (Ok md0) = Ok md
    /\ (forall kw, In kw kwargs -> dict_get md (key kw) = dict_get self (key kw))
    /\ (forall k, ~ In k (map key kwargs) -> dict_get md k = dict_get md0 k).
Proof.
  revert md0. induction kwargs as [|kw kwargs IH]; intros md0 Hall.
  - exists md0; repeat split; intros kw [].
  - cbn [fold_left bind]. unfold getattr at 2.
    destruct (dict_get self (key kw)) as [v|] eqn:Ev;
      [|exfalso; apply (Hall kw); [now left | exact Ev]].
    cbn [bind].
    destruct (IH (dict_set V md0 (key kw) v)) as (md & Hmd & Hk & Ho).
    { intros kw' Hin; apply Hall; now right. }
    exists md. split; [exact Hmd|]. split.
    + intros kw' [<-|Hin'].
      * destruct (in_dec string_dec (key kw) (map key kwargs)) as [Hin|Hnin].
        -- apply in_map_iff in Hin as (kw2 & Hk2 & Hin2). rewrite <- Hk2. now apply Hk.
        -- rewrite Ho by assumption. rewrite dict_get_set_same. now symmetry.
      * now apply Hk.
    + intros k Hn. cbn [map] in Hn. rewrite Ho by (intros H; apply Hn; now right).
      apply dict_get_set_other. intros ->; apply Hn; now left.
Qed.

Lemma pack_fold_missing (kwargs : list kwarg) (self md0 : dict) (kw : kwarg) :
  In kw kwargs -> dict_get self (key kw) = None ->
  fold_left
    (fun md kw => md <- md ;; v <- getattr V self (key kw) ;; Ok (dict_set V md (key kw) v))
    kwargs (Ok md0) = Raise AttributeError.
Proof.
  revert md0. induction kwargs as [|kw0 kwargs IH]; intros md0 Hin Hnone; [contradiction|].
  cbn [fold_left bind]. unfold getattr at 2.
  destruct (dict_get self (key kw0)) as [v|] eqn:Ev; cbn [bind].
  - destruct Hin as [->|Hin]; [congruence|]. now apply IH.
  - apply pack_fold_raise.
Qed.

End MetadataFacts.

(** [sorted] rearranges its argument in non-decreasing order. *)
Lemma insert_sorted_perm (k : string) (ks : list string) :
  Permutation (insert_sorted k ks) (k :: ks).
Proof.
  induction ks as [|k' ks IH]; simpl; [reflexivity|].
  destruct (String.leb k k'); [reflexivity|].
  rewrite IH. apply perm_swap.
Qed.

Lemma sorted_perm (ks : list string) : Permutation (sorted ks) ks.
Proof.
  induction ks as [|k ks IH]; simpl; [reflexivity|].
  rewrite insert_sorted_perm. now constructor.
Qed.

Lemma insert_sorted_Sorted (k : string) (ks : list string) :
  Sorted (fun a b => String.leb a b = true) ks ->
  Sorted (fun a b => String.leb a b = true) (insert_sorted k ks).
Proof.
  induction ks as [|k' ks IH]; intros Hs; simpl.
  - repeat constructor.
  - destruct (String.leb k k') eqn:E.
    + constructor; [exact Hs | now constructor].
    + inversion Hs as [|? ? Hs' Hhd]; subst.
      constructor; [now apply IH|].
      assert (Hk : String.leb k' k = true)
        by (destruct (String.leb_total k k'); congruence).
      destruct ks as [|k2 ks]; simpl; [now constructor|].
      destruct (String.leb k k2); constructor; [exact Hk|].
      now inversion Hhd.
Qed.

Lemma sorted_Sorted (ks : list string) :
  Sorted (fun a b => String.leb a b = true) (sorted ks).
Proof.
  induction ks as [|k ks IH]; simpl; [constructor | now apply insert_sorted_Sorted].
Qed.

(** The keys left in [md] by the loop are those no keyword argument
    names. *)
Lemma pop_kwargs_keys (V : Type) (kwargs : list (kwarg V)) (self md : dict V) (k : string) :
  In k (map fst (snd (pop_kwargs V kwargs self md)))
  <-> In k (map fst md) /\ ~ In k (map key kwargs).
Proof.
  assert (Hdec : forall d : dict V, In k (map fst d) <-> dict_get d k <> None).
  { intros d. pose proof (dict_get_None V d k) as H.
    destruct (dict_get d k); split; intros H'; try discriminate.
    - destruct (in_dec string_dec k (map fst d)) as [Hin|Hnin]; [exact Hin|].
      apply H in Hnin; discriminate.
    - exfalso. now apply (proj1 H).
    - contradiction. }
  rewrite !Hdec, pop_kwargs_md.
  destruct (in_dec string_dec k (map key kwargs)); tauto.
Qed.

(** X25.  Saving and loading restore the keyword arguments: when no two
    entries of the table share a key, and the loader of the base class
    leaves their entries of [md] alone, unpacking what [_pack_metadata]
    returned into any object gives every keyword attribute the value it
    had on the packed object. *)
Theorem metadata_round_trip (V : Type) (super_pack_metadata : dict V -> dict V)
    (super_unpack_metadata : dict V -> dict V -> dict V * dict V)
    (kwargs : list (kwarg V)) (self other md : dict V) :
  NoDup (map key kwargs) ->
  _pack_metadata V super_pack_metadata kwargs self = Ok md ->
  (forall kw, In kw kwargs ->
     dict_get (snd (super_unpack_metadata other md)) (key kw) = dict_get md (key kw)) ->
  forall kw, In kw kwargs ->
    dict_get (fst (fst (_unpack_metadata V super_unpack_metadata kwargs other md))) (key kw)
    = dict_get self (key kw)
    /\ dict_get self (key kw) <> None.
Proof.
  intros Hnd Hpack Hsuper kw Hin.
  unfold _pack_metadata in Hpack.
  assert (Hall : forall kw', In kw' kwargs -> dict_get self (key kw') <> None).
  { intros kw' Hin' Hnone.
    rewrite (pack_fold_missing V kwargs self _ kw' Hin' Hnone) in Hpack. discriminate. }
  destruct (pack_fold_Ok V kwargs self (super_pack_metadata self) Hall)
    as (md' & Hmd' & Hk & _).
  rewrite Hmd' in Hpack. injection Hpack as ->.
  split; [|now apply Hall].
  unfold _unpack_metadata.
  specialize (Hsuper kw Hin).
  destruct (super_unpack_metadata other md) as [self1 md1]; cbn [snd] in Hsuper.
  pose proof (pop_kwargs_self V kwargs self1 md1 kw Hnd Hin) as Hpop.
  destruct (pop_kwargs V kwargs self1 md1) as [self2 md2]; cbn [fst snd] in *.
  rewrite Hpop, Hsuper, (Hk kw Hin).
  destruct (dict_get self (key kw)) eqn:E; [reflexivity|].
  exfalso. now apply (Hall kw Hin).
Qed.

Lemma metadata_round_trip_witness :
  exists md,
    _pack_metadata Qc DemoMeta.super_pack_metadata DemoMeta.kwargs DemoMeta.self = Ok md
    /\ dict_get
         (fst (fst (_unpack_metadata Qc DemoMeta.super_unpack_metadata DemoMeta.kwargs [] md)))
         "ranef_to_fixef_prior_sd_ratio"%string
       = dict_get DemoMeta.self "ranef_to_fixef_prior_sd_ratio"%string.
Proof.
  assert (Hp : exists md,
             _pack_metadata Qc DemoMeta.super_pack_metadata DemoMeta.kwargs DemoMeta.self
             = Ok md) by (eexists; reflexivity).
  destruct Hp as (md & Hp). exists md. split; [exact Hp|].
  assert (Hnd : NoDup (map key DemoMeta.kwargs)).
  { repeat constructor; simpl; intuition discriminate. }
  assert (Hs : forall kw, In kw DemoMeta.kwargs ->
             dict_get (snd (DemoMeta.super_unpack_metadata [] md)) (key kw)
             = dict_get md (key kw)) by (intros; reflexivity).
  assert (Hin : In (mkKwarg "ranef_to_fixef_prior_sd_ratio"%string (qc 1 10))
                   DemoMeta.kwargs) by (right; left; reflexivity).
  exact (proj1 (metadata_round_trip Qc DemoMeta.super_pack_metadata
                  DemoMeta.super_unpack_metadata DemoMeta.kwargs DemoMeta.self [] md
                  Hnd Hp Hs _ Hin)).
Defined.

(** X26.  After [_unpack_metadata], with no two table entries sharing a
    key, every keyword attribute is the entry the base class left in
    [md] under its key, or the default of the table when there is none;
    every other attribute is as the base class left it. *)
Theorem unpack_sets_every_kwarg (V : Type)
    (super_unpack_metadata : dict V -> dict V -> dict V * dict V)
    (kwargs : list (kwarg V)) (self md : dict V) :
  NoDup (map key kwargs) ->
  let self1 := fst (super_unpack_metadata self md) in
  let md1 := snd (super_unpack_metadata self md) in
  let self2 := fst (fst (_unpack_metadata V super_unpack_metadata kwargs self md)) in
  (forall kw, In kw kwargs ->
     dict_get self2 (key kw)
     = Some (match dict_get md1 (key kw) with
             | Some v => v
             | None => default_value kw
             end))
  /\ (forall k, ~ In k (map key kwargs) -> dict_get self2 k = dict_get self1 k).
Proof.
  intros Hnd self1 md1 self2. subst self1 md1 self2. unfold _unpack_metadata.
  destruct (super_unpack_metadata self md) as [self1 md1]; cbn [fst snd].
  pose proof (pop_kwargs_self V kwargs self1 md1) as Hpop.
  pose proof (pop_kwargs_self_other V kwargs self1 md1) as Hother.
  destruct (pop_kwargs V kwargs self1 md1) as [self2 md2]; cbn [fst snd] in *.
  split; [intros kw Hin; now apply Hpop | exact Hother].
Qed.

Lemma unpack_sets_every_kwarg_witness :
  let self2 :=
    fst (fst (_unpack_metadata Qc DemoMeta.super_unpack_metadata DemoMeta.kwargs
                DemoMeta.self DemoMeta.md_other_version)) in
  dict_get self2 "posterior_to_prior_sd_ratio"%string = Some (qc 1 50)
  /\ dict_get self2 "ranef_to_fixef_prior_sd_ratio"%string = Some (qc 1 10).
Proof.
  assert (Hnd : NoDup (map key DemoMeta.kwargs)).
  { repeat constructor; simpl; intuition discriminate. }
  pose proof (proj1 (unpack_sets_every_kwarg Qc DemoMeta.super_unpack_metadata
                       DemoMeta.kwargs DemoMeta.self DemoMeta.md_other_version Hnd)) as H.
  split.
  - exact (H (mkKwarg "posterior_to_prior_sd_ratio"%string (qc 1 100))
             (or_introl eq_refl)).
  - exact (H (mkKwarg "ranef_to_fixef_prior_sd_ratio"%string (qc 1 10))
             (or_intror (or_introl eq_refl))).
Defined.

(** X27.  What [_unpack_metadata] leaves in [md] and writes to [stderr]:
    the keys left are those of the base class's leftovers that no
    keyword argument names; nothing is written exactly when every such
    key is named; and a message lists the keys left, each as often as
    it is there, in non-decreasing order. *)
Theorem unpack_reports_unrecognized (V : Type)
    (super_unpack_metadata : dict V -> dict V -> dict V * dict V)
    (kwargs : list (kwarg V)) (self md : dict V) :
  let md1 := snd (super_unpack_metadata self md) in
  let r := _unpack_metadata V super_unpack_metadata kwargs self md in
  (forall k, In k (map fst (snd (fst r)))
             <-> In k (map fst md1) /\ ~ In k (map key kwargs))
  /\ (snd r = [] <-> forall k, In k (map fst md1) -> In k (map key kwargs))
  /\ (forall ks, In ks (snd r) ->
        snd r = [ks]
        /\ Permutation ks (map fst (snd (fst r)))
        /\ Sorted (fun a b => String.leb a b = true) ks).
Proof.
  intros md1 r. subst md1 r. unfold _unpack_metadata.
  destruct (super_unpack_metadata self md) as [self1 md1]; cbn [snd].
  pose proof (pop_kwargs_keys V kwargs self1 md1) as Hkeys.
  destruct (pop_kwargs V kwargs self1 md1) as [self2 md2]; cbn [fst snd] in *.
  split; [exact Hkeys|]. split.
  - destruct md2 as [|[k0 v0] md2]; cbn [List.length Nat.ltb Nat.leb].
    + split; [|reflexivity]. intros _ k Hin.
      destruct (in_dec string_dec k (map key kwargs)) as [H|H]; [exact H|].
      exfalso. now apply (proj2 (Hkeys k) (conj Hin H)).
    + split; [discriminate|]. intros Hall. exfalso.
      destruct (proj1 (Hkeys k0) (or_introl eq_refl)) as [Hin Hn].
      apply Hn, Hall, Hin.
  - intros ks Hin.
    destruct md2 as [|[k0 v0] md2]; cbn [List.length Nat.ltb Nat.leb] in *;
      [contradiction|].
    destruct Hin as [<-|[]].
    split; [reflexivity|]. split; [apply sorted_perm | apply sorted_Sorted].
Qed.

(** X28.  An object that went through [_unpack_metadata] can always be
    packed again: [_pack_metadata] finds every keyword attribute, and
    stores under each key the attribute's value. *)
Theorem pack_after_unpack_succeeds (V : Type) (super_pack_metadata : dict V -> dict V)
    (super_unpack_metadata : dict V -> dict V -> dict V * dict V)
    (kwargs : list (kwarg V)) (self md : dict V) :
  let self2 := fst (fst (_unpack_metadata V super_unpack_metadata kwargs self md)) in
  exists md2,
    _pack_metadata V super_pack_metadata kwargs self2 = Ok md2
    /\ forall kw, In kw kwargs ->
         dict_get md2 (key kw) = dict_get self2 (key kw)
         /\ dict_get self2 (key kw) <> None.
Proof.
  intros self2. subst self2. unfold _unpack_metadata.
  destruct (super_unpack_metadata self md) as [self1 md1].
  pose proof (pop_kwargs_self_set V kwargs self1 md1) as Hset.
  destruct (pop_kwargs V kwargs self1 md1) as [self2 md2]; cbn [fst snd] in *.
  assert (Hall : forall kw, In kw kwargs -> dict_get self2 (key kw) <> None)
    by (intros kw Hin; apply Hset; now apply in_map).
  destruct (pack_fold_Ok V kwargs self2 (super_pack_metadata self2) Hall)
    as (md' & Hmd' & Hk & _).
  exists md'. split; [exact Hmd'|].
  intros kw Hin. split; [now apply Hk | now apply Hall].
Qed.

(** X29.  When every keyword attribute is set, [_pack_metadata] returns
    the dictionary of the base class with the value of each keyword
    attribute stored under its key (replacing an entry of the base
    class under that key), and every other entry as the base class
    packed it. *)
Theorem pack_metadata_contents (V : Type) (super_pack_metadata : dict V -> dict V)
    (kwargs : list (kwarg V)) (self : dict V) :
  (forall kw, In kw kwargs -> dict_get self (key kw) <> None) ->
  exists md,
    _pack_metadata V super_pack_metadata kwargs self = Ok md
    /\ (forall kw, In kw kwargs -> dict_get md (key kw) = dict_get self (key kw))
    /\ (forall k, ~ In k (map key kwargs) ->
          dict_get md k = dict_get (super_pack_metadata self) k).
Proof.
  intros Hall. exact (pack_fold_Ok V kwargs self (super_pack_metadata self) Hall).
Qed.

Lemma pack_metadata_contents_witness :
  exists md,
    _pack_metadata Qc (fun _ => DemoMeta.md_other_version) DemoMeta.kwargs DemoMeta.self
    = Ok md
    /\ dict_get md "posterior_to_prior_sd_ratio"%string = Some (qc 1 50)
    /\ dict_get md "legacy_option"%string = Some 1%Qc.
Proof.
  assert (Hall : forall kw, In kw DemoMeta.kwargs ->
             dict_get DemoMeta.self (key kw) <> None).
  { intros kw [<-|[<-|[]]]; discriminate. }
  destruct (pack_metadata_contents Qc (fun _ => DemoMeta.md_other_version)
              DemoMeta.kwargs DemoMeta.self Hall) as (md & Hmd & Hk & Ho).
  exists md. split; [exact Hmd|]. split.
  - exact (Hk (mkKwarg "posterior_to_prior_sd_ratio"%string (qc 1 100))
              (or_introl eq_refl)).
  - apply (Ho "legacy_option"%string).
    simpl; intuition discriminate.
Defined.

(** X30.  [_pack_metadata] raises [AttributeError] when some keyword
    attribute was never set on the object, whatever the base class
    packed. *)
Theorem pack_missing_attribute (V : Type) (super_pack_metadata : dict V -> dict V)
    (kwargs : list (kwarg V)) (self : dict V) (kw : kwarg V) :
  In kw kwargs -> dict_get self (key kw) = None ->
  _pack_metadata V super_pack_metadata kwargs self = Raise AttributeError.
Proof.
  intros Hin Hnone. unfold _pack_metadata.
  exact (pack_fold_missing V kwargs self _ kw Hin Hnone).
Qed.

Lemma pack_missing_attribute_witness :
  _pack_metadata Qc DemoMeta.super_pack_metadata DemoMeta.kwargs
    [("posterior_to_prior_sd_ratio"%string, qc 1 50)]
  = Raise AttributeError.
Proof.
  apply (pack_missing_attribute Qc DemoMeta.super_pack_metadata DemoMeta.kwargs
           [("posterior_to_prior_sd_ratio"%string, qc 1 50)]
           (mkKwarg "ranef_to_fixef_prior_sd_ratio"%string (qc 1 10))).
  - right; left; reflexivity.
  - reflexivity.
Defined.
